(** * Change detection and notification de-duplication of the ticket watcher

    A shallow embedding of [src/index.js] and the properties of its
    specification.  JavaScript strings are sequences of UTF-16 code units,
    JavaScript objects used as dictionaries are finite maps, and the calls
    into the browser, the messenger, the clock and the file system are
    oracles over an abstract world that is threaded through the program. *)

From Stdlib Require Import ZArith NArith Lia Bool List.
From Stdlib Require Import Ascii String DecimalString DecimalN DecimalPos.
From stdpp Require Import base option list gmap fin_maps.

Local Open Scope Z_scope.

(** ** JavaScript strings *)

(** A string value is its sequence of UTF-16 code units ([charCodeAt]). *)
Abbreviation jsstring := (list N).

(** Literals of the source that are plain ASCII. *)
Definition js (s : string) : jsstring :=
  map N_of_ascii (list_ascii_of_string s).

(** [Boolean(s)] of a string: only the empty string is falsy. *)
Definition truthy_str (s : jsstring) : bool :=
  match s with [] => false | _ :: _ => true end.

(** [Boolean(n)] of an integral number: only zero is falsy. *)
Definition truthy_num (n : Z) : bool := negb (n =? 0).

(** [String(h)] of an integral number: its decimal numeral. *)
Definition String_of_Z (h : Z) : jsstring :=
  js (NilZero.string_of_int (Z.to_int h)).

Fixpoint startsWith (s tok : jsstring) {struct tok} : bool :=
  match tok, s with
  | [], _ => true
  | _ :: _, [] => false
  | c :: tok', d :: s' => N.eqb c d && startsWith s' tok'
  end.

(** [s.includes(tok)]: [tok] occurs in [s] as a contiguous run. *)
Fixpoint includes (s tok : jsstring) : bool :=
  startsWith s tok ||
  match s with
  | [] => false
  | _ :: s' => includes s' tok
  end.

(** [tok] occurs in [s]. *)
Definition occursIn (tok s : jsstring) : Prop :=
  exists before after, s = before ++ tok ++ after.

(** [s.split(sep)] for a separator of one code unit. *)
Fixpoint split (sep : N) (s : jsstring) : list jsstring :=
  match s with
  | [] => [[]]
  | c :: s' =>
      if N.eqb c sep then [] :: split sep s'
      else match split sep s' with
           | piece :: pieces => (c :: piece) :: pieces
           | [] => [[c]]
           end
  end.

(** White space and line terminators removed by [trim]. *)
Definition isWhiteSpace (c : N) : bool :=
  ((9 <=? c) && (c <=? 13) || N.eqb c 32 || N.eqb c 160 || N.eqb c 5760
   || (8192 <=? c) && (c <=? 8202) || N.eqb c 8232 || N.eqb c 8233
   || N.eqb c 8239 || N.eqb c 8287 || N.eqb c 12288 || N.eqb c 65279)%N.

Fixpoint dropWhile (p : N -> bool) (s : jsstring) : jsstring :=
  match s with
  | c :: s' => if p c then dropWhile p s' else s
  | [] => []
  end.

(** The longest prefix whose code units satisfy [p], and what follows it. *)
Fixpoint span (p : N -> bool) (s : jsstring) : jsstring * jsstring :=
  match s with
  | c :: s' =>
      if p c then let (taken, rest) := span p s' in (c :: taken, rest)
      else ([], s)
  | [] => ([], [])
  end.

(** [s === t]. *)
Fixpoint jsstring_eqb (s t : jsstring) : bool :=
  match s, t with
  | [], [] => true
  | c :: s', d :: t' => N.eqb c d && jsstring_eqb s' t'
  | _, _ => false
  end.

Definition trimStart (s : jsstring) : jsstring := dropWhile isWhiteSpace s.

Definition trimEnd (s : jsstring) : jsstring := rev (trimStart (rev s)).

Definition trim (s : jsstring) : jsstring := trimEnd (trimStart s).

(** ** The content digest, [hash] *)

(** [x | 0]: conversion to a signed 32-bit integer. *)
Definition toInt32 (x : Z) : Z := (x + 2 ^ 31) mod 2 ^ 32 - 2 ^ 31.

(** The body of the [for] loop: [h = ((h << 5) - h) + chr; h |= 0]. *)
Definition hash_step (h : Z) (chr : N) : Z :=
  toInt32 ((toInt32 (Z.shiftl h 5) - h) + Z.of_N chr).

Fixpoint hash_loop (h : Z) (str : jsstring) : Z :=
  match str with
  | [] => h
  | chr :: rest => hash_loop (hash_step h chr) rest
  end.

Definition hash (str : jsstring) : jsstring :=
  if negb (truthy_str str) then js "0"
  else String_of_Z (hash_loop 0 str).

(** ** The persisted state *)

Record State := mkState {
  notified : gmap jsstring Z;        (* dedup key -> epoch milliseconds *)
  lastHash : gmap jsstring jsstring  (* normalized href -> fingerprint *)
}.

(** The value of [loadState] when the file is absent or unparsable. *)
Definition emptyState : State := mkState ∅ ∅.

(** ** [prune] *)

Definition prune_cutoff (NOTIFY_TTL_HOURS now : Z) : Z :=
  now - NOTIFY_TTL_HOURS * 3600 * 1000.

(** One iteration over [Object.entries(state.notified)]. *)
Definition prune_entry (cutoff : Z) (m : gmap jsstring Z)
    (entry : jsstring * Z) : gmap jsstring Z :=
  if entry.2 <? cutoff then delete entry.1 m else m.

Definition prune (NOTIFY_TTL_HOURS now : Z) (state : State) : State :=
  let cutoff := prune_cutoff NOTIFY_TTL_HOURS now in
  mkState
    (fold_left (prune_entry cutoff) (map_to_list (notified state))
       (notified state))
    (lastHash state).

(** ** The notify decision of [checkOnce] *)

(** [state.notified[key]] read as a condition. *)
Definition notified_truthy (state : State) (key : jsstring) : bool :=
  match notified state !! key with
  | Some ts => truthy_num ts
  | None => false
  end.

(** The guard [if (state.notified[key] && !FORCE_NOTIFY) continue;]. *)
Definition skipCandidate (FORCE_NOTIFY : bool) (state : State)
    (key : jsstring) : bool :=
  notified_truthy state key && negb FORCE_NOTIFY.

Definition notifyDecision (FORCE_NOTIFY : bool) (state : State)
    (key : jsstring) : bool :=
  negb (skipCandidate FORCE_NOTIFY state key).

(** [state.notified[key] = Date.now()]. *)
Definition recordNotified (state : State) (key : jsstring) (now : Z) : State :=
  mkState (<[key := now]> (notified state)) (lastHash state).

(** [state.lastHash[norm] = contentHash]. *)
Definition recordHash (state : State) (norm contentHash : jsstring) : State :=
  mkState (notified state) (<[norm := contentHash]> (lastHash state)).


(** ** Keyword rules: [RAW_RULES], [RULES] and [matchesKeywords] *)

(** The default of the [KEYWORDS] setting,
    "Кайрат&Реал, Kairat&Real, Реал Мадрид, Real Madrid". *)
Definition DEFAULT_KEYWORDS : jsstring :=
  [1050; 1072; 1081; 1088; 1072; 1090; 38; 1056; 1077; 1072; 1083; 44; 32;
   75; 97; 105; 114; 97; 116; 38; 82; 101; 97; 108; 44; 32;
   1056; 1077; 1072; 1083; 32; 1052; 1072; 1076; 1088; 1080; 1076; 44; 32;
   82; 101; 97; 108; 32; 77; 97; 100; 114; 105; 100]%N.

(** [process.env.X || fallback]: an unset or empty variable takes the
    fallback. *)
Definition envOr (value : option jsstring) (fallback : jsstring) : jsstring :=
  match value with
  | Some v => if truthy_str v then v else fallback
  | None => fallback
  end.

Definition RAW_RULES (KEYWORDS : option jsstring) : list jsstring :=
  List.filter truthy_str (map trim (split 44 (envOr KEYWORDS DEFAULT_KEYWORDS))).

Section Keywords.

(** [String.prototype.toLowerCase] of the engine. *)
Variable toLowerCase : jsstring -> jsstring.

Definition parseRule (rule : jsstring) : list jsstring :=
  List.filter truthy_str (map trim (split 38 (toLowerCase rule))).

Definition RULES (KEYWORDS : option jsstring) : list (list jsstring) :=
  map parseRule (RAW_RULES KEYWORDS).

(** [matchesKeywords(text)] for the rule set [rules]; a string [text] is
    its own [text || '']. *)
Definition matchesKeywords (rules : list (list jsstring)) (text : jsstring)
  : bool :=
  let t := toLowerCase (if truthy_str text then text else []) in
  existsb (fun tokens => forallb (fun tok => includes t tok) tokens) rules.

End Keywords.

(** ** The URL parser behind [new URL(href)]

    The basic URL parser of the URL Standard, run without a base URL on
    the scalar values of the string, as far as [origin] and [pathname]
    depend on it: user name, password, query and fragment are scanned but
    not kept.  Parsing a host (domain to ASCII, IPv4 and IPv6 addresses,
    opaque hosts) is a parameter. *)

Abbreviation c_slash := 47%N.
Abbreviation c_backslash := 92%N.
Abbreviation c_question := 63%N.
Abbreviation c_hash := 35%N.
Abbreviation c_colon := 58%N.
Abbreviation c_at := 64%N.
Abbreviation c_percent := 37%N.

Definition isHighSurrogate (c : N) : bool := ((55296 <=? c) && (c <=? 56319))%N.
Definition isLowSurrogate (c : N) : bool := ((56320 <=? c) && (c <=? 57343))%N.

(** Conversion to a sequence of scalar values: surrogate pairs are
    combined, a lone surrogate becomes U+FFFD. *)
Fixpoint toUSV (s : jsstring) : list N :=
  match s with
  | [] => []
  | c :: s' =>
      if isHighSurrogate c then
        match s' with
        | d :: s'' =>
            if isLowSurrogate d
            then (65536 + (c - 55296) * 1024 + (d - 56320))%N :: toUSV s''
            else 65533%N :: toUSV s'
        | [] => [65533%N]
        end
      else if isLowSurrogate c then 65533%N :: toUSV s'
      else c :: toUSV s'
  end.

(** The bytes of a scalar value in UTF-8. *)
Definition utf8Encode (c : N) : list N :=
  (if c <? 128 then [c]
   else if c <? 2048 then [192 + c / 64; 128 + c mod 64]
   else if c <? 65536
     then [224 + c / 4096; 128 + (c / 64) mod 64; 128 + c mod 64]
     else [240 + (c / 262144) mod 8; 128 + (c / 4096) mod 64;
           128 + (c / 64) mod 64; 128 + c mod 64])%N.

(** An upper-case hexadecimal digit. *)
Definition hexDigit (d : N) : N := (if d <? 10 then 48 + d else 55 + d)%N.

Definition percentEncodeByte (b : N) : jsstring :=
  [c_percent; hexDigit (b / 16); hexDigit (b mod 16)]%N.

(** UTF-8 percent-encoding of a code point with a percent-encode set. *)
Definition utf8PercentEncode (inSet : N -> bool) (c : N) : jsstring :=
  if inSet c then flat_map percentEncodeByte (utf8Encode c) else [c].

(** The C0 control, query and path percent-encode sets. *)
Definition inC0ControlSet (c : N) : bool := ((c <=? 31) || (126 <? c))%N.

Definition inQuerySet (c : N) : bool :=
  inC0ControlSet c
  || N.eqb c 32 || N.eqb c 34 || N.eqb c 35 || N.eqb c 60 || N.eqb c 62.

Definition inPathSet (c : N) : bool :=
  inQuerySet c
  || N.eqb c 63 || N.eqb c 94 || N.eqb c 96 || N.eqb c 123 || N.eqb c 125.

Definition isC0OrSpace (c : N) : bool := (c <=? 32)%N.

Definition isTabOrNewline (c : N) : bool :=
  N.eqb c 9 || N.eqb c 10 || N.eqb c 13.

(** Leading and trailing C0 controls and spaces are removed, then every
    tab and newline. *)
Definition stripInput (s : list N) : list N :=
  List.filter (fun c => negb (isTabOrNewline c))
    (rev (dropWhile isC0OrSpace (rev (dropWhile isC0OrSpace s)))).

Definition isAsciiUpper (c : N) : bool := ((65 <=? c) && (c <=? 90))%N.
Definition isAsciiLowerAlpha (c : N) : bool := ((97 <=? c) && (c <=? 122))%N.
Definition isAsciiAlpha (c : N) : bool := isAsciiUpper c || isAsciiLowerAlpha c.
Definition isAsciiDigit (c : N) : bool := ((48 <=? c) && (c <=? 57))%N.
Definition asciiLower (c : N) : N := (if isAsciiUpper c then c + 32 else c)%N.

Definition isSchemeChar (c : N) : bool :=
  isAsciiAlpha c || isAsciiDigit c || N.eqb c 43 || N.eqb c 45 || N.eqb c 46.

(** Scheme start state and scheme state; without a base URL the
    no-scheme state is a failure. *)
Definition parseScheme (s : list N) : option (jsstring * list N) :=
  match s with
  | c :: _ =>
      if isAsciiAlpha c then
        let (buffer, rest) := span isSchemeChar s in
        match rest with
        | d :: remaining =>
            if N.eqb d c_colon then Some (map asciiLower buffer, remaining)
            else None
        | [] => None
        end
      else None
  | [] => None
  end.

(** The schemes whose origin is the tuple of scheme, host and port. *)
Definition hasTupleOrigin (scheme : jsstring) : bool :=
  existsb (jsstring_eqb scheme)
    [js "ftp"; js "http"; js "https"; js "ws"; js "wss"].

Definition isSpecialScheme (scheme : jsstring) : bool :=
  jsstring_eqb scheme (js "file") || hasTupleOrigin scheme.

Definition defaultPort (scheme : jsstring) : option N :=
  if jsstring_eqb scheme (js "ftp") then Some 21%N
  else if jsstring_eqb scheme (js "http") then Some 80%N
  else if jsstring_eqb scheme (js "https") then Some 443%N
  else if jsstring_eqb scheme (js "ws") then Some 80%N
  else if jsstring_eqb scheme (js "wss") then Some 443%N
  else None.

Definition isSlashOrBackslash (c : N) : bool :=
  N.eqb c c_slash || N.eqb c c_backslash.

(** The code points that end the authority, the host and the port. *)
Definition isAuthorityEnd (special : bool) (c : N) : bool :=
  N.eqb c c_slash || N.eqb c c_question || N.eqb c c_hash
  || (special && N.eqb c c_backslash).

(** Authority state: what follows the last "@" is the host and port; an
    "@" followed by nothing is a failure. *)
Definition hostportOf (authority : list N) : option (list N) :=
  match rev (split c_at authority) with
  | [] => None
  | [noAtSign] => Some noAtSign
  | afterLastAt :: _ :: _ =>
      match afterLastAt with [] => None | _ :: _ => Some afterLastAt end
  end.

(** Host state: the host name ends at the first ":" outside brackets. *)
Fixpoint splitHostPort (insideBrackets : bool) (s : list N)
  : list N * option (list N) :=
  match s with
  | [] => ([], None)
  | c :: s' =>
      if N.eqb c c_colon && negb insideBrackets then ([], Some s')
      else
        let inside :=
          if N.eqb c 91 then true
          else if N.eqb c 93 then false else insideBrackets in
        let (hostname, portpart) := splitHostPort inside s' in
        (c :: hostname, portpart)
  end.

(** ASCII digits and the decimal numerals of the standard library. *)
Definition digitOfCode (c : N) : Decimal.uint -> Decimal.uint :=
  match (c - 48)%N with
  | 0%N => Decimal.D0 | 1%N => Decimal.D1 | 2%N => Decimal.D2
  | 3%N => Decimal.D3 | 4%N => Decimal.D4 | 5%N => Decimal.D5
  | 6%N => Decimal.D6 | 7%N => Decimal.D7 | 8%N => Decimal.D8
  | _ => Decimal.D9
  end.

Fixpoint uintOfCodes (digits : list N) : Decimal.uint :=
  match digits with
  | [] => Decimal.Nil
  | c :: digits' => digitOfCode c (uintOfCodes digits')
  end.

Fixpoint codesOfUint (u : Decimal.uint) : jsstring :=
  match u with
  | Decimal.Nil => []
  | Decimal.D0 u' => 48%N :: codesOfUint u'
  | Decimal.D1 u' => 49%N :: codesOfUint u'
  | Decimal.D2 u' => 50%N :: codesOfUint u'
  | Decimal.D3 u' => 51%N :: codesOfUint u'
  | Decimal.D4 u' => 52%N :: codesOfUint u'
  | Decimal.D5 u' => 53%N :: codesOfUint u'
  | Decimal.D6 u' => 54%N :: codesOfUint u'
  | Decimal.D7 u' => 55%N :: codesOfUint u'
  | Decimal.D8 u' => 56%N :: codesOfUint u'
  | Decimal.D9 u' => 57%N :: codesOfUint u'
  end.

(** The number written by a run of ASCII digits, radix 10. *)
Definition decimalValue (digits : list N) : N := N.of_uint (uintOfCodes digits).

(** The decimal numeral of a port number. *)
Definition decimalOfN (n : N) : jsstring := codesOfUint (N.to_uint n).

(** Port state.  The outer [None] is a failure, the inner one the null
    port (no port, or the default port of the scheme). *)
Definition parsePort (scheme : jsstring) (digits : list N)
  : option (option N) :=
  if forallb isAsciiDigit digits then
    match digits with
    | [] => Some None
    | _ :: _ =>
        let p := decimalValue digits in
        if (65535 <? p)%N then None
        else match defaultPort scheme with
             | Some d => if N.eqb d p then Some None else Some (Some p)
             | None => Some (Some p)
             end
    end
  else None.

Inductive URLPath :=
| OpaquePath (p : jsstring)
| ListPath (segments : list jsstring).

Record URLRecord := mkURL {
  scheme : jsstring;
  host : option jsstring;   (* serialized host, [None] for the null host *)
  port : option N;
  path : URLPath
}.

Definition isPathSeparator (special : bool) (c : N) : bool :=
  N.eqb c c_slash || (special && N.eqb c c_backslash).

Definition isPathEnd (c : N) : bool := N.eqb c c_question || N.eqb c c_hash.

(** Single-dot and double-dot path segments, in every spelling. *)
Definition isSingleDot (buffer : jsstring) : bool :=
  let b := map asciiLower buffer in
  jsstring_eqb b (js ".") || jsstring_eqb b (js "%2e").

Definition isDoubleDot (buffer : jsstring) : bool :=
  let b := map asciiLower buffer in
  jsstring_eqb b (js "..") || jsstring_eqb b (js ".%2e")
  || jsstring_eqb b (js "%2e.") || jsstring_eqb b (js "%2e%2e").

Definition isWindowsDriveLetter (buffer : jsstring) : bool :=
  match buffer with
  | [c; d] => isAsciiAlpha c && (N.eqb d c_colon || N.eqb d 124)
  | _ => false
  end.

Definition isNormalizedWindowsDriveLetter (buffer : jsstring) : bool :=
  match buffer with
  | [c; d] => isAsciiAlpha c && N.eqb d c_colon
  | _ => false
  end.

(** Shortening a path: the last segment goes, except the drive letter of
    a file URL. *)
Definition shorten (isFile : bool) (path : list jsstring) : list jsstring :=
  match path with
  | [only] =>
      if isFile && isNormalizedWindowsDriveLetter only then path else []
  | _ => removelast path
  end.

(** Path state at the end of a segment; [atSeparator] tells whether the
    segment was ended by a separator rather than by "?", "#" or the end
    of the input. *)
Definition pushSegment (isFile atSeparator : bool) (path : list jsstring)
    (buffer : jsstring) : list jsstring :=
  if isDoubleDot buffer then
    let path' := shorten isFile path in
    if atSeparator then path' else path' ++ [[]]
  else if isSingleDot buffer then
    if atSeparator then path else path ++ [[]]
  else
    match path, buffer with
    | [], [c; d] =>
        if isFile && isWindowsDriveLetter buffer
        then path ++ [[c; c_colon]] else path ++ [buffer]
    | _, _ => path ++ [buffer]
    end.

(** Path state. *)
Fixpoint parsePath (special isFile : bool) (path : list jsstring)
    (buffer : jsstring) (s : list N) : list jsstring :=
  match s with
  | [] => pushSegment isFile false path buffer
  | c :: s' =>
      if isPathSeparator special c
      then parsePath special isFile (pushSegment isFile true path buffer) [] s'
      else if isPathEnd c then pushSegment isFile false path buffer
      else parsePath special isFile path
             (buffer ++ utf8PercentEncode inPathSet c) s'
  end.

(** Path start state. *)
Definition parsePathStart (special isFile : bool) (s : list N)
  : list jsstring :=
  match s with
  | [] => if special then parsePath special isFile [] [] [] else []
  | c :: s' =>
      if special then
        if isSlashOrBackslash c then parsePath special isFile [] [] s'
        else parsePath special isFile [] [] s
      else if isPathEnd c then []
      else if N.eqb c c_slash then parsePath special isFile [] [] s'
      else parsePath special isFile [] [] s
  end.

(** Opaque path state. *)
Fixpoint parseOpaquePath (s : list N) : jsstring :=
  match s with
  | [] => []
  | c :: s' =>
      if isPathEnd c then []
      else if N.eqb c 32 then
        match s' with
        | d :: _ =>
            (if isPathEnd d then js "%20" else [32%N]) ++ parseOpaquePath s'
        | [] => [32%N]
        end
      else utf8PercentEncode inC0ControlSet c ++ parseOpaquePath s'
  end.

(** The serialized segments of a path. *)
Definition serializeSegments (segments : list jsstring) : jsstring :=
  flat_map (fun segment => c_slash :: segment) segments.

(** The serialized port, with its colon. *)
Definition serializePort (p : option N) : jsstring :=
  match p with Some n => c_colon :: decimalOfN n | None => [] end.

Section URLParser.

(** The host parser: [hostParser isOpaque input] is the serialized host,
    or [None] on failure. *)
Variable hostParser : bool -> list N -> option jsstring.

(** Authority, host and port states, then the path. *)
Definition parseAuthority (scheme : jsstring) (special : bool) (s : list N)
  : option URLRecord :=
  let (authority, rest) := span (fun c => negb (isAuthorityEnd special c)) s in
  match hostportOf authority with
  | None => None
  | Some hostport =>
      let (hostname, portpart) := splitHostPort false hostport in
      match portpart with
      | Some digits =>
          match hostname with
          | [] => None
          | _ :: _ =>
              match hostParser (negb special) hostname with
              | None => None
              | Some h =>
                  match parsePort scheme digits with
                  | None => None
                  | Some p =>
                      Some (mkURL scheme (Some h) p
                              (ListPath (parsePathStart special false rest)))
                  end
              end
          end
      | None =>
          if special && negb (truthy_str hostname) then None
          else
            match hostParser (negb special) hostname with
            | None => None
            | Some h =>
                Some (mkURL scheme (Some h) None
                        (ListPath (parsePathStart special false rest)))
            end
      end
  end.

Definition fileURL (h : jsstring) (segments : list jsstring) : URLRecord :=
  mkURL (js "file") (Some h) None (ListPath segments).

(** File host state. *)
Definition parseFileHost (s : list N) : option URLRecord :=
  let (buffer, rest) := span (fun c => negb (isAuthorityEnd true c)) s in
  if isWindowsDriveLetter buffer
  then Some (fileURL [] (parsePath true true [] [] (buffer ++ rest)))
  else
    match buffer with
    | [] => Some (fileURL [] (parsePathStart true true rest))
    | _ :: _ =>
        match hostParser false buffer with
        | None => None
        | Some h =>
            Some (fileURL (if jsstring_eqb h (js "localhost") then [] else h)
                    (parsePathStart true true rest))
        end
    end.

(** File state and file slash state. *)
Definition parseFile (s : list N) : option URLRecord :=
  match s with
  | c :: s1 =>
      if isSlashOrBackslash c then
        match s1 with
        | d :: s2 =>
            if isSlashOrBackslash d then parseFileHost s2
            else Some (fileURL [] (parsePath true true [] [] s1))
        | [] => Some (fileURL [] (parsePath true true [] [] []))
        end
      else Some (fileURL [] (parsePath true true [] [] s))
  | [] => Some (fileURL [] (parsePath true true [] [] []))
  end.

(** The basic URL parser without a base URL. *)
Definition basicParse (input : list N) : option URLRecord :=
  match parseScheme (stripInput input) with
  | None => None
  | Some (scheme, remaining) =>
      if jsstring_eqb scheme (js "file") then parseFile remaining
      else if isSpecialScheme scheme
      then parseAuthority scheme true (dropWhile isSlashOrBackslash remaining)
      else
        match remaining with
        | c :: r1 =>
            if N.eqb c c_slash then
              match r1 with
              | d :: r2 =>
                  if N.eqb d c_slash then parseAuthority scheme false r2
                  else Some (mkURL scheme None None
                               (ListPath (parsePath false false [] [] r1)))
              | [] => Some (mkURL scheme None None
                              (ListPath (parsePath false false [] [] [])))
              end
            else Some (mkURL scheme None None
                         (OpaquePath (parseOpaquePath remaining)))
        | [] => Some (mkURL scheme None None (OpaquePath []))
        end
  end.

(** [new URL(href)]; [None] stands for the [TypeError] it throws. *)
Definition URL (href : jsstring) : option URLRecord := basicParse (toUSV href).

(** The [pathname] getter. *)
Definition pathname (u : URLRecord) : jsstring :=
  match path u with
  | OpaquePath p => p
  | ListPath segments => serializeSegments segments
  end.

Definition serializeHostPort (u : URLRecord) : jsstring :=
  match host u with Some h => h | None => [] end ++ serializePort (port u).

Definition tupleOrigin (u : URLRecord) : jsstring :=
  scheme u ++ js "://" ++ serializeHostPort u.

(** The [origin] getter: the serialized origin, "null" when opaque. *)
Definition origin (u : URLRecord) : jsstring :=
  if jsstring_eqb (scheme u) (js "blob") then
    match basicParse (toUSV (pathname u)) with
    | Some v =>
        if jsstring_eqb (scheme v) (js "http")
           || jsstring_eqb (scheme v) (js "https")
        then tupleOrigin v else js "null"
    | None => js "null"
    end
  else if hasTupleOrigin (scheme u) then tupleOrigin u
  else js "null".

(** ** [normalizeHref] *)

Definition normalizeHref (href : jsstring) : jsstring :=
  match URL href with
  | Some u => origin u ++ pathname u
  | None => if truthy_str href then href else []
  end.

End URLParser.

(** A host parser for examples: domain names written with ASCII letters
    and dots, which the Standard turns into lower case; it rejects every
    other host. *)
Definition letterHostParser (isOpaque : bool) (input : list N)
  : option jsstring :=
  match input with
  | [] => None
  | _ :: _ =>
      if forallb (fun c => isAsciiAlpha c || N.eqb c 46) input
      then Some (if isOpaque then input else map asciiLower input)
      else None
  end.

(** ** The platform the program runs on *)

(** A rejected promise or a thrown exception carries a message. *)
Inductive result (A : Type) :=
| Ok (a : A)
| Throw (e : jsstring).

Arguments Ok {A} a.
Arguments Throw {A} e.

(** An anchor of the rendered page, [{ href, text }]. *)
Record Anchor := mkAnchor { a_href : jsstring; a_text : jsstring }.

(** What [page.evaluate] extracts from a detail page. *)
Record Fields := mkFields {
  title : jsstring; dates : jsstring; buttons : jsstring;
  prices : jsstring; body : jsstring
}.

(** The page of the scan loop and the page opened for a fingerprint. *)
Inductive Page := ListingPage | DetailPage.

(** The builtins of the engine that are functions of their argument. *)
Record Engine := mkEngine {
  lowerCase : jsstring -> jsstring;               (* toLowerCase *)
  parseHost : bool -> list N -> option jsstring;  (* host parser of URL *)
  waitingRoom : jsstring -> bool  (* /Комната ожидания|ожидания|очередь/i *)
}.

(** What [JSON.parse] makes of the state file, as far as [checkOnce]
    depends on it: an object of the shape
    [{ notified: { key: ts }, lastHash: { normHref: hash } }], or a value
    on which [prune] throws [e] in its loop header or body (lines 53 to
    55): for instance [null], whose property [notified] cannot be read,
    and every value whose [notified] is undefined or [null], such as
    [{}], a number or an array, on which [Object.entries] throws.  A
    parsed value that [prune] accepts and that has another shape than a
    state object is outside the data model of the state. *)
Inductive Parsed :=
| StateObject (state : State)
| Unprunable (e : jsstring).

(** The calls that reach outside the program.  Each one takes the world
    to a new world; [Throw] is a rejected promise or a thrown error.
    [readStateFile] is [JSON.parse(fs.readFileSync(STATE_FILE, 'utf-8'))],
    and [None] when reading or parsing throws. *)
Record Platform := mkPlatform {
  World : Type;
  Date_now : World -> Z * World;
  readStateFile : World -> option Parsed * World;
  writeStateFile : State -> World -> result unit * World;
  sleep : Z -> World -> World;
  browser_newContext : World -> result unit * World;
  context_newPage : Page -> World -> result unit * World;
  context_close : World -> result unit * World;
  page_goto : Page -> jsstring -> World -> result unit * World;
  page_waitForLoadState : Page -> World -> result unit * World;
  page_bodyText : World -> result jsstring * World;
  page_anchors : World -> result (list Anchor) * World;
  page_url : World -> jsstring;
  page_fields : World -> result Fields * World;
  page_close : World -> result unit * World;
  bot_sendMessage : jsstring -> jsstring -> World -> result unit * World
}.

(** The constants computed from the environment when the module loads.
    [NOTIFY_TTL_HOURS] is taken to be a whole number of hours. *)
Record Config := mkConfig {
  CHAT_ID : jsstring;
  URLS : list jsstring;
  KEYWORDS : option jsstring;
  FORCE_NOTIFY : bool;
  NOTIFY_TTL_HOURS : Z;
  DEEP_CHECK : bool
}.

Inductive LogLine :=
| LogWatch (target : jsstring)
| LogWaitingRoom
| LogCandidates (n : nat)
| LogUnique (n : nat)
| LogError (target message : jsstring).

(** A candidate after de-duplication, [{ ...item, normHref }]. *)
Record Item := mkItem {
  item_href : jsstring; item_text : jsstring; normHref : jsstring
}.

(** [/ticketon\.kz\/.+\/event\//.test(href)]: the dot stands for one code
    unit other than a line terminator. *)
Definition isLineTerminator (c : N) : bool :=
  N.eqb c 10 || N.eqb c 13 || N.eqb c 8232 || N.eqb c 8233.

Fixpoint eventAfterDomain (s : jsstring) : bool :=
  match s with
  | [] => false
  | c :: s' =>
      negb (isLineTerminator c)
      && (startsWith s' (js "/event/") || eventAfterDomain s')
  end.

Fixpoint isTicketonEvent (href : jsstring) : bool :=
  (startsWith href (js "ticketon.kz/")
   && eventAfterDomain (skipn 12 href))
  || match href with
     | [] => false
     | _ :: href' => isTicketonEvent href'
     end.

(** [parts.join(sep)]. *)
Fixpoint join (sep : jsstring) (parts : list jsstring) : jsstring :=
  match parts with
  | [] => []
  | [p] => p
  | p :: parts' => p ++ sep ++ join sep parts'
  end.

(** The string digested for a detail page. *)
Definition fpString (fp : Fields) : jsstring :=
  join (js " || ")
    (List.filter truthy_str [title fp; dates fp; buttons fp; prices fp])
  ++ js " || " ++ body fp.

(** The literals of the notification text. *)
Definition MSG_HEADER : jsstring :=
  [55357; 56415; 32; 1054; 1073; 1085; 1072; 1088; 1091; 1078; 1077; 1085;
   1086; 32; 1089; 1086; 1073; 1099; 1090; 1080; 1077; 32; 1087; 1086; 32;
   1082; 1083; 1102; 1095; 1077; 1074; 1099; 1084; 32; 1089; 1083; 1086;
   1074; 1072; 1084; 33]%N.
Definition MSG_LINK : jsstring := [55357; 56599; 32]%N.
Definition MSG_TEXT : jsstring := [55358; 56830; 32]%N.
Definition MSG_CHANGED : jsstring :=
  [9851; 65039; 32; 1053; 1072; 32; 1079; 1085; 1072; 1082; 1086; 1084;
   1086; 1081; 32; 1089; 1090; 1088; 1072; 1085; 1080; 1094; 1077; 32;
   1079; 1072; 1084; 1077; 1095; 1077; 1085; 1099; 32; 1080; 1079; 1084;
   1077; 1085; 1077; 1085; 1080; 1103; 46]%N.
Definition MSG_SOURCE : jsstring :=
  [1048; 1089; 1090; 1086; 1095; 1085; 1080; 1082; 58; 32]%N.

(** [[...].filter(Boolean).join('\n')] over lines that may be [null]. *)
Definition joinLines (lines : list (option jsstring)) : jsstring :=
  join [10%N]
    (List.filter truthy_str
       (flat_map (fun l => match l with Some x => [x] | None => [] end) lines)).

Definition composeMessage (link text : jsstring) (changed : bool)
    (target : jsstring) : jsstring :=
  joinLines
    [ Some MSG_HEADER;
      Some (MSG_LINK ++ link);
      (if truthy_str text then Some (MSG_TEXT ++ text) else None);
      (if changed then Some MSG_CHANGED else None);
      Some [];
      Some (MSG_SOURCE ++ target) ].

(** [Boolean(lastHash && lastHash !== contentHash)]. *)
Definition contentChanged (lastHashOfNorm : option jsstring)
    (contentHash : jsstring) : bool :=
  match lastHashOfNorm with
  | Some previous => truthy_str previous && negb (jsstring_eqb previous contentHash)
  | None => false
  end.

(** ** The scan: [gotoWithRetry], [fingerprintEventPage],
    [extractCandidates] and [checkOnce] *)

Section Scan.

Variable E : Engine.
Variable P : Platform.
Variable C : Config.

(** What a run can change: the world, the [state] object of [checkOnce]
    and the console. *)
Record Store := mkStore {
  world : World P;
  st : State;
  console : list LogLine
}.

(** A computation returns or throws, and leaves a store either way. *)
Definition M (A : Type) : Type := Store -> result A * Store.

Definition ret {A} (a : A) : M A := fun s => (Ok a, s).

Definition throw {A} (e : jsstring) : M A := fun s => (Throw e, s).

Definition bind {A B} (m : M A) (k : A -> M B) : M B :=
  fun s =>
    match m s with
    | (Ok a, s') => k a s'
    | (Throw e, s') => (Throw e, s')
    end.

Notation "x <- m ;; k" := (bind m (fun x => k))
  (at level 100, m at next level, right associativity).
Notation "m ;;; k" := (bind m (fun _ => k))
  (at level 100, right associativity).

(** [try { body } catch (e) { handler }]. *)
Definition try_catch {A} (body : M A) (handler : jsstring -> M A) : M A :=
  fun s =>
    match body s with
    | (Ok a, s') => (Ok a, s')
    | (Throw e, s') => handler e s'
    end.

(** [try { body } finally { final }]: an error of [final] replaces the
    outcome of [body]. *)
Definition finally {A} (body : M A) (final : M unit) : M A :=
  fun s =>
    match body s with
    | (r, s') =>
        match final s' with
        | (Ok _, s'') => (r, s'')
        | (Throw e, s'') => (Throw e, s'')
        end
    end.

(** A call of the platform. *)
Definition call {A} (f : World P -> result A * World P) : M A :=
  fun s =>
    match f (world s) with
    | (r, w) => (r, mkStore w (st s) (console s))
    end.

Definition delay (ms : Z) : M unit :=
  fun s => (Ok tt, mkStore (sleep P ms (world s)) (st s) (console s)).

Definition now : M Z :=
  fun s =>
    match Date_now P (world s) with
    | (t, w) => (Ok t, mkStore w (st s) (console s))
    end.

Definition currentUrl : M jsstring := fun s => (Ok (page_url P (world s)), s).

Definition log (line : LogLine) : M unit :=
  fun s => (Ok tt, mkStore (world s) (st s) (console s ++ [line])).

Definition getState : M State := fun s => (Ok (st s), s).

Definition setState (state : State) : M unit :=
  fun s => (Ok tt, mkStore (world s) state (console s)).

(** [promise.catch(() => { })]. *)
Definition ignoreErrors (m : M unit) : M unit :=
  try_catch m (fun _ => ret tt).

(** [loadState()]: what the file parses to, whatever its shape, or a
    fresh empty state when reading or parsing throws. *)
Definition loadState : M Parsed :=
  fun s =>
    match readStateFile P (world s) with
    | (Some parsed, w) => (Ok parsed, mkStore w (st s) (console s))
    | (None, w) =>
        (Ok (StateObject emptyState), mkStore w (st s) (console s))
    end.

Definition saveState (state : State) : M unit := call (writeStateFile P state).

(** [gotoWithRetry(page, target)]: [attempts] rounds, the last error is
    thrown when all of them fail. *)
Fixpoint gotoLoop (page : Page) (target : jsstring) (attempts : nat)
    (lastErr : jsstring) : M unit :=
  match attempts with
  | O => throw lastErr
  | S attempts' =>
      try_catch (call (page_goto P page target))
        (fun e => gotoLoop page target attempts' e)
  end.

Definition gotoWithRetry (page : Page) (target : jsstring) : M unit :=
  gotoLoop page target 2 [].

(** The [try] block of [fingerprintEventPage]. *)
Definition fingerprintTry (href : jsstring) : M jsstring :=
  gotoWithRetry DetailPage href ;;;
  ignoreErrors (call (page_waitForLoadState P DetailPage)) ;;;
  fp <- call (page_fields P) ;;
  ret (hash (fpString fp)).

(** [try { ... } catch { return hash(href); }]. *)
Definition fingerprintGuarded (href : jsstring) : M jsstring :=
  try_catch (fingerprintTry href) (fun _ => ret (hash href)).

Definition fingerprintEventPage (href : jsstring) : M jsstring :=
  call (context_newPage P DetailPage) ;;;
  finally (fingerprintGuarded href) (call (page_close P)).

Definition rules : list (list jsstring) := RULES (lowerCase E) (KEYWORDS C).

Definition isCandidate (a : Anchor) : bool :=
  truthy_str (a_href a)
  && (isTicketonEvent (a_href a)
      && (matchesKeywords (lowerCase E) rules (a_text a)
          || matchesKeywords (lowerCase E) rules (a_href a))).

Definition extractCandidates : M (list Anchor) :=
  anchors <- call (page_anchors P) ;;
  ret (List.filter isCandidate anchors).

(** De-duplication by normalized href within one page. *)
Fixpoint dedupe (pageUrl : jsstring) (seen : gset jsstring)
    (found : list Anchor) : list Item :=
  match found with
  | [] => []
  | item :: found' =>
      let norm :=
        normalizeHref (parseHost E)
          (if truthy_str (a_href item) then a_href item else pageUrl) in
      if bool_decide (norm ∈ seen) then dedupe pageUrl seen found'
      else mkItem (a_href item) (a_text item) norm
           :: dedupe pageUrl ({[norm]} ∪ seen) found'
  end.

(** Lines 199-213 of the loop body: the dedup key and the [changed]
    flag of an item. *)
Definition resolveKey (item : Item) : M (jsstring * bool) :=
  let isEvent := isTicketonEvent (item_href item) in
  let norm := normHref item in
  if isEvent && DEEP_CHECK C then
    contentHash <- fingerprintEventPage (item_href item) ;;
    state <- getState ;;
    let changed := contentChanged (lastHash state !! norm) contentHash in
    setState (recordHash state norm contentHash) ;;;
    ret (norm ++ js "|" ++ contentHash, changed)
  else ret (norm, false).

(** Lines 218-230: compose, send, record, save, pause. *)
Definition notify (target : jsstring) (item : Item) (key : jsstring)
    (changed : bool) : M unit :=
  url <- currentUrl ;;
  let link := if truthy_str (item_href item) then item_href item else url in
  let msg := composeMessage link (item_text item) changed target in
  call (bot_sendMessage P (CHAT_ID C) msg) ;;;
  t <- now ;;
  state <- getState ;;
  setState (recordNotified state key t) ;;;
  state' <- getState ;;
  saveState state' ;;;
  delay 900.

(** One round of [for (const item of unique)]. *)
Definition processItem (target : jsstring) (item : Item) : M unit :=
  keyed <- resolveKey item ;;
  state <- getState ;;
  if skipCandidate (FORCE_NOTIFY C) state keyed.1 then ret tt
  else notify target item keyed.1 keyed.2.

Fixpoint processItems (target : jsstring) (unique : list Item) : M unit :=
  match unique with
  | [] => ret tt
  | item :: unique' => processItem target item ;;; processItems target unique'
  end.

(** The [try] block of one target. *)
Definition scanTarget (target : jsstring) : M unit :=
  log (LogWatch target) ;;;
  gotoWithRetry ListingPage target ;;;
  ignoreErrors (call (page_waitForLoadState P ListingPage)) ;;;
  delay 1000 ;;;
  bodyText <- call (page_bodyText P) ;;
  (if waitingRoom E bodyText then log LogWaitingRoom else ret tt) ;;;
  found <- extractCandidates ;;
  log (LogCandidates (length found)) ;;;
  url <- currentUrl ;;
  let unique := dedupe url ∅ found in
  log (LogUnique (length unique)) ;;;
  processItems target unique.

(** [try { ... } catch (err) { console.error(...) }] for one target. *)
Definition guardedTarget (target : jsstring) : M unit :=
  try_catch (scanTarget target) (fun e => log (LogError target e)).

Fixpoint forEachTarget (targets : list jsstring) : M unit :=
  match targets with
  | [] => ret tt
  | target :: targets' => guardedTarget target ;;; forEachTarget targets'
  end.

(** [prune(state)] on what [loadState] returned: the clock is read for
    the cutoff (line 52), then the entries of [state.notified] are
    enumerated (line 53), which throws when there is no such object. *)
Definition pruneLoaded (loaded : Parsed) : M State :=
  t <- now ;;
  match loaded with
  | StateObject state => ret (prune (NOTIFY_TTL_HOURS C) t state)
  | Unprunable e => throw e
  end.

Definition checkOnce : M unit :=
  loaded <- loadState ;;
  pruned <- pruneLoaded loaded ;;
  setState pruned ;;;
  state <- getState ;;
  saveState state ;;;
  call (browser_newContext P) ;;;
  call (context_newPage P ListingPage) ;;;
  forEachTarget (URLS C) ;;;
  call (context_close P).

End Scan.

Arguments world {P} s.
Arguments st {P} s.
Arguments console {P} s.
Arguments mkStore {P} world st console.

(** ** Instances used in examples *)

(** A case mapping on single code units for Basic Latin, Latin-1 and the
    Cyrillic capitals; every other code unit is left as it is. *)
Definition lowerUnit (c : N) : N :=
  (if (65 <=? c) && (c <=? 90) then c + 32
   else if (192 <=? c) && (c <=? 222) && negb (c =? 215) then c + 32
   else if (1040 <=? c) && (c <=? 1071) then c + 32
   else if (1024 <=? c) && (c <=? 1039) then c + 80
   else c)%N.

Definition simpleLowerCase (s : jsstring) : jsstring := map lowerUnit s.

Definition exampleEngine : Engine :=
  mkEngine simpleLowerCase letterHostParser
    (fun text =>
       let t := simpleLowerCase text in
       includes t [1086; 1078; 1080; 1076; 1072; 1085; 1080; 1103]%N
       || includes t [1086; 1095; 1077; 1088; 1077; 1076; 1100]%N).

(** A world for examples: the messages handed to the messenger (also the
    undelivered ones), a clock, and the state file. *)
Record TestWorld := mkTestWorld {
  outbox : list jsstring;
  clock : Z;
  stateFile : option State
}.

Definition testAnchors : list Anchor :=
  [ mkAnchor (js "https://ticketon.kz/almaty/event/kairat-real?utm=1")
      (js "Kairat - Real");
    mkAnchor (js "https://ticketon.kz/almaty/event/real-madrid-tour")
      (js "Real Madrid") ].

Definition testFields : Fields :=
  mkFields (js "Kairat - Real") (js "30 09") (js "Buy") [] (js "Kairat - Real 30 09 Buy").

(** [firstSendFails]: the first delivery is rejected.  [detailPageOpens]:
    [context.newPage()] succeeds for detail pages.  [detailPageLoads]:
    [page.goto] succeeds on detail pages. *)
Definition testPlatform (firstSendFails detailPageOpens detailPageLoads : bool)
  : Platform :=
  {| World := TestWorld;
     Date_now := fun w =>
       (clock w, mkTestWorld (outbox w) (clock w + 1) (stateFile w));
     readStateFile := fun w => (option_map StateObject (stateFile w), w);
     writeStateFile := fun state w =>
       (Ok tt, mkTestWorld (outbox w) (clock w) (Some state));
     sleep := fun ms w => mkTestWorld (outbox w) (clock w + ms) (stateFile w);
     browser_newContext := fun w => (Ok tt, w);
     context_newPage := fun page w =>
       match page with
       | ListingPage => (Ok tt, w)
       | DetailPage =>
           if detailPageOpens then (Ok tt, w)
           else (Throw (js "Target closed"), w)
       end;
     context_close := fun w => (Ok tt, w);
     page_goto := fun page _ w =>
       match page with
       | ListingPage => (Ok tt, w)
       | DetailPage =>
           if detailPageLoads then (Ok tt, w)
           else (Throw (js "net::ERR_TIMED_OUT"), w)
       end;
     page_waitForLoadState := fun _ w => (Ok tt, w);
     page_bodyText := fun w => (Ok [], w);
     page_anchors := fun w => (Ok testAnchors, w);
     page_url := fun _ => js "https://ticketon.kz/almaty";
     page_fields := fun w => (Ok testFields, w);
     page_close := fun w => (Ok tt, w);
     bot_sendMessage := fun _ msg w =>
       (match outbox w with
        | [] => if firstSendFails then Throw (js "ETELEGRAM") else Ok tt
        | _ :: _ => Ok tt
        end,
        mkTestWorld (outbox w ++ [msg]) (clock w) (stateFile w)) |}.

Definition testConfig (deepCheck : bool) : Config :=
  mkConfig (js "42") [js "https://ticketon.kz/almaty"] None false 48 deepCheck.

Definition testStore (P : Platform) (w : World P) (state : State) : Store P :=
  mkStore w state [].

Definition testWorld0 : TestWorld := mkTestWorld [] 1700000000000 None.

Definition testItem : Item :=
  mkItem (js "https://ticketon.kz/almaty/event/kairat-real?utm=1")
    (js "Kairat - Real") (js "https://ticketon.kz/almaty/event/kairat-real").

(** ** Predicates of the properties *)

(** The targets announced on the console by [[watch] ...] lines. *)
Definition watched (lines : list LogLine) : list jsstring :=
  flat_map (fun line => match line with LogWatch t => [t] | _ => [] end) lines.

(** A computation that only appends to the console, and no [[watch]]
    line. *)
Definition quiet {P : Platform} {A : Type} (m : M P A) : Prop :=
  forall s r s', m s = (r, s') ->
    exists extra, console s' = console s ++ extra /\ watched extra = [].

(** A computation that leaves the [state] object and the console alone. *)
Definition keepsState {P : Platform} {A : Type} (m : M P A) : Prop :=
  forall s r s', m s = (r, s') -> st s' = st s /\ console s' = console s.

(** A printable ASCII code point. *)
Definition urlChar (c : N) : bool := ((32 <? c) && (c <? 127))%N.

(** A code point that the path state copies into a segment as it is. *)
Definition pathCharOK (special : bool) (c : N) : bool :=
  negb (inPathSet c) && negb (isPathSeparator special c).

(** No ":" outside brackets, and every bracket closed. *)
Fixpoint colonFree (insideBrackets : bool) (h : list N) : bool :=
  match h with
  | [] => negb insideBrackets
  | c :: h' =>
      if N.eqb c c_colon && negb insideBrackets then false
      else colonFree
             (if N.eqb c 91 then true
              else if N.eqb c 93 then false else insideBrackets) h'
  end.

(** The shape of a serialized host of a special URL: not empty, printable
    ASCII, none of the code points that end or split an authority. *)
Definition hostShape (h : jsstring) : bool :=
  truthy_str h
  && forallb (fun c => urlChar c && negb (isAuthorityEnd true c)
                       && negb (N.eqb c c_at)) h
  && colonFree false h.

(** A serialized host that the host parser reads back as itself. *)
Definition hostStable (hostParser : bool -> list N -> option jsstring)
    (h : jsstring) : Prop :=
  hostParser false h = Some h /\ hostShape h = true.

(** A segment made of code points that the path state copies. *)
Definition segmentOK (special : bool) (segment : jsstring) : Prop :=
  Forall (fun c => pathCharOK special c = true) segment.

(** A segment that is neither "." nor ".." in any spelling. *)
Definition notDot (segment : jsstring) : Prop :=
  isSingleDot segment = false /\ isDoubleDot segment = false.

(** A string of printable ASCII code points. *)
Definition printable (s : jsstring) : Prop :=
  Forall (fun c => urlChar c = true) s.

(** A URL whose path is a list of clean segments without dot segments. *)
Definition listPathOK (special : bool) (u : URLRecord) : Prop :=
  exists segments,
    path u = ListPath segments
    /\ Forall (segmentOK special) segments
    /\ Forall notDot segments.


(** A printable string without "?" and "#". *)
Definition frontOK (x : jsstring) : Prop :=
  Forall (fun c => urlChar c = true /\ isPathEnd c = false) x.

(** The same as a test: a printable href that has neither a query nor a
    fragment. *)
Definition beforeQuery (x : jsstring) : Prop :=
  forallb (fun c => urlChar c && negb (isPathEnd c)) x = true.

(** ** The configuration lists and further predicates *)

(** The default of [URLS] (line 15). *)
Definition DEFAULT_URLS : jsstring :=
  js "https://ticketon.kz/sports/futbolniy-klub-kairat,https://ticketon.kz/almaty,https://ticketon.kz/sports".

(** The constant [URLS] of lines 15-18 for a value of the environment
    variable; [Config] carries the resulting list. *)
Definition envURLS (value : option jsstring) : list jsstring :=
  List.filter truthy_str (map trim (split 44 (envOr value DEFAULT_URLS))).

(** An entry as the comma lists keep it: not empty, trimmed, no comma. *)
Definition listEntry (entry : jsstring) : Prop :=
  entry <> [] /\ trim entry = entry /\ ~ In 44%N entry.

(** A string of commas and white space. *)
Definition blank (value : jsstring) : Prop :=
  Forall (fun c => isWhiteSpace c = true \/ c = 44%N) value.

(** The polynomial in 31 whose coefficients are the code units. *)
Fixpoint polyValue (str : jsstring) : Z :=
  match str with
  | [] => 0
  | chr :: rest => Z.of_N chr * 31 ^ Z.of_nat (length rest) + polyValue rest
  end.

(** A decimal digit or the minus sign. *)
Definition isNumeralChar (c : N) : bool := isAsciiDigit c || N.eqb c 45.

(** A non-empty string of digits and minus signs. *)
Definition isNumeral (v : jsstring) : bool :=
  truthy_str v && forallb isNumeralChar v.

(** Every remembered fingerprint is a numeral. *)
Definition numeralHashes (state : State) : Prop :=
  map_Forall (fun _ v => isNumeral v = true) (lastHash state).

(** The language of [/ticketon\.kz\/.+\/event\//]: some text, the domain
    and a slash, at least one code unit and no line terminator, then
    "/event/", then some text. *)
Definition eventShaped (href : jsstring) : Prop :=
  exists before middle after,
    href = before ++ js "ticketon.kz/" ++ middle ++ js "/event/" ++ after
    /\ middle <> []
    /\ Forall (fun c => isLineTerminator c = false) middle.

(** The object that line 194 pushes for an anchor. *)
Definition toItem (E : Engine) (pageUrl : jsstring) (a : Anchor) : Item :=
  mkItem (a_href a) (a_text a)
    (normalizeHref (parseHost E)
       (if truthy_str (a_href a) then a_href a else pageUrl)).

(** The link of a notification, [item.href || page.url()]. *)
Definition itemLink (item : Item) (url : jsstring) : jsstring :=
  if truthy_str (item_href item) then item_href item else url.

(** The state object only gains keys. *)
Definition stateGrows (before after : State) : Prop :=
  dom (notified before) ⊆ dom (notified after)
  /\ dom (lastHash before) ⊆ dom (lastHash after).

(** A computation whose runs relate the state object before and after
    by [R]. *)
Definition follows {P : Platform} {A : Type} (R : State -> State -> Prop)
    (m : M P A) : Prop :=
  forall s r s', m s = (r, s') -> R (st s) (st s').

(** The example platform with a site that cannot be reached. *)
Definition offlinePlatform : Platform :=
  let P := testPlatform false true true in
  mkPlatform TestWorld (Date_now P) (readStateFile P) (writeStateFile P)
    (sleep P) (browser_newContext P) (context_newPage P) (context_close P)
    (fun _ _ w => (Throw (js "net::ERR_NAME_NOT_RESOLVED"), w))
    (page_waitForLoadState P) (page_bodyText P) (page_anchors P) (page_url P)
    (page_fields P) (page_close P) (bot_sendMessage P).

(** The state that [checkOnce] prunes, when the state file gives one:
    the parsed object, or the empty state when the file cannot be read
    or parsed. *)
Definition loadedState (file : option Parsed) : option State :=
  match file with
  | Some (StateObject state) => Some state
  | Some (Unprunable _) => None
  | None => Some emptyState
  end.

(** The example platform with a state file that holds [{}]. *)
Definition emptyObjectPlatform : Platform :=
  let P := testPlatform false true true in
  mkPlatform TestWorld (Date_now P)
    (fun w =>
       (Some (Unprunable (js "Cannot convert undefined or null to object")),
        w))
    (writeStateFile P)
    (sleep P) (browser_newContext P) (context_newPage P) (context_close P)
    (page_goto P)
    (page_waitForLoadState P) (page_bodyText P) (page_anchors P) (page_url P)
    (page_fields P) (page_close P) (bot_sendMessage P).

(** An href that is [x] or [x] followed by a query or a fragment. *)
Definition variantOf (x href : jsstring) : Prop :=
  href = x \/ exists c t, isPathEnd c = true /\ href = x ++ c :: t.

(** * Properties *)

(** ** Strings *)

Lemma jsstring_eqb_eq (s t : jsstring) : jsstring_eqb s t = true <-> s = t.
Proof.
  revert t. induction s as [|c s IH]; intros [|d t]; simpl; try easy.
  rewrite andb_true_iff, N.eqb_eq, IH. split.
  - intros [-> ->]. reflexivity.
  - intros [= -> ->]. split; reflexivity.
Qed.

Lemma jsstring_eqb_refl (s : jsstring) : jsstring_eqb s s = true.
Proof. apply jsstring_eqb_eq. reflexivity. Qed.

Lemma jsstring_eqb_neq (s t : jsstring) : jsstring_eqb s t = false <-> s <> t.
Proof.
  rewrite <- jsstring_eqb_eq. destruct (jsstring_eqb s t); split; congruence.
Qed.

Lemma startsWith_prefix (s tok : jsstring) :
  startsWith s tok = true <-> exists after, s = tok ++ after.
Proof.
  revert s. induction tok as [|c tok IH]; intros s; simpl.
  - split; [intros _; exists s; reflexivity | reflexivity].
  - destruct s as [|d s].
    + split; [discriminate | intros [after H]; discriminate].
    + rewrite andb_true_iff, N.eqb_eq, IH. split.
      * intros [-> [after ->]]. exists after. reflexivity.
      * intros [after [= -> ->]]. split; [reflexivity | exists after; reflexivity].
Qed.

(** [includes] decides the occurrence of [tok] as a substring. *)
Lemma includes_substring (s tok : jsstring) :
  includes s tok = true <-> exists before after, s = before ++ tok ++ after.
Proof.
  induction s as [|c s IH].
  - simpl. rewrite orb_false_r, startsWith_prefix. split.
    + intros [after H]. exists [], after. exact H.
    + intros [before [after H]]. destruct before as [|b before].
      * exists after. exact H.
      * discriminate.
  - cbn [includes]. rewrite orb_true_iff, startsWith_prefix, IH. split.
    + intros [[after H] | [before [after H]]].
      * exists [], after. exact H.
      * exists (c :: before), after. simpl. rewrite H. reflexivity.
    + intros [before [after H]]. destruct before as [|b before].
      * left. exists after. exact H.
      * right. injection H as -> H. exists before, after. exact H.
Qed.

(** ** C10: the digest *)

Lemma toInt32_range (x : Z) : - 2 ^ 31 <= toInt32 x < 2 ^ 31.
Proof.
  unfold toInt32.
  pose proof (Z.mod_pos_bound (x + 2 ^ 31) (2 ^ 32) ltac:(lia)). lia.
Qed.

Lemma toInt32_congruent (x : Z) : (toInt32 x) mod 2 ^ 32 = x mod 2 ^ 32.
Proof.
  unfold toInt32. rewrite Zminus_mod_idemp_l. f_equal. lia.
Qed.

Lemma toInt32_mod (x y : Z) :
  x mod 2 ^ 32 = y mod 2 ^ 32 -> toInt32 x = toInt32 y.
Proof.
  intros H. unfold toInt32. f_equal.
  rewrite <- (Zplus_mod_idemp_l x), <- (Zplus_mod_idemp_l y), H. reflexivity.
Qed.

(** One round of the loop multiplies by 31 and adds the code unit, modulo
    2^32. *)
Lemma hash_step_31 (h : Z) (chr : N) :
  hash_step h chr = toInt32 (31 * h + Z.of_N chr).
Proof.
  unfold hash_step. apply toInt32_mod.
  rewrite Z.shiftl_mul_pow2 by lia.
  rewrite <- Zplus_mod_idemp_l, <- Zminus_mod_idemp_l, toInt32_congruent.
  rewrite Zminus_mod_idemp_l, Zplus_mod_idemp_l.
  f_equal. lia.
Qed.

Lemma hash_loop_range (str : jsstring) (h : Z) :
  - 2 ^ 31 <= h < 2 ^ 31 -> - 2 ^ 31 <= hash_loop h str < 2 ^ 31.
Proof.
  revert h. induction str as [|chr rest IH]; intros h Hh; simpl.
  - exact Hh.
  - apply IH. unfold hash_step. apply toInt32_range.
Qed.

Lemma hash_loop_snoc (str : jsstring) (chr : N) (h : Z) :
  hash_loop h (str ++ [chr]) = hash_step (hash_loop h str) chr.
Proof.
  revert h. induction str as [|c rest IH]; intros h; simpl.
  - reflexivity.
  - apply IH.
Qed.

(** C10.  [hash] is a total function of its string argument, so equal
    strings have equal digests.  Its result is the decimal numeral of a
    signed 32-bit integer: the accumulator starts at 0, every code unit
    takes [h] to [31 * h + chr] truncated modulo 2^32, and the final [h]
    is printed by [String].  The empty string, the only falsy string, has
    the digest "0". *)
Theorem hash_decimal_int32 :
  (forall str1 str2 : jsstring, str1 = str2 -> hash str1 = hash str2)
  /\ (forall str : jsstring,
        exists h : Z, - 2 ^ 31 <= h < 2 ^ 31 /\ hash str = String_of_Z h)
  /\ (forall (str : jsstring) (chr : N),
        hash (str ++ [chr])
        = String_of_Z (toInt32 (31 * hash_loop 0 str + Z.of_N chr)))
  /\ (forall str : jsstring, truthy_str str = false -> hash str = js "0")
  /\ hash [] = js "0".
Proof.
  repeat split.
  - intros str1 str2 ->. reflexivity.
  - intros str. destruct str as [|chr rest].
    + exists 0. split; [lia | reflexivity].
    + exists (hash_loop 0 (chr :: rest)). split.
      * apply hash_loop_range. lia.
      * reflexivity.
  - intros str chr. unfold hash.
    replace (truthy_str (str ++ [chr])) with true by (destruct str; reflexivity).
    cbn [negb]. rewrite hash_loop_snoc, hash_step_31. reflexivity.
  - intros str H. unfold hash. rewrite H. reflexivity.
Qed.

Lemma hash_decimal_int32_witness :
  hash (js "abc") = hash (js "abc")
  /\ hash (js "abc") = js "96354"
  /\ hash [] = js "0".
Proof.
  destruct hash_decimal_int32 as (Hdet & _ & _ & Hfalsy & _).
  split; [apply (Hdet (js "abc") (js "abc")); reflexivity |].
  split; [vm_compute; reflexivity |].
  apply (Hfalsy []). reflexivity.
Defined.

(** ** C6: pruning *)

Lemma prune_entries_lookup (cutoff : Z) (entries : list (jsstring * Z))
    (m : gmap jsstring Z) (key : jsstring) :
  fold_left (prune_entry cutoff) entries m !! key
  = if existsb (fun entry =>
                  jsstring_eqb entry.1 key && (entry.2 <? cutoff)) entries
    then None else m !! key.
Proof.
  revert m. induction entries as [|[k ts] entries IH]; intros m; simpl.
  - reflexivity.
  - rewrite IH. unfold prune_entry. simpl.
    destruct (existsb _ entries).
    + rewrite orb_true_r. reflexivity.
    + rewrite orb_false_r. destruct (ts <? cutoff).
      * rewrite andb_true_r. destruct (jsstring_eqb k key) eqn:Hk.
        -- apply jsstring_eqb_eq in Hk. subst. apply lookup_delete_eq.
        -- apply jsstring_eqb_neq in Hk. apply lookup_delete_ne. exact Hk.
      * rewrite andb_false_r. reflexivity.
Qed.

Lemma prune_notified_lookup (ttl now : Z) (state : State) (key : jsstring) :
  notified (prune ttl now state) !! key
  = match notified state !! key with
    | Some ts => if ts <? prune_cutoff ttl now then None else Some ts
    | None => None
    end.
Proof.
  unfold prune. cbn [notified]. rewrite prune_entries_lookup.
  set (cutoff := prune_cutoff ttl now).
  destruct (existsb _ _) eqn:Hex.
  - apply existsb_exists in Hex as [[k ts] [Hin Hk]]. simpl in Hk.
    apply andb_true_iff in Hk as [Hk Hts].
    apply jsstring_eqb_eq in Hk. subst k.
    apply list_elem_of_In, elem_of_map_to_list in Hin.
    rewrite Hin, Hts. reflexivity.
  - destruct (notified state !! key) as [ts|] eqn:Hkey; [|reflexivity].
    destruct (ts <? cutoff) eqn:Hts; [|reflexivity].
    exfalso. apply not_true_iff_false in Hex. apply Hex.
    apply existsb_exists. exists (key, ts). split.
    + apply list_elem_of_In, elem_of_map_to_list. exact Hkey.
    + simpl. rewrite jsstring_eqb_refl, Hts. reflexivity.
Qed.

(** C6.  [prune] leaves [lastHash] as it is, and the pruned [notified]
    map holds exactly the entries of the old one whose timestamp is not
    below the cutoff [now - NOTIFY_TTL_HOURS * 3600 * 1000], each with
    the timestamp it had. *)
Theorem prune_only_expired_notified :
  forall (NOTIFY_TTL_HOURS now : Z) (state : State),
    lastHash (prune NOTIFY_TTL_HOURS now state) = lastHash state
    /\ forall (key : jsstring) (ts : Z),
         notified (prune NOTIFY_TTL_HOURS now state) !! key = Some ts
         <-> (notified state !! key = Some ts
              /\ ~ ts < now - NOTIFY_TTL_HOURS * 3600 * 1000).
Proof.
  intros ttl now state. split; [reflexivity |].
  intros key ts. rewrite prune_notified_lookup. unfold prune_cutoff.
  destruct (notified state !! key) as [ts'|].
  - destruct (Z.ltb_spec ts' (now - ttl * 3600 * 1000)).
    + split; [discriminate | intros [[= ->] Hn]; contradiction].
    + split.
      * intros [= ->]. split; [reflexivity | lia].
      * intros [H' _]. exact H'.
  - split; [discriminate | intros [? _]; discriminate].
Qed.

(** ** C1: the notify decision *)

(** The guard on every input.  It is a function of the state, the key
    and the force flag, and it agrees with C1 on every key that is absent
    from [notified] or recorded at a time other than 0, and whenever the
    force flag is set; the expression that decides it reads the recorded
    time as a condition. *)
Lemma notifyDecision_spec :
  (forall (FORCE_NOTIFY : bool) (state : State) (key : jsstring),
      notifyDecision FORCE_NOTIFY state key
      = FORCE_NOTIFY
        || match notified state !! key with
           | Some ts => ts =? 0
           | None => true
           end)
  /\ (forall (state : State) (key : jsstring) (ts : Z),
        notified state !! key = Some ts -> ts <> 0 ->
        notifyDecision false state key = false)
  /\ (forall (FORCE_NOTIFY : bool) (state : State) (key : jsstring),
        notified state !! key = None ->
        notifyDecision FORCE_NOTIFY state key = true)
  /\ (forall (state : State) (key : jsstring),
        notifyDecision true state key = true)
  /\ (forall (state : State) (key : jsstring) (t : Z),
        notified state !! key = None -> t <> 0 ->
        notifyDecision false state key = true
        /\ notifyDecision false (recordNotified state key t) key = false).
Proof.
  unfold notifyDecision, skipCandidate, notified_truthy, truthy_num.
  repeat split.
  - intros force state key.
    destruct (notified state !! key) as [ts|]; destruct force;
      try reflexivity; destruct (ts =? 0); reflexivity.
  - intros state key ts -> Hts. apply Z.eqb_neq in Hts. rewrite Hts. reflexivity.
  - intros force state key ->. reflexivity.
  - intros state key. rewrite andb_false_r. reflexivity.
  - rewrite H. reflexivity.
  - cbn [recordNotified notified]. rewrite lookup_insert_eq.
    apply Z.eqb_neq in H0. rewrite H0. reflexivity.
Qed.

Lemma notifyDecision_spec_witness :
  let state := mkState ∅ ∅ in
  notifyDecision false state (js "k") = true
  /\ notifyDecision false (recordNotified state (js "k") 1700000000000) (js "k")
     = false
  /\ notifyDecision false (recordNotified state (js "k") 1700000000000) (js "q")
     = true.
Proof.
  destruct notifyDecision_spec as (_ & Hpresent & Habsent & _ & Htwice).
  cbv zeta.
  destruct (Htwice (mkState ∅ ∅) (js "k") 1700000000000) as [H1 H2];
    [reflexivity | lia |].
  split; [exact H1 |]. split.
  - apply (Hpresent _ (js "k") 1700000000000); [vm_compute; reflexivity | lia].
  - apply Habsent. vm_compute. reflexivity.
Defined.

(** C1 fails on the code, by a slip of the guard on line 216: the comment
    above it says that a key that was already sent is not sent again, and
    the guard tests the recorded time for truthiness instead of the key
    for presence.  Failing input: [state.json] records the first link of
    the page at time 0 and the second at 1699999999999,
    [NOTIFY_TTL_HOURS] is 1000000, [FORCE_NOTIFY] and [DEEP_CHECK] are
    off, and the clock reads 1700000000000.  Both entries outlive
    [prune], so both keys are present in [notified] at the guard; the
    second link is skipped, as C1 says, and the first is announced. *)
Theorem notifyDecision_announces_key_recorded_at_zero :
  let first := js "https://ticketon.kz/almaty/event/kairat-real" in
  let second := js "https://ticketon.kz/almaty/event/real-madrid-tour" in
  let state := mkState (<[second := 1699999999999]> {[ first := 0 ]}) ∅ in
  let pruned := prune 1000000 1700000000000 state in
  let P := testPlatform false true true in
  let C :=
    mkConfig (js "42") [js "https://ticketon.kz/almaty"] None false 1000000
      false in
  let run :=
    checkOnce exampleEngine P C
      (testStore P (mkTestWorld [] 1700000000000 (Some state)) emptyState) in
  notified pruned !! first = Some 0
  /\ notified pruned !! second = Some 1699999999999
  /\ notifyDecision false pruned second = false
  /\ notifyDecision false pruned first = true
  /\ outbox (world run.2)
     = [composeMessage
          (js "https://ticketon.kz/almaty/event/kairat-real?utm=1")
          (js "Kairat - Real") false (js "https://ticketon.kz/almaty")].
Proof. cbv zeta. repeat split; vm_compute; reflexivity. Qed.

(** ** C4 and C5: keyword rules *)

Lemma truthy_str_nonempty (s : jsstring) : truthy_str s = true <-> s <> [].
Proof. destruct s; simpl; split; congruence. Qed.

Lemma text_or_empty (text : jsstring) :
  (if truthy_str text then text else []) = text.
Proof. destruct text; reflexivity. Qed.

Lemma dropWhile_dropWhile (p : N -> bool) (s : jsstring) :
  dropWhile p (dropWhile p s) = dropWhile p s.
Proof.
  induction s as [|c s IH]; simpl; [reflexivity |].
  destruct (p c) eqn:Hc; [exact IH |]. simpl. rewrite Hc. reflexivity.
Qed.

Lemma dropWhile_head (p : N -> bool) (s : jsstring) (c : N) (rest : jsstring) :
  dropWhile p s = c :: rest -> p c = false.
Proof.
  induction s as [|d s IH]; simpl; [discriminate |].
  destruct (p d) eqn:Hd; [exact IH |]. intros [= -> ->]. exact Hd.
Qed.

Lemma dropWhile_split (p : N -> bool) (s : jsstring) :
  exists dropped, s = dropped ++ dropWhile p s.
Proof.
  induction s as [|d s [dropped IH]]; simpl.
  - exists []. reflexivity.
  - destruct (p d).
    + exists (d :: dropped). simpl. f_equal. exact IH.
    + exists []. reflexivity.
Qed.

(** Trimming a trimmed string changes nothing. *)
Lemma trim_trim (s : jsstring) : trim (trim s) = trim s.
Proof.
  unfold trim, trimEnd, trimStart.
  set (t := dropWhile isWhiteSpace s).
  set (u := dropWhile isWhiteSpace (rev t)).
  assert (Hfront : dropWhile isWhiteSpace (rev u) = rev u).
  { destruct (rev u) as [|x xs] eqn:Hu; [reflexivity |].
    destruct (dropWhile_split isWhiteSpace (rev t)) as [dropped Hd].
    fold u in Hd. apply (f_equal (@rev N)) in Hd.
    rewrite rev_involutive, rev_app_distr, Hu in Hd. simpl in Hd.
    simpl. rewrite (dropWhile_head isWhiteSpace s x (xs ++ rev dropped)).
    - reflexivity.
    - exact Hd. }
  rewrite Hfront, rev_involutive. unfold u.
  rewrite dropWhile_dropWhile. reflexivity.
Qed.

Lemma parseRule_tokens (toLowerCase : jsstring -> jsstring)
    (rule tok : jsstring) :
  In tok (parseRule toLowerCase rule) -> tok <> [] /\ trim tok = tok.
Proof.
  unfold parseRule. intros H. apply filter_In in H as [H Htruthy].
  apply in_map_iff in H as [raw [<- _]]. split.
  - apply truthy_str_nonempty. exact Htruthy.
  - apply trim_trim.
Qed.

(** The part of C4 that the code keeps: every token of every parsed rule
    is trimmed and not empty. *)
Lemma RULES_tokens_trimmed_nonempty (toLowerCase : jsstring -> jsstring)
    (KEYWORDS : option jsstring) (tokens : list jsstring) (tok : jsstring) :
  In tokens (RULES toLowerCase KEYWORDS) -> In tok tokens ->
  tok <> [] /\ trim tok = tok.
Proof.
  unfold RULES. intros H Htok. apply in_map_iff in H as [rule [<- _]].
  eapply parseRule_tokens. exact Htok.
Qed.

(** C4 fails on the code.  With [KEYWORDS] set to "Kairat&Real, &" the
    second rule is not empty as a string, so it passes the filter of
    [RAW_RULES], and it has no token, so [RULES] ends with an empty token
    list; that rule is satisfied by every text. *)
Theorem RULES_keeps_rule_without_tokens :
  RULES simpleLowerCase (Some (js "Kairat&Real, &"))
  = [[js "kairat"; js "real"]; []]
  /\ forall text : jsstring,
       matchesKeywords simpleLowerCase
         (RULES simpleLowerCase (Some (js "Kairat&Real, &"))) text = true.
Proof.
  assert (H : RULES simpleLowerCase (Some (js "Kairat&Real, &"))
              = [[js "kairat"; js "real"]; []])
    by (vm_compute; reflexivity).
  split; [exact H |].
  intros text. rewrite H. unfold matchesKeywords. cbn [existsb forallb].
  apply orb_true_r.
Qed.

(** C5.  [matchesKeywords] is true exactly when some rule of the set has
    all its tokens occurring in the lower-cased text.  For the rules
    "a&b" and "c": a text whose lower case contains "a" and "b" matches;
    one that contains neither "b" nor "c" does not, whether or not it
    contains "a"; one that contains "c" matches. *)
Theorem matchesKeywords_or_of_ands :
  forall (toLowerCase : jsstring -> jsstring),
    (forall (rules : list (list jsstring)) (text : jsstring),
        matchesKeywords toLowerCase rules text = true
        <-> exists tokens : list jsstring,
              In tokens rules
              /\ forall tok, In tok tokens -> occursIn tok (toLowerCase text))
    /\ (toLowerCase (js "a&b") = js "a&b" -> toLowerCase (js "c") = js "c" ->
        let rules := map (parseRule toLowerCase) [js "a&b"; js "c"] in
        forall text : jsstring,
          (occursIn (js "a") (toLowerCase text) ->
           occursIn (js "b") (toLowerCase text) ->
           matchesKeywords toLowerCase rules text = true)
          /\ (~ occursIn (js "b") (toLowerCase text) ->
              ~ occursIn (js "c") (toLowerCase text) ->
              matchesKeywords toLowerCase rules text = false)
          /\ (occursIn (js "c") (toLowerCase text) ->
              matchesKeywords toLowerCase rules text = true)).
Proof.
  intros toLowerCase.
  assert (Hiff : forall rules text,
             matchesKeywords toLowerCase rules text = true
             <-> exists tokens : list jsstring,
                   In tokens rules
                   /\ forall tok, In tok tokens -> occursIn tok (toLowerCase text)).
  { intros rules text. unfold matchesKeywords. rewrite text_or_empty.
    rewrite existsb_exists. split.
    - intros [tokens [Hin Hall]]. exists tokens. split; [exact Hin |].
      intros tok Htok. rewrite forallb_forall in Hall.
      apply includes_substring, Hall, Htok.
    - intros [tokens [Hin Hall]]. exists tokens. split; [exact Hin |].
      apply forallb_forall. intros tok Htok.
      apply includes_substring, Hall, Htok. }
  split; [exact Hiff |].
  intros Hab Hc rules text.
  assert (Hrules : rules = [[js "a"; js "b"]; [js "c"]]).
  { unfold rules, parseRule. cbn [map]. rewrite Hab, Hc.
    vm_compute. reflexivity. }
  rewrite Hrules. repeat split.
  - intros Ha Hb. apply Hiff. exists [js "a"; js "b"]. split; [left; reflexivity |].
    intros tok [<- | [<- | []]]; assumption.
  - intros Hb Hc'. apply not_true_iff_false. intros Hm.
    apply Hiff in Hm as [tokens [[<- | [<- | []]] Hall]].
    + apply Hb, Hall. right. left. reflexivity.
    + apply Hc', Hall. left. reflexivity.
  - intros Hc'. apply Hiff. exists [js "c"]. split; [right; left; reflexivity |].
    intros tok [<- | []]. exact Hc'.
Qed.

Lemma matchesKeywords_or_of_ands_witness :
  let rules := map (parseRule simpleLowerCase) [js "a&b"; js "c"] in
  matchesKeywords simpleLowerCase rules (js "B, then A") = true
  /\ matchesKeywords simpleLowerCase rules (js "only A") = false
  /\ matchesKeywords simpleLowerCase rules (js "C") = true.
Proof.
  destruct (matchesKeywords_or_of_ands simpleLowerCase) as [_ Hex].
  specialize (Hex ltac:(reflexivity) ltac:(reflexivity)). cbv zeta in *.
  destruct (Hex (js "B, then A")) as (Hboth & _ & _).
  destruct (Hex (js "only A")) as (_ & Hnone & _).
  destruct (Hex (js "C")) as (_ & _ & Hc).
  split; [| split].
  - apply Hboth.
    + exists (js "b, then "), []. reflexivity.
    + exists [], (js ", then a"). reflexivity.
  - apply Hnone;
      intros H; apply includes_substring in H; vm_compute in H; discriminate.
  - apply Hc. exists [], []. reflexivity.
Defined.

(** ** The monad of the scan *)

Lemma keepsState_ret {P A} (a : A) : keepsState (ret P a).
Proof. intros s r s' [= <- <-]. split; reflexivity. Qed.

Lemma keepsState_throw {P A} (e : jsstring) : keepsState (@throw P A e).
Proof. intros s r s' [= <- <-]. split; reflexivity. Qed.

Lemma keepsState_call {P A} (f : World P -> result A * World P) :
  keepsState (call P f).
Proof.
  intros s r s'. unfold call. destruct (f (world s)) as [r0 w].
  intros [= <- <-]. split; reflexivity.
Qed.

Lemma keepsState_bind {P A B} (m : M P A) (k : A -> M P B) :
  keepsState m -> (forall a, keepsState (k a)) -> keepsState (bind P m k).
Proof.
  intros Hm Hk s r s'. unfold bind.
  destruct (m s) as [[a|e] s1] eqn:Hms.
  - intros Hks. destruct (Hm _ _ _ Hms) as [H1 H2].
    destruct (Hk a _ _ _ Hks) as [H3 H4]. split; congruence.
  - intros [= <- <-]. exact (Hm _ _ _ Hms).
Qed.

Lemma keepsState_try_catch {P A} (m : M P A) (h : jsstring -> M P A) :
  keepsState m -> (forall e, keepsState (h e)) -> keepsState (try_catch P m h).
Proof.
  intros Hm Hh s r s'. unfold try_catch.
  destruct (m s) as [[a|e] s1] eqn:Hms.
  - intros [= <- <-]. exact (Hm _ _ _ Hms).
  - intros Hhs. destruct (Hm _ _ _ Hms) as [H1 H2].
    destruct (Hh e _ _ _ Hhs) as [H3 H4]. split; congruence.
Qed.

Lemma keepsState_finally {P A} (m : M P A) (final : M P unit) :
  keepsState m -> keepsState final -> keepsState (finally P m final).
Proof.
  intros Hm Hf s r s'. unfold finally.
  destruct (m s) as [r1 s1] eqn:Hms.
  destruct (final s1) as [[u|e] s2] eqn:Hfs; intros [= <- <-];
    destruct (Hm _ _ _ Hms) as [H1 H2]; destruct (Hf _ _ _ Hfs) as [H3 H4];
    split; congruence.
Qed.

Lemma keepsState_gotoLoop {P} (page : Page) (target : jsstring)
    (attempts : nat) (lastErr : jsstring) :
  keepsState (gotoLoop P page target attempts lastErr).
Proof.
  revert lastErr. induction attempts as [|n IH]; intros lastErr; simpl.
  - apply keepsState_throw.
  - apply keepsState_try_catch; [apply keepsState_call | intros e; apply IH].
Qed.

Lemma keepsState_fingerprintGuarded {P} (href : jsstring) :
  keepsState (fingerprintGuarded P href).
Proof.
  unfold fingerprintGuarded, fingerprintTry, gotoWithRetry, ignoreErrors.
  apply keepsState_try_catch; [| intros e; apply keepsState_ret].
  apply keepsState_bind; [apply keepsState_gotoLoop | intros _].
  apply keepsState_bind; [| intros _].
  - apply keepsState_try_catch; [apply keepsState_call |].
    intros e. apply keepsState_ret.
  - apply keepsState_bind; [apply keepsState_call |].
    intros fp. apply keepsState_ret.
Qed.

Lemma keepsState_fingerprintEventPage {P} (href : jsstring) :
  keepsState (fingerprintEventPage P href).
Proof.
  unfold fingerprintEventPage.
  apply keepsState_bind; [apply keepsState_call | intros _].
  apply keepsState_finally;
    [apply keepsState_fingerprintGuarded | apply keepsState_call].
Qed.

(** ** C7: fingerprinting *)

(** C7, as stated, fails: [context.newPage()] is awaited before the [try]
    block, so when the detail page cannot be opened the error reaches the
    caller and no digest is returned. *)
Lemma fingerprintEventPage_newPage_counterexample :
  let P := testPlatform false false true in
  fingerprintEventPage P (item_href testItem) (testStore P testWorld0 emptyState)
  = (Throw (js "Target closed"), testStore P testWorld0 emptyState).
Proof. vm_compute. reflexivity. Qed.

(** C7, amended.  The [try ... catch] of the fingerprinter never raises:
    it returns a digest, and when navigation or the extraction of the
    fields fails this is the digest of the raw href alone.  With the page
    opened before it and closed after it, that digest is what
    [fingerprintEventPage] returns; the only errors that reach its
    caller are those of opening the page and of closing it. *)
Theorem fingerprintEventPage_failure_modes :
  forall (P : Platform) (href : jsstring) (s : Store P),
    (exists fp s', fingerprintGuarded P href s = (Ok fp, s')
       /\ forall e s'', fingerprintTry P href s = (Throw e, s'') ->
            fp = hash href /\ s' = s'')
    /\ (forall w fp s2 w',
          context_newPage P DetailPage (world s) = (Ok tt, w) ->
          fingerprintGuarded P href (mkStore w (st s) (console s)) = (Ok fp, s2) ->
          page_close P (world s2) = (Ok tt, w') ->
          fingerprintEventPage P href s
          = (Ok fp, mkStore w' (st s2) (console s2)))
    /\ (forall e s',
          fingerprintEventPage P href s = (Throw e, s') ->
          (exists w, context_newPage P DetailPage (world s) = (Throw e, w))
          \/ (exists w w', page_close P w = (Throw e, w'))).
Proof.
  intros P href s. split; [| split].
  - unfold fingerprintGuarded, try_catch.
    destruct (fingerprintTry P href s) as [[fp|e] s1].
    + exists fp, s1. split; [reflexivity | intros e s'' [=]].
    + exists (hash href), s1. split; [reflexivity |].
      intros e' s'' [= _ ->]. split; reflexivity.
  - intros w fp s2 w' Hopen Hguard Hclose.
    unfold fingerprintEventPage, bind, call, finally.
    rewrite Hopen, Hguard, Hclose. reflexivity.
  - intros e s'. unfold fingerprintEventPage, bind, call at 1.
    destruct (context_newPage P DetailPage (world s)) as [[[]|e0] w] eqn:Hopen.
    + unfold finally, fingerprintGuarded, try_catch.
      destruct (fingerprintTry P href _) as [[fp|e1] s1].
      * unfold call. destruct (page_close P (world s1)) as [[[]|e2] w2] eqn:Hc.
        -- intros [=].
        -- intros [= <- <-]. right. exists (world s1), w2. exact Hc.
      * unfold ret, call.
        destruct (page_close P (world s1)) as [[[]|e2] w2] eqn:Hc.
        -- intros [=].
        -- intros [= <- <-]. right. exists (world s1), w2. exact Hc.
    + intros [= <- <-]. left. exists w. reflexivity.
Qed.

Lemma fingerprintEventPage_failure_modes_witness :
  let P := testPlatform false true false in
  let Q := testPlatform false false true in
  let s := testStore P testWorld0 emptyState in
  let href := item_href testItem in
  fingerprintEventPage P href s = (Ok (hash href), s)
  /\ fingerprintGuarded P href s = (Ok (hash href), s)
  /\ ((exists w, context_newPage Q DetailPage testWorld0
                 = (Throw (js "Target closed"), w))
      \/ (exists w w', page_close Q w = (Throw (js "Target closed"), w'))).
Proof.
  cbv zeta.
  set (P := testPlatform false true false).
  set (Q := testPlatform false false true).
  set (s := testStore P testWorld0 emptyState).
  set (href := item_href testItem).
  destruct (fingerprintEventPage_failure_modes P href s)
    as ((fp & s' & Hguard & Hfallback) & Hopened & _).
  destruct (Hfallback (js "net::ERR_TIMED_OUT") s) as [-> ->];
    [vm_compute; reflexivity |].
  split; [| split].
  - apply (Hopened testWorld0 (hash href) s testWorld0);
      [reflexivity | exact Hguard | reflexivity].
  - exact Hguard.
  - destruct (fingerprintEventPage_failure_modes Q href
                (testStore Q testWorld0 emptyState)) as (_ & _ & Hthrows).
    apply (Hthrows (js "Target closed") (testStore Q testWorld0 emptyState)).
    vm_compute. reflexivity.
Defined.

(** ** C2: the dedup key and the [changed] flag *)

Lemma contentChanged_spec (lastHashOfNorm : option jsstring)
    (contentHash : jsstring) :
  contentChanged lastHashOfNorm contentHash = true
  <-> exists previous, lastHashOfNorm = Some previous
                       /\ previous <> [] /\ previous <> contentHash.
Proof.
  unfold contentChanged. destruct lastHashOfNorm as [previous|].
  - rewrite andb_true_iff, negb_true_iff, truthy_str_nonempty, jsstring_eqb_neq.
    split.
    + intros [H1 H2]. exists previous. auto.
    + intros [p [[= <-] H]]. exact H.
  - split; [discriminate | intros [p [[=] _]]].
Qed.

(** C2 fails on the code, by a slip of line 207: [lastHash &&] is there
    for the href that has no remembered fingerprint, and it also takes a
    remembered empty string for none.  Failing input: [state.json]
    remembers the empty string as the fingerprint of the normalized href
    of the item, and the page has the digest "-1886914632".  [prune]
    leaves the entry as it is, so at line 206 a prior fingerprint exists
    and differs from the new one, and [changed] is false where C2 says
    true. *)
Theorem resolveKey_misses_change_after_empty_fingerprint :
  let P := testPlatform false true true in
  let norm := normHref testItem in
  let state := prune 48 1700000000000 (mkState ∅ {[ norm := [] ]}) in
  let fp := js "-1886914632" in
  lastHash state !! norm = Some []
  /\ [] <> fp
  /\ isTicketonEvent (item_href testItem) && DEEP_CHECK (testConfig true) = true
  /\ fingerprintEventPage P (item_href testItem) (testStore P testWorld0 state)
     = (Ok fp, testStore P testWorld0 state)
  /\ (resolveKey P (testConfig true) testItem (testStore P testWorld0 state)).1
     = Ok (norm ++ js "|" ++ fp, false).
Proof.
  cbv zeta. split; [vm_compute; reflexivity |].
  split; [discriminate |].
  split; [vm_compute; reflexivity |].
  split; vm_compute; reflexivity.
Qed.

(** The key and the flag on every input.  For a detail item under deep
    checking whose fingerprint is [fp], the dedup key is the normalized
    URL, "|" and [fp], and the state afterwards holds [fp] for the
    normalized URL, every other entry as before; [changed] agrees with C2
    whenever the remembered fingerprint is not the empty string.  For
    every other item the key is the normalized URL alone, [changed] is
    false and the store is untouched. *)
Lemma resolveKey_spec :
  forall (P : Platform) (C : Config) (item : Item) (s : Store P),
    let norm := normHref item in
    (isTicketonEvent (item_href item) && DEEP_CHECK C = true ->
     forall fp s1,
       fingerprintEventPage P (item_href item) s = (Ok fp, s1) ->
       exists changed s2,
         resolveKey P C item s = (Ok (norm ++ js "|" ++ fp, changed), s2)
         /\ (changed = true
             <-> exists previous,
                   lastHash (st s) !! norm = Some previous
                   /\ previous <> [] /\ previous <> fp)
         /\ lastHash (st s2) = <[norm := fp]> (lastHash (st s))
         /\ notified (st s2) = notified (st s)
         /\ world s2 = world s1 /\ console s2 = console s)
    /\ (isTicketonEvent (item_href item) && DEEP_CHECK C = false ->
        resolveKey P C item s = (Ok (norm, false), s)).
Proof.
  intros P C item s norm. unfold resolveKey. fold norm. split.
  - intros -> fp s1 Hfp.
    destruct (keepsState_fingerprintEventPage _ _ _ _ Hfp) as [Hst Hcon].
    exists (contentChanged (lastHash (st s) !! norm) fp).
    exists (mkStore (world s1) (recordHash (st s) norm fp) (console s)).
    unfold bind, getState, setState, ret. rewrite Hfp. simpl.
    rewrite Hst, Hcon. split; [reflexivity |].
    split; [apply contentChanged_spec |]. repeat split.
  - intros ->. reflexivity.
Qed.

Lemma resolveKey_spec_witness :
  let P := testPlatform false true true in
  let norm := normHref testItem in
  let state := mkState ∅ {[ norm := js "12345" ]} in
  (exists s2,
      resolveKey P (testConfig true) testItem (testStore P testWorld0 state)
      = (Ok (norm ++ js "|" ++ js "-1886914632", true), s2)
      /\ lastHash (st s2) !! norm = Some (js "-1886914632"))
  /\ resolveKey P (testConfig false) testItem (testStore P testWorld0 state)
     = (Ok (norm, false), testStore P testWorld0 state).
Proof.
  cbv zeta.
  set (P := testPlatform false true true).
  set (norm := normHref testItem).
  set (state := mkState ∅ {[ norm := js "12345" ]}).
  set (s := testStore P testWorld0 state).
  destruct (resolveKey_spec P (testConfig true) testItem s) as [Hdeep _].
  destruct (resolveKey_spec P (testConfig false) testItem s) as [_ Hshallow].
  split.
  - destruct (Hdeep ltac:(vm_compute; reflexivity) (js "-1886914632") s
                ltac:(vm_compute; reflexivity))
      as (changed & s2 & Hkey & Hchanged & Hlast & _).
    assert (Hc : changed = true).
    { apply Hchanged. exists (js "12345").
      split; [vm_compute; reflexivity | split; discriminate]. }
    subst changed. exists s2. split; [exact Hkey |].
    rewrite Hlast. apply lookup_insert_eq.
  - apply Hshallow. vm_compute. reflexivity.
Defined.

(** ** C3: errors and the scan loop *)

Lemma watched_app (l1 l2 : list LogLine) :
  watched (l1 ++ l2) = watched l1 ++ watched l2.
Proof. unfold watched. apply flat_map_app. Qed.

Lemma quiet_keepsState {P A} (m : M P A) : keepsState m -> quiet m.
Proof.
  intros H s r s' Hm. destruct (H _ _ _ Hm) as [_ Hc].
  exists []. rewrite app_nil_r. split; [exact Hc | reflexivity].
Qed.

Lemma quiet_bind {P A B} (m : M P A) (k : A -> M P B) :
  quiet m -> (forall a, quiet (k a)) -> quiet (bind P m k).
Proof.
  intros Hm Hk s r s'. unfold bind.
  destruct (m s) as [[a|e] s1] eqn:Hms.
  - intros Hks. destruct (Hm _ _ _ Hms) as (x1 & H1 & W1).
    destruct (Hk a _ _ _ Hks) as (x2 & H2 & W2).
    exists (x1 ++ x2). rewrite H2, H1, app_assoc, watched_app, W1, W2.
    split; reflexivity.
  - intros [= <- <-]. exact (Hm _ _ _ Hms).
Qed.

Lemma quiet_try_catch {P A} (m : M P A) (h : jsstring -> M P A) :
  quiet m -> (forall e, quiet (h e)) -> quiet (try_catch P m h).
Proof.
  intros Hm Hh s r s'. unfold try_catch.
  destruct (m s) as [[a|e] s1] eqn:Hms.
  - intros [= <- <-]. exact (Hm _ _ _ Hms).
  - intros Hhs. destruct (Hm _ _ _ Hms) as (x1 & H1 & W1).
    destruct (Hh e _ _ _ Hhs) as (x2 & H2 & W2).
    exists (x1 ++ x2). rewrite H2, H1, app_assoc, watched_app, W1, W2.
    split; reflexivity.
Qed.

Lemma quiet_log {P} (line : LogLine) :
  watched [line] = [] -> quiet (log P line).
Proof.
  intros H s r s' [= <- <-]. exists [line]. split; [reflexivity | exact H].
Qed.

Lemma quiet_getState {P} : quiet (getState P).
Proof.
  intros s r s' [= <- <-]. exists []. rewrite app_nil_r. split; reflexivity.
Qed.

Lemma quiet_setState {P} (state : State) : quiet (setState P state).
Proof.
  intros s r s' [= <- <-]. exists []. rewrite app_nil_r. split; reflexivity.
Qed.

Lemma quiet_delay {P} (ms : Z) : quiet (delay P ms).
Proof.
  intros s r s' [= <- <-]. exists []. rewrite app_nil_r. split; reflexivity.
Qed.

Lemma quiet_now {P} : quiet (now P).
Proof.
  intros s r s'. unfold now. destruct (Date_now P (world s)) as [t w].
  intros [= <- <-]. exists []. rewrite app_nil_r. split; reflexivity.
Qed.

Lemma quiet_currentUrl {P} : quiet (currentUrl P).
Proof.
  intros s r s' [= <- <-]. exists []. rewrite app_nil_r. split; reflexivity.
Qed.

Lemma quiet_call {P A} (f : World P -> result A * World P) : quiet (call P f).
Proof. apply quiet_keepsState, keepsState_call. Qed.

Lemma quiet_ret {P A} (a : A) : quiet (ret P a).
Proof. apply quiet_keepsState, keepsState_ret. Qed.

Create HintDb quiet.
#[local] Hint Resolve quiet_ret quiet_call quiet_currentUrl quiet_now
  quiet_delay quiet_setState quiet_getState : quiet.

Ltac quiet_steps :=
  repeat first
    [ apply quiet_bind; [| intros ?]
    | apply quiet_try_catch; [| intros ?]
    | solve [auto with quiet]
    | apply quiet_log; reflexivity ].

Lemma quiet_processItem {P} (C : Config) (target : jsstring) (item : Item) :
  quiet (processItem P C target item).
Proof.
  unfold processItem, resolveKey, notify, saveState.
  apply quiet_bind.
  - destruct (isTicketonEvent (item_href item) && DEEP_CHECK C);
      [| apply quiet_ret].
    apply quiet_bind;
      [apply quiet_keepsState, keepsState_fingerprintEventPage | intros ?].
    quiet_steps.
  - intros keyed. apply quiet_bind; [apply quiet_getState | intros state].
    destruct (skipCandidate (FORCE_NOTIFY C) state keyed.1); quiet_steps.
Qed.

Lemma quiet_processItems {P} (C : Config) (target : jsstring)
    (unique : list Item) :
  quiet (processItems P C target unique).
Proof.
  induction unique as [|item unique IH]; simpl.
  - apply quiet_ret.
  - apply quiet_bind; [apply quiet_processItem | intros _; exact IH].
Qed.

(** Whatever happens in the [try] block of a target, it announces that
    target and no other. *)
Lemma scanTarget_watched (E : Engine) (P : Platform) (C : Config)
    (target : jsstring) (s : Store P) (r : result unit) (s' : Store P) :
  scanTarget E P C target s = (r, s') ->
  watched (console s') = watched (console s) ++ [target].
Proof.
  unfold scanTarget. unfold bind at 1. unfold log at 1. intros H.
  match type of H with
  | ?m ?s0 = _ => assert (Hq : quiet m); [| destruct (Hq _ _ _ H) as (x & Hx & Wx)]
  end.
  - unfold gotoWithRetry, ignoreErrors, extractCandidates.
    apply quiet_bind;
      [apply quiet_keepsState, keepsState_gotoLoop | intros ?].
    apply quiet_bind; [quiet_steps | intros ?].
    apply quiet_bind; [quiet_steps | intros ?].
    apply quiet_bind; [quiet_steps | intros bodyText].
    apply quiet_bind;
      [destruct (waitingRoom E bodyText); quiet_steps | intros ?].
    apply quiet_bind; [quiet_steps | intros found].
    apply quiet_bind; [quiet_steps | intros ?].
    apply quiet_bind; [quiet_steps | intros url].
    apply quiet_bind; [quiet_steps | intros ?].
    apply quiet_processItems.
  - rewrite Hx. cbn [console]. rewrite !watched_app, Wx, app_nil_r.
    reflexivity.
Qed.

(** C3, as stated, fails: the [try ... catch] encloses the whole loop
    over the candidates of a target.  Here the page has two candidates
    and the delivery for the first is rejected: the error is logged for
    the target, the second candidate is never handed to the messenger and
    nothing is recorded. *)
Lemma candidate_error_skips_rest_counterexample :
  let P := testPlatform true true true in
  let target := js "https://ticketon.kz/almaty" in
  let run :=
    checkOnce exampleEngine P (testConfig false)
      (testStore P testWorld0 emptyState) in
  run.1 = Ok tt
  /\ console run.2
     = [LogWatch target; LogCandidates 2; LogUnique 2;
        LogError target (js "ETELEGRAM")]
  /\ outbox (world run.2)
     = [composeMessage (js "https://ticketon.kz/almaty/event/kairat-real?utm=1")
          (js "Kairat - Real") false target]
  /\ notified (st run.2) = ∅.
Proof. cbv zeta. repeat split; vm_compute; reflexivity. Qed.

(** C3, amended.  An error raised while a candidate is processed ends
    the loop over the candidates of its target: the candidates after it
    are not processed.  It is caught by the [try ... catch] of the target
    and logged there, so the scan of a target never raises, and every
    target of the list is scanned, in order, whatever fails. *)
Theorem target_errors_are_isolated :
  forall (E : Engine) (P : Platform) (C : Config),
    (forall target item rest s e s',
        processItem P C target item s = (Throw e, s') ->
        processItems P C target (item :: rest) s = (Throw e, s'))
    /\ (forall target s e s',
          scanTarget E P C target s = (Throw e, s') ->
          guardedTarget E P C target s
          = (Ok tt, mkStore (world s') (st s') (console s' ++ [LogError target e])))
    /\ (forall target s, exists s', guardedTarget E P C target s = (Ok tt, s'))
    /\ (forall targets s,
          exists s',
            forEachTarget E P C targets s = (Ok tt, s')
            /\ watched (console s') = watched (console s) ++ targets).
Proof.
  intros E P C.
  assert (Hguard : forall target s,
             exists s', guardedTarget E P C target s = (Ok tt, s')
                        /\ watched (console s') = watched (console s) ++ [target]).
  { intros target s. unfold guardedTarget, try_catch.
    destruct (scanTarget E P C target s) as [[[]|e] s1] eqn:Hscan.
    - exists s1. split; [reflexivity |]. eapply scanTarget_watched, Hscan.
    - eexists. split; [reflexivity |]. cbn [console].
      rewrite watched_app, (scanTarget_watched _ _ _ _ _ _ _ Hscan).
      simpl. rewrite app_nil_r. reflexivity. }
  split; [| split; [| split]].
  - intros target item rest s e s' H. simpl. unfold bind. rewrite H.
    reflexivity.
  - intros target s e s' H. unfold guardedTarget, try_catch. rewrite H.
    reflexivity.
  - intros target s. destruct (Hguard target s) as [s' [H _]]. eauto.
  - induction targets as [|target targets IH]; intros s; simpl.
    + exists s. rewrite app_nil_r. split; reflexivity.
    + unfold bind. destruct (Hguard target s) as [s1 [H1 W1]]. rewrite H1.
      destruct (IH s1) as [s2 [H2 W2]]. exists s2. split; [exact H2 |].
      rewrite W2, W1, <- app_assoc. reflexivity.
Qed.

Lemma target_errors_are_isolated_witness :
  let P := testPlatform true true true in
  let C := testConfig false in
  let target := js "https://ticketon.kz/almaty" in
  let s := testStore P testWorld0 emptyState in
  (processItems P C target [testItem; testItem] s).1 = Throw (js "ETELEGRAM")
  /\ (guardedTarget exampleEngine P C target s).1 = Ok tt.
Proof.
  cbv zeta.
  set (P := testPlatform true true true).
  set (C := testConfig false).
  set (target := js "https://ticketon.kz/almaty").
  set (s := testStore P testWorld0 emptyState).
  destruct (target_errors_are_isolated exampleEngine P C)
    as (Hrest & Hcaught & _ & _).
  split.
  - destruct (processItem P C target testItem s) as [[[]|e] s'] eqn:Hitem.
    + vm_compute in Hitem. discriminate.
    + rewrite (Hrest target testItem [testItem] s e s' Hitem).
      vm_compute in Hitem. injection Hitem as He _. rewrite <- He. reflexivity.
  - destruct (scanTarget exampleEngine P C target s) as [[[]|e] s'] eqn:Hscan.
    + vm_compute in Hscan. discriminate.
    + rewrite (Hcaught target s e s' Hscan). reflexivity.
Defined.

(** ** The URL parser *)

Lemma hexDigit_pathCharOK (special : bool) (d : N) :
  (d < 16)%N -> pathCharOK special (hexDigit d) = true.
Proof.
  intros H.
  assert (Hd : In d [0;1;2;3;4;5;6;7;8;9;10;11;12;13;14;15]%N).
  { simpl. lia. }
  simpl in Hd. destruct special;
    repeat (destruct Hd as [<- | Hd]; [vm_compute; reflexivity |]);
    destruct Hd.
Qed.

Lemma utf8Encode_bytes (c b : N) : In b (utf8Encode c) -> (b < 256)%N.
Proof.
  unfold utf8Encode.
  destruct (N.ltb_spec c 128); [simpl; intros [<- | []]; lia |].
  destruct (N.ltb_spec c 2048).
  { assert (c / 64 < 32)%N by (apply N.Div0.div_lt_upper_bound; lia).
    pose proof (N.mod_lt c 64 ltac:(lia)).
    simpl. intros [<- | [<- | []]]; lia. }
  destruct (N.ltb_spec c 65536).
  { assert (c / 4096 < 16)%N by (apply N.Div0.div_lt_upper_bound; lia).
    pose proof (N.mod_lt c 64 ltac:(lia)).
    pose proof (N.mod_lt (c / 64) 64 ltac:(lia)).
    simpl. intros [<- | [<- | [<- | []]]]; lia. }
  pose proof (N.mod_lt c 64 ltac:(lia)).
  pose proof (N.mod_lt (c / 64) 64 ltac:(lia)).
  pose proof (N.mod_lt (c / 4096) 64 ltac:(lia)).
  pose proof (N.mod_lt (c / 262144) 8 ltac:(lia)).
  simpl. intros [<- | [<- | [<- | [<- | []]]]]; lia.
Qed.

Lemma percentEncodeByte_pathCharOK (special : bool) (b : N) :
  (b < 256)%N ->
  Forall (fun c => pathCharOK special c = true) (percentEncodeByte b).
Proof.
  intros H. unfold percentEncodeByte.
  repeat apply Forall_cons_2; [| | | apply Forall_nil_2].
  - destruct special; reflexivity.
  - apply hexDigit_pathCharOK, N.Div0.div_lt_upper_bound; lia.
  - apply hexDigit_pathCharOK, N.mod_lt. lia.
Qed.

Lemma percentEncoded_pathCharOK (special : bool) (c : N) :
  Forall (fun c => pathCharOK special c = true)
    (flat_map percentEncodeByte (utf8Encode c)).
Proof.
  pose proof (utf8Encode_bytes c) as Hb.
  induction (utf8Encode c) as [|b bytes IH]; cbn [flat_map].
  - apply Forall_nil_2.
  - apply Forall_app. split.
    + apply percentEncodeByte_pathCharOK, Hb. left. reflexivity.
    + apply IH. intros b' Hb'. apply Hb. right. exact Hb'.
Qed.

(** What the path state appends for a code point that is no separator. *)
Lemma utf8PercentEncode_pathCharOK (special : bool) (c : N) :
  isPathSeparator special c = false ->
  Forall (fun c => pathCharOK special c = true)
    (utf8PercentEncode inPathSet c).
Proof.
  intros Hsep. unfold utf8PercentEncode.
  destruct (inPathSet c) eqn:Hset.
  - apply percentEncoded_pathCharOK.
  - apply Forall_cons_2; [| apply Forall_nil_2].
    unfold pathCharOK. rewrite Hset, Hsep. reflexivity.
Qed.

Lemma utf8PercentEncode_stable (special : bool) (c : N) :
  pathCharOK special c = true -> utf8PercentEncode inPathSet c = [c].
Proof.
  unfold pathCharOK, utf8PercentEncode. intros H.
  apply andb_true_iff in H as [H _]. apply negb_true_iff in H.
  rewrite H. reflexivity.
Qed.

Lemma removelast_Forall {A} (Q : A -> Prop) (l : list A) :
  Forall Q l -> Forall Q (removelast l).
Proof.
  induction 1 as [|x l Hx Hl IH]; simpl; [constructor |].
  destruct l; [constructor | constructor; assumption].
Qed.

Lemma shorten_Forall (Q : jsstring -> Prop) (isFile : bool)
    (path : list jsstring) :
  Forall Q path -> Forall Q (shorten isFile path).
Proof.
  intros H. unfold shorten. destruct path as [|only [|x rest]].
  - constructor.
  - destruct (isFile && isNormalizedWindowsDriveLetter only);
      [exact H | constructor].
  - apply removelast_Forall. exact H.
Qed.

Lemma pushSegment_segmentOK (special isFile atSeparator : bool)
    (path : list jsstring) (buffer : jsstring) :
  Forall (segmentOK special) path -> segmentOK special buffer ->
  Forall (segmentOK special) (pushSegment isFile atSeparator path buffer).
Proof.
  intros Hpath Hbuf.
  assert (Hnil : segmentOK special []) by constructor.
  assert (Hsnoc : forall seg, segmentOK special seg ->
                              Forall (segmentOK special) (path ++ [seg])).
  { intros seg Hseg. apply Forall_app. split; [exact Hpath |].
    constructor; [exact Hseg | constructor]. }
  unfold pushSegment. destruct (isDoubleDot buffer).
  - pose proof (shorten_Forall _ isFile _ Hpath) as Hs.
    destruct atSeparator; [exact Hs |].
    apply Forall_app. split; [exact Hs | constructor; [exact Hnil | constructor]].
  - destruct (isSingleDot buffer).
    + destruct atSeparator; [exact Hpath | apply Hsnoc, Hnil].
    + destruct path as [|x path']; [| apply Hsnoc, Hbuf].
      destruct buffer as [|c [|d [|e rest]]]; try apply Hsnoc, Hbuf.
      destruct (isFile && isWindowsDriveLetter [c; d]) eqn:Hdrive;
        [| apply Hsnoc, Hbuf].
      apply Hsnoc. inversion Hbuf as [|? ? Hc _]; subst.
      constructor; [exact Hc |]. constructor; [| constructor].
      destruct special; reflexivity.
Qed.

Lemma parsePath_segmentOK (special isFile : bool) (s : list N)
    (path : list jsstring) (buffer : jsstring) :
  Forall (segmentOK special) path -> segmentOK special buffer ->
  Forall (segmentOK special) (parsePath special isFile path buffer s).
Proof.
  revert path buffer. induction s as [|c s IH]; intros path buffer Hp Hb; simpl.
  - apply pushSegment_segmentOK; assumption.
  - destruct (isPathSeparator special c) eqn:Hsep.
    + apply IH; [apply pushSegment_segmentOK; assumption | constructor].
    + destruct (isPathEnd c).
      * apply pushSegment_segmentOK; assumption.
      * apply IH; [exact Hp |]. apply Forall_app. split; [exact Hb |].
        apply utf8PercentEncode_pathCharOK, Hsep.
Qed.

Lemma parsePathStart_segmentOK (special isFile : bool) (s : list N) :
  Forall (segmentOK special) (parsePathStart special isFile s).
Proof.
  assert (H : forall s', Forall (segmentOK special)
                           (parsePath special isFile [] [] s')).
  { intros s'. apply parsePath_segmentOK; constructor. }
  unfold parsePathStart. destruct s as [|c s].
  - destruct special; [apply H | constructor].
  - destruct special.
    + destruct (isSlashOrBackslash c); apply H.
    + destruct (isPathEnd c); [constructor |].
      destruct (N.eqb c c_slash); apply H.
Qed.


(** Boolean tests on code points, read as arithmetic. *)
Ltac code_tests H :=
  repeat rewrite ?andb_true_iff, ?orb_true_iff, ?andb_false_iff,
    ?orb_false_iff, ?negb_true_iff, ?negb_false_iff,
    ?N.eqb_eq, ?N.eqb_neq, ?N.leb_le, ?N.leb_gt, ?N.ltb_lt, ?N.ltb_ge in H.

Ltac code_goal :=
  repeat rewrite ?andb_true_iff, ?orb_true_iff, ?andb_false_iff,
    ?orb_false_iff, ?negb_true_iff, ?negb_false_iff,
    ?N.eqb_eq, ?N.eqb_neq, ?N.leb_le, ?N.leb_gt, ?N.ltb_lt, ?N.ltb_ge.

Lemma pathCharOK_urlChar (special : bool) (c : N) :
  pathCharOK special c = true -> urlChar c = true.
Proof.
  unfold pathCharOK, inPathSet, inQuerySet, inC0ControlSet, urlChar.
  intros H. code_tests H. code_goal. lia.
Qed.

Lemma pathCharOK_not_end (special : bool) (c : N) :
  pathCharOK special c = true -> isPathEnd c = false.
Proof.
  unfold pathCharOK, inPathSet, inQuerySet, isPathEnd.
  intros H. code_tests H. code_goal. lia.
Qed.

Lemma pathCharOK_not_separator (special : bool) (c : N) :
  pathCharOK special c = true -> isPathSeparator special c = false.
Proof.
  unfold pathCharOK. intros H. apply andb_true_iff in H as [_ H].
  apply negb_true_iff in H. exact H.
Qed.

Lemma snoc_not_nil {A} (l : list A) (x : A) : l ++ [x] <> [].
Proof. destruct l; discriminate. Qed.

Lemma pushSegment_at_end_nonempty (isFile : bool) (path : list jsstring)
    (buffer : jsstring) :
  pushSegment isFile false path buffer <> [].
Proof.
  unfold pushSegment.
  destruct (isDoubleDot buffer); [apply snoc_not_nil |].
  destruct (isSingleDot buffer); [apply snoc_not_nil |].
  destruct path as [|x path']; [| apply snoc_not_nil].
  destruct buffer as [|c [|d [|e rest]]]; try apply snoc_not_nil.
  destruct (isFile && isWindowsDriveLetter [c; d]); apply snoc_not_nil.
Qed.

Lemma parsePath_nonempty (special isFile : bool) (s : list N)
    (path : list jsstring) (buffer : jsstring) :
  parsePath special isFile path buffer s <> [].
Proof.
  revert path buffer. induction s as [|c s IH]; intros path buffer; simpl.
  - apply pushSegment_at_end_nonempty.
  - destruct (isPathSeparator special c); [apply IH |].
    destruct (isPathEnd c); [apply pushSegment_at_end_nonempty | apply IH].
Qed.

Lemma pushSegment_notDot (isFile atSeparator : bool) (path : list jsstring)
    (buffer : jsstring) :
  Forall notDot path ->
  Forall notDot (pushSegment isFile atSeparator path buffer).
Proof.
  intros Hpath.
  assert (Hnil : notDot []) by (split; reflexivity).
  assert (Hsnoc : forall seg, notDot seg -> Forall notDot (path ++ [seg])).
  { intros seg Hseg. apply Forall_app. split; [exact Hpath |].
    constructor; [exact Hseg | constructor]. }
  unfold pushSegment. destruct (isDoubleDot buffer) eqn:Hdd.
  - pose proof (shorten_Forall _ isFile _ Hpath) as Hs.
    destruct atSeparator; [exact Hs |].
    apply Forall_app. split; [exact Hs | constructor; [exact Hnil | constructor]].
  - destruct (isSingleDot buffer) eqn:Hsd.
    + destruct atSeparator; [exact Hpath | apply Hsnoc, Hnil].
    + assert (Hbuf : notDot buffer) by (split; assumption).
      destruct path as [|x path']; [| apply Hsnoc, Hbuf].
      destruct buffer as [|c [|d [|e rest]]]; try apply Hsnoc, Hbuf.
      destruct (isFile && isWindowsDriveLetter [c; d]) eqn:Hdrive;
        [| apply Hsnoc, Hbuf].
      apply Hsnoc. apply andb_true_iff in Hdrive as [_ Hdrive].
      unfold isWindowsDriveLetter in Hdrive.
      apply andb_true_iff in Hdrive as [Hc _].
      unfold notDot, isSingleDot, isDoubleDot. cbn [map].
      assert (Hl : asciiLower c <> 46%N /\ asciiLower c <> 37%N).
      { unfold asciiLower, isAsciiAlpha, isAsciiUpper, isAsciiLowerAlpha in *.
        destruct ((65 <=? c)%N && (c <=? 90)%N) eqn:Hu;
          code_tests Hc; code_tests Hu; lia. }
      destruct Hl as [H1 H2]. apply N.eqb_neq in H1, H2.
      change (js ".") with [46%N]. change (js "%2e") with [37%N;50%N;101%N].
      change (js "..") with [46%N;46%N]. change (js ".%2e") with [46%N;37%N;50%N;101%N].
      change (js "%2e.") with [37%N;50%N;101%N;46%N].
      change (js "%2e%2e") with [37%N;50%N;101%N;37%N;50%N;101%N].
      cbn [jsstring_eqb]. rewrite H1, H2. split; reflexivity.
Qed.

Lemma parsePath_notDot (special isFile : bool) (s : list N)
    (path : list jsstring) (buffer : jsstring) :
  Forall notDot path ->
  Forall notDot (parsePath special isFile path buffer s).
Proof.
  revert path buffer. induction s as [|c s IH]; intros path buffer Hp; simpl.
  - apply pushSegment_notDot, Hp.
  - destruct (isPathSeparator special c).
    + apply IH, pushSegment_notDot, Hp.
    + destruct (isPathEnd c); [apply pushSegment_notDot, Hp | apply IH, Hp].
Qed.

Lemma parsePathStart_notDot (special isFile : bool) (s : list N) :
  Forall notDot (parsePathStart special isFile s).
Proof.
  assert (H : forall s', Forall notDot (parsePath special isFile [] [] s')).
  { intros s'. apply parsePath_notDot. constructor. }
  unfold parsePathStart. destruct s as [|c s].
  - destruct special; [apply H | constructor].
  - destruct special.
    + destruct (isSlashOrBackslash c); apply H.
    + destruct (isPathEnd c); [constructor |].
      destruct (N.eqb c c_slash); apply H.
Qed.

(** The path state copies the code points of a clean segment. *)
Lemma parsePath_copy (special isFile : bool) (segment : jsstring)
    (path : list jsstring) (buffer : jsstring) (s : list N) :
  segmentOK special segment ->
  parsePath special isFile path buffer (segment ++ s)
  = parsePath special isFile path (buffer ++ segment) s.
Proof.
  intros H. revert buffer.
  induction H as [|c segment Hc Hseg IH]; intros buffer.
  - rewrite app_nil_r. reflexivity.
  - cbn [app parsePath].
    rewrite (pathCharOK_not_separator _ _ Hc), (pathCharOK_not_end _ _ Hc).
    rewrite (utf8PercentEncode_stable _ _ Hc), IH, <- app_assoc.
    reflexivity.
Qed.

Lemma pushSegment_plain (atSeparator : bool) (path : list jsstring)
    (buffer : jsstring) :
  notDot buffer -> pushSegment false atSeparator path buffer = path ++ [buffer].
Proof.
  intros [Hs Hd]. unfold pushSegment. rewrite Hd, Hs.
  destruct path as [|x path']; [| reflexivity].
  destruct buffer as [|c [|d [|e rest]]]; reflexivity.
Qed.

(** Parsing the serialization of clean segments gives the segments. *)
Lemma parsePath_serialized (special : bool) (segments : list jsstring)
    (segment : jsstring) (path : list jsstring) :
  Forall (segmentOK special) (segment :: segments) ->
  Forall notDot (segment :: segments) ->
  parsePath special false path [] (segment ++ serializeSegments segments)
  = path ++ segment :: segments.
Proof.
  revert segment path.
  induction segments as [|next segments IH]; intros segment path Hok Hdot.
  - inversion Hok; inversion Hdot; subst.
    cbn [serializeSegments flat_map]. rewrite parsePath_copy by assumption.
    simpl. apply pushSegment_plain. assumption.
  - inversion Hok as [|? ? Hseg Hok']; inversion Hdot as [|? ? Hd Hdot']; subst.
    cbn [serializeSegments flat_map]. rewrite parsePath_copy by assumption.
    cbn [app parsePath].
    replace (isPathSeparator special c_slash) with true by reflexivity.
    rewrite pushSegment_plain by assumption.
    fold (serializeSegments segments).
    rewrite (IH next (path ++ [segment]) Hok' Hdot'), <- app_assoc.
    reflexivity.
Qed.

Lemma parsePathStart_serialized (special : bool) (segments : list jsstring) :
  (special = true -> segments <> []) ->
  Forall (segmentOK special) segments ->
  Forall notDot segments ->
  parsePathStart special false (serializeSegments segments) = segments.
Proof.
  intros Hne Hok Hdot. destruct segments as [|segment segments].
  - destruct special; [exfalso; apply Hne; reflexivity | reflexivity].
  - cbn [serializeSegments flat_map app parsePathStart].
    fold (serializeSegments segments).
    destruct special.
    + replace (isSlashOrBackslash c_slash) with true by reflexivity.
      apply (parsePath_serialized true segments segment []); assumption.
    + replace (isPathEnd c_slash) with false by reflexivity.
      replace (N.eqb c_slash c_slash) with true by reflexivity.
      apply (parsePath_serialized false segments segment []); assumption.
Qed.


Lemma toUSV_printable (s : jsstring) : printable s -> toUSV s = s.
Proof.
  induction 1 as [|c s Hc Hs IH]; [reflexivity |].
  cbn [toUSV].
  assert (Hhi : isHighSurrogate c = false).
  { unfold isHighSurrogate, urlChar in *. code_tests Hc. code_goal. lia. }
  assert (Hlo : isLowSurrogate c = false).
  { unfold isLowSurrogate, urlChar in *. code_tests Hc. code_goal. lia. }
  rewrite Hhi, Hlo, IH. reflexivity.
Qed.

Lemma dropWhile_printable (s : jsstring) :
  printable s -> dropWhile isC0OrSpace s = s.
Proof.
  intros H. destruct H as [|c s Hc Hs]; [reflexivity |].
  simpl. replace (isC0OrSpace c) with false; [reflexivity |].
  symmetry. unfold isC0OrSpace, urlChar in *. code_tests Hc. code_goal. lia.
Qed.

Lemma stripInput_printable (s : jsstring) : printable s -> stripInput s = s.
Proof.
  intros H. unfold stripInput.
  rewrite (dropWhile_printable s H).
  rewrite (dropWhile_printable (rev s)) by (apply Forall_rev; exact H).
  rewrite rev_involutive.
  induction H as [|c s Hc Hs IH]; [reflexivity |].
  simpl. replace (isTabOrNewline c) with false.
  - simpl. f_equal. exact IH.
  - symmetry. unfold isTabOrNewline, urlChar in *.
    code_tests Hc. code_goal. lia.
Qed.

Lemma printable_app (s t : jsstring) :
  printable s -> printable t -> printable (s ++ t).
Proof. intros Hs Ht. apply Forall_app. split; assumption. Qed.

Lemma printable_segments (special : bool) (segments : list jsstring) :
  Forall (segmentOK special) segments -> printable (serializeSegments segments).
Proof.
  induction 1 as [|segment segments Hseg Hsegs IH]; [constructor |].
  cbn [serializeSegments flat_map]. constructor; [reflexivity |].
  apply printable_app; [| exact IH].
  eapply Forall_impl; [exact Hseg |]. intros c. apply pathCharOK_urlChar.
Qed.

Lemma span_app (p : N -> bool) (taken rest : jsstring) :
  Forall (fun c => p c = true) taken ->
  match rest with [] => True | c :: _ => p c = false end ->
  span p (taken ++ rest) = (taken, rest).
Proof.
  intros Ht Hr. induction Ht as [|c taken Hc Ht IH]; simpl.
  - destruct rest as [|c rest]; [reflexivity |]. simpl. rewrite Hr. reflexivity.
  - rewrite Hc, IH. reflexivity.
Qed.

Lemma split_without_separator (sep : N) (s : jsstring) :
  Forall (fun c => N.eqb c sep = false) s -> split sep s = [s].
Proof.
  induction 1 as [|c s Hc Hs IH]; [reflexivity |].
  simpl. rewrite Hc, IH. reflexivity.
Qed.

Lemma hostportOf_without_at (authority : jsstring) :
  Forall (fun c => N.eqb c c_at = false) authority ->
  hostportOf authority = Some authority.
Proof.
  intros H. unfold hostportOf. rewrite split_without_separator by exact H.
  reflexivity.
Qed.

Lemma splitHostPort_colonFree (h : jsstring) (inside : bool) :
  colonFree inside h = true ->
  splitHostPort inside h = (h, None)
  /\ forall digits,
       splitHostPort inside (h ++ c_colon :: digits) = (h, Some digits).
Proof.
  revert inside. induction h as [|c h IH]; intros inside H.
  - simpl in H. apply negb_true_iff in H. subst inside.
    split; [reflexivity | intros digits; reflexivity].
  - cbn [colonFree] in H. cbn [splitHostPort app].
    destruct (N.eqb c c_colon && negb inside); [discriminate |].
    destruct (IH _ H) as [H1 H2]. rewrite H1. split; [reflexivity |].
    intros digits. rewrite H2. reflexivity.
Qed.

Lemma uintOfCodes_codesOfUint (u : Decimal.uint) :
  uintOfCodes (codesOfUint u) = u.
Proof. induction u; simpl; unfold digitOfCode; simpl; congruence. Qed.

Lemma codesOfUint_digits (u : Decimal.uint) :
  forallb isAsciiDigit (codesOfUint u) = true.
Proof. induction u; simpl; auto. Qed.

Lemma decimalValue_decimalOfN (n : N) : decimalValue (decimalOfN n) = n.
Proof.
  unfold decimalValue, decimalOfN. rewrite uintOfCodes_codesOfUint.
  apply DecimalN.Unsigned.of_to.
Qed.

Lemma decimalOfN_nonempty (n : N) : decimalOfN n <> [].
Proof.
  unfold decimalOfN. destruct n as [|p]; [discriminate |].
  simpl. pose proof (DecimalPos.Unsigned.to_uint_nonnil p) as H.
  destruct (Pos.to_uint p); try discriminate. congruence.
Qed.

Lemma decimalOfN_digits (n : N) :
  Forall (fun c => isAsciiDigit c = true) (decimalOfN n).
Proof.
  apply Forall_forall. intros c Hc. apply list_elem_of_In in Hc.
  pose proof (codesOfUint_digits (N.to_uint n)) as H.
  rewrite forallb_forall in H. apply H, Hc.
Qed.

(** The port state reads back a port that it produced. *)
Lemma parsePort_decimalOfN (scheme : jsstring) (digits : list N) (n : N) :
  parsePort scheme digits = Some (Some n) ->
  parsePort scheme (decimalOfN n) = Some (Some n).
Proof.
  unfold parsePort. destruct (forallb isAsciiDigit digits); [| discriminate].
  destruct digits as [|d digits]; [discriminate |].
  set (p := decimalValue (d :: digits)).
  destruct (65535 <? p)%N eqn:Hp; [discriminate |].
  intros H.
  assert (Hn : n = p /\ match defaultPort scheme with
                        | Some d' => N.eqb d' p = false
                        | None => True
                        end).
  { destruct (defaultPort scheme) as [d'|].
    - destruct (N.eqb d' p) eqn:E; [discriminate |].
      injection H as <-. split; reflexivity.
    - injection H as <-. split; reflexivity. }
  destruct Hn as [-> Hdefault].
  unfold decimalOfN. rewrite codesOfUint_digits. fold (decimalOfN p).
  pose proof (decimalOfN_nonempty p) as Hne.
  destruct (decimalOfN p) as [|d0 ds] eqn:Hdec; [contradiction |].
  rewrite <- Hdec, decimalValue_decimalOfN, Hp.
  destruct (defaultPort scheme) as [d'|]; [rewrite Hdefault |]; reflexivity.
Qed.

Lemma parseOpaquePath_no_end (s : list N) :
  Forall (fun c => isPathEnd c = false) (parseOpaquePath s).
Proof.
  induction s as [|c s IH]; [constructor |].
  cbn [parseOpaquePath].
  destruct (isPathEnd c) eqn:Hc; [constructor |].
  destruct (N.eqb c 32) eqn:Hsp.
  - destruct s as [|d s']; [repeat constructor |].
    apply Forall_app. split; [| exact IH].
    destruct (isPathEnd d); repeat constructor.
  - apply Forall_app. split; [| exact IH].
    unfold utf8PercentEncode. destruct (inC0ControlSet c).
    + eapply Forall_impl; [apply (percentEncoded_pathCharOK false) |].
      intros x. apply pathCharOK_not_end.
    + constructor; [exact Hc | constructor].
Qed.


Section ParserFacts.

Variable hostParser : bool -> list N -> option jsstring.

Lemma parseAuthority_inv (scheme0 : jsstring) (special : bool) (s : list N)
    (u : URLRecord) :
  parseAuthority hostParser scheme0 special s = Some u ->
  exists h p rest,
    u = mkURL scheme0 (Some h) p (ListPath (parsePathStart special false rest))
    /\ match p with
       | Some n => exists digits, parsePort scheme0 digits = Some (Some n)
       | None => True
       end.
Proof.
  unfold parseAuthority.
  destruct (span _ s) as [authority rest].
  destruct (hostportOf authority) as [hostport|]; [| discriminate].
  destruct (splitHostPort false hostport) as [hostname [digits|]].
  - destruct hostname as [|c hostname]; [discriminate |].
    destruct (hostParser (negb special) (c :: hostname)) as [h|]; [| discriminate].
    destruct (parsePort scheme0 digits) as [p|] eqn:Hport; [| discriminate].
    intros [= <-]. exists h, p, rest. split; [reflexivity |].
    destruct p as [n|]; [exists digits; exact Hport | exact I].
  - destruct (special && negb (truthy_str hostname)); [discriminate |].
    destruct (hostParser (negb special) hostname) as [h|]; [| discriminate].
    intros [= <-]. exists h, None, rest. split; [reflexivity | exact I].
Qed.

Lemma listPathOK_start (special isFile : bool) (scheme0 : jsstring)
    (h : option jsstring) (p : option N) (s : list N) :
  listPathOK special
    (mkURL scheme0 h p (ListPath (parsePathStart special isFile s))).
Proof.
  eexists. split; [reflexivity |].
  split; [apply parsePathStart_segmentOK | apply parsePathStart_notDot].
Qed.

Lemma listPathOK_path (special isFile : bool) (scheme0 : jsstring)
    (h : option jsstring) (p : option N) (s : list N) :
  listPathOK special
    (mkURL scheme0 h p (ListPath (parsePath special isFile [] [] s))).
Proof.
  eexists. split; [reflexivity |].
  split; [apply parsePath_segmentOK | apply parsePath_notDot]; constructor.
Qed.

Lemma parseFile_inv (s : list N) (u : URLRecord) :
  parseFile hostParser s = Some u ->
  scheme u = js "file" /\ listPathOK true u.
Proof.
  assert (Hpath : forall h s',
             scheme (fileURL h (parsePath true true [] [] s')) = js "file"
             /\ listPathOK true (fileURL h (parsePath true true [] [] s'))).
  { intros h s'. split; [reflexivity | apply listPathOK_path]. }
  assert (Hstart : forall h s',
             scheme (fileURL h (parsePathStart true true s')) = js "file"
             /\ listPathOK true (fileURL h (parsePathStart true true s'))).
  { intros h s'. split; [reflexivity | apply listPathOK_start]. }
  unfold parseFile, parseFileHost.
  destruct s as [|c s1].
  { intros H. injection H as <-. apply (Hpath [] []). }
  destruct (isSlashOrBackslash c).
  2:{ intros H. injection H as <-. apply (Hpath [] (c :: s1)). }
  destruct s1 as [|d s2].
  { intros H. injection H as <-. apply (Hpath [] []). }
  destruct (isSlashOrBackslash d).
  2:{ intros H. injection H as <-. apply (Hpath [] (d :: s2)). }
  destruct (span _ s2) as [buffer rest].
  destruct (isWindowsDriveLetter buffer).
  { intros H. injection H as <-. apply (Hpath [] (buffer ++ rest)). }
  destruct buffer as [|b buffer].
  { intros H. injection H as <-. apply (Hstart [] rest). }
  destruct (hostParser false (b :: buffer)) as [h|]; [| discriminate].
  intros H. injection H as <-. apply Hstart.
Qed.

(** The three shapes of a parsed URL. *)
Lemma basicParse_inv (input : list N) (u : URLRecord) :
  basicParse hostParser input = Some u ->
  (hasTupleOrigin (scheme u) = true
   /\ exists s, parseAuthority hostParser (scheme u) true s = Some u)
  \/ (hasTupleOrigin (scheme u) = false
      /\ exists special, listPathOK special u)
  \/ (hasTupleOrigin (scheme u) = false
      /\ exists s, path u = OpaquePath (parseOpaquePath s)).
Proof.
  unfold basicParse.
  destruct (parseScheme (stripInput input)) as [[scheme0 remaining]|];
    [| discriminate].
  destruct (jsstring_eqb scheme0 (js "file")) eqn:Hfile.
  { intros H. apply parseFile_inv in H as [Hs Hp]. right. left.
    rewrite Hs. split; [reflexivity | exists true; exact Hp]. }
  unfold isSpecialScheme. rewrite Hfile. cbn [orb].
  destruct (hasTupleOrigin scheme0) eqn:Htuple.
  { intros H. left.
    destruct (parseAuthority_inv _ _ _ _ H) as (h & p & rest & -> & _).
    cbn [scheme]. split; [exact Htuple |].
    eexists. exact H. }
  assert (Hauth : forall s,
             parseAuthority hostParser scheme0 false s = Some u ->
             hasTupleOrigin (scheme u) = false
             /\ exists special, listPathOK special u).
  { intros s H.
    destruct (parseAuthority_inv _ _ _ _ H) as (h & p & rest & -> & _).
    split; [exact Htuple |]. exists false. apply listPathOK_start. }
  assert (Hlist : forall s,
             hasTupleOrigin scheme0 = false
             /\ exists special,
                 listPathOK special
                   (mkURL scheme0 None None
                      (ListPath (parsePath false false [] [] s)))).
  { intros s. split; [exact Htuple |]. exists false. apply listPathOK_path. }
  assert (Hopaque : forall s,
             hasTupleOrigin scheme0 = false
             /\ exists s',
                 path (mkURL scheme0 None None (OpaquePath (parseOpaquePath s)))
                 = OpaquePath (parseOpaquePath s')).
  { intros s. split; [exact Htuple |]. exists s. reflexivity. }
  destruct remaining as [|c r1].
  { intros H. injection H as <-. right. right. apply (Hopaque []). }
  destruct (N.eqb c c_slash).
  2:{ intros H. injection H as <-. right. right. apply (Hopaque (c :: r1)). }
  destruct r1 as [|d r2].
  { intros H. injection H as <-. right. left. apply (Hlist []). }
  destruct (N.eqb d c_slash).
  - intros H. right. left. eapply Hauth, H.
  - intros H. injection H as <-. right. left. apply (Hlist (d :: r2)).
Qed.

Lemma pathname_listPath (u : URLRecord) (segments : list jsstring) :
  path u = ListPath segments -> pathname u = serializeSegments segments.
Proof. unfold pathname. intros ->. reflexivity. Qed.

Lemma serializeSegments_no_end (special : bool) (segments : list jsstring) :
  Forall (segmentOK special) segments ->
  Forall (fun c => isPathEnd c = false) (serializeSegments segments).
Proof.
  induction 1 as [|segment segments Hseg Hsegs IH]; [constructor |].
  cbn [serializeSegments flat_map]. constructor; [reflexivity |].
  apply Forall_app. split; [| exact IH].
  eapply Forall_impl; [exact Hseg |]. intros c. apply pathCharOK_not_end.
Qed.

(** Neither "?" nor "#" is left in the path name of a parsed URL. *)
Lemma pathname_no_end (input : list N) (u : URLRecord) :
  basicParse hostParser input = Some u ->
  Forall (fun c => isPathEnd c = false) (pathname u).
Proof.
  intros H. destruct (basicParse_inv _ _ H)
    as [[_ [s Hs]] | [[_ [special Hp]] | [_ [s Hs]]]].
  - destruct (parseAuthority_inv _ _ _ _ Hs) as (h & p & rest & -> & _).
    unfold pathname. cbn [path]. fold (serializeSegments (parsePathStart true false rest)).
    apply (serializeSegments_no_end true), parsePathStart_segmentOK.
  - destruct Hp as (segments & Hpath & Hok & _).
    rewrite (pathname_listPath _ _ Hpath).
    apply (serializeSegments_no_end special), Hok.
  - unfold pathname. rewrite Hs. apply parseOpaquePath_no_end.
Qed.

End ParserFacts.


Lemma hasTupleOrigin_cases (scheme0 : jsstring) :
  hasTupleOrigin scheme0 = true ->
  In scheme0 [js "ftp"; js "http"; js "https"; js "ws"; js "wss"].
Proof.
  unfold hasTupleOrigin. intros H. apply existsb_exists in H as [x [Hx Heq]].
  apply jsstring_eqb_eq in Heq. subst x. exact Hx.
Qed.

(** The scheme state reads back the scheme of a tuple origin. *)
Lemma parseScheme_tuple (scheme0 : jsstring) (s : list N) :
  hasTupleOrigin scheme0 = true ->
  parseScheme (scheme0 ++ c_colon :: s) = Some (scheme0, s)
  /\ jsstring_eqb scheme0 (js "file") = false
  /\ jsstring_eqb scheme0 (js "blob") = false
  /\ printable scheme0.
Proof.
  intros H. apply hasTupleOrigin_cases in H. simpl in H.
  repeat (destruct H as [<- | H];
          [repeat split; try reflexivity; repeat constructor |]).
  destruct H.
Qed.

Lemma hostShape_facts (h : jsstring) :
  hostShape h = true ->
  h <> []
  /\ printable h
  /\ Forall (fun c => negb (isAuthorityEnd true c) = true) h
  /\ Forall (fun c => N.eqb c c_at = false) h
  /\ colonFree false h = true.
Proof.
  unfold hostShape. intros H.
  apply andb_true_iff in H as [H Hcolon].
  apply andb_true_iff in H as [Hne Hall].
  rewrite forallb_forall in Hall.
  split; [apply truthy_str_nonempty, Hne |].
  repeat split; try exact Hcolon; apply Forall_forall; intros c Hc;
    apply list_elem_of_In, Hall in Hc;
    apply andb_true_iff in Hc as [Hc H3];
    apply andb_true_iff in Hc as [H1 H2];
    [exact H1 | exact H2 | apply negb_true_iff, H3].
Qed.

Lemma digit_facts (c : N) :
  isAsciiDigit c = true ->
  urlChar c = true /\ negb (isAuthorityEnd true c) = true
  /\ N.eqb c c_at = false.
Proof.
  unfold isAsciiDigit, urlChar, isAuthorityEnd. intros H. code_tests H.
  repeat split; code_goal; lia.
Qed.

Lemma serializePort_facts (p : option N) :
  printable (serializePort p)
  /\ Forall (fun c => negb (isAuthorityEnd true c) = true) (serializePort p)
  /\ Forall (fun c => N.eqb c c_at = false) (serializePort p).
Proof.
  destruct p as [n|]; simpl; [| repeat split; constructor].
  pose proof (decimalOfN_digits n) as H.
  repeat split; (constructor; [reflexivity |]);
    (eapply Forall_impl; [exact H |]); intros c Hc; apply digit_facts, Hc.
Qed.

Section Reparse.

Variable hostParser : bool -> list N -> option jsstring.

(** A URL with a tuple origin and a stable host is parsed back from its
    origin followed by its path name. *)
Lemma basicParse_tuple_serialized (u : URLRecord) (s : list N) :
  hasTupleOrigin (scheme u) = true ->
  parseAuthority hostParser (scheme u) true s = Some u ->
  (forall h, host u = Some h -> hostStable hostParser h) ->
  origin hostParser u = tupleOrigin u
  /\ basicParse hostParser (toUSV (tupleOrigin u ++ pathname u)) = Some u.
Proof.
  intros Htuple Hparsed Hhost.
  destruct (parseAuthority_inv _ _ _ _ _ Hparsed) as (h & p & rest & Hu & Hport).
  set (segments := parsePathStart true false rest) in *.
  assert (Hok : Forall (segmentOK true) segments)
    by apply parsePathStart_segmentOK.
  assert (Hdot : Forall notDot segments) by apply parsePathStart_notDot.
  assert (Hne : segments <> []).
  { unfold segments, parsePathStart. destruct rest as [|c rest'].
    - apply parsePath_nonempty.
    - destruct (isSlashOrBackslash c); apply parsePath_nonempty. }
  rewrite Hu in *. cbn [scheme host] in *. clear Hu Hparsed.
  set (scheme0 := scheme u) in *.
  destruct (Hhost h eq_refl) as [Hstable Hshape].
  destruct (hostShape_facts h Hshape) as (Hh & Hhp & Hhe & Hha & Hhc).
  destruct (serializePort_facts p) as (Hpp & Hpe & Hpa).
  unfold origin, tupleOrigin, serializeHostPort, pathname.
  cbn [scheme host port path].
  fold (serializePort p). fold (serializeSegments segments).
  set (pathstr := serializeSegments segments).
  destruct (parseScheme_tuple scheme0 (js "//" ++ (h ++ serializePort p) ++ pathstr) Htuple)
    as (Hscheme & Hfile & Hblob & Hsp).
  rewrite Hblob, Htuple. split; [reflexivity |].
  assert (Hpathp : printable pathstr) by apply (printable_segments true), Hok.
  replace ((scheme0 ++ js "://" ++ h ++ serializePort p) ++ pathstr)
    with (scheme0 ++ c_colon :: js "//" ++ (h ++ serializePort p) ++ pathstr)
    by (rewrite <- !app_assoc; reflexivity).
  assert (Hprintable :
            printable (scheme0 ++ c_colon :: js "//" ++ (h ++ serializePort p) ++ pathstr)).
  { apply printable_app; [exact Hsp |].
    constructor; [reflexivity |]. constructor; [reflexivity |].
    constructor; [reflexivity |].
    apply printable_app; [apply printable_app |]; assumption. }
  rewrite toUSV_printable by exact Hprintable.
  unfold basicParse. rewrite stripInput_printable by exact Hprintable.
  rewrite Hscheme, Hfile.
  unfold isSpecialScheme. rewrite Htuple, orb_true_r.
  assert (Hdrop : dropWhile isSlashOrBackslash
                    (js "//" ++ (h ++ serializePort p) ++ pathstr)
                  = (h ++ serializePort p) ++ pathstr).
  { destruct h as [|c h']; [contradiction |].
    inversion Hhe as [|? ? Hc _]; subst.
    change (js "//") with [c_slash; c_slash]. cbn [app dropWhile].
    replace (isSlashOrBackslash c_slash) with true by reflexivity.
    replace (isSlashOrBackslash c) with false; [reflexivity |].
    symmetry. unfold isSlashOrBackslash, isAuthorityEnd in *.
    cbn [andb] in Hc. code_tests Hc. code_goal. lia. }
  rewrite Hdrop. unfold parseAuthority.
  rewrite span_app.
  2:{ apply Forall_app. split; assumption. }
  2:{ unfold pathstr. destruct segments as [|seg segs]; [exact I | reflexivity]. }
  rewrite hostportOf_without_at by (apply Forall_app; split; assumption).
  destruct (splitHostPort_colonFree h false Hhc) as [Hnoport Hwithport].
  assert (Hpath : parsePathStart true false pathstr = segments).
  { apply parsePathStart_serialized; [intros _; exact Hne | exact Hok | exact Hdot]. }
  rewrite Hpath.
  destruct p as [n|]; cbn [serializePort].
  - rewrite Hwithport. cbn [negb]. rewrite Hstable.
    destruct h as [|c h']; [contradiction |].
    destruct Hport as [digits Hdigits].
    rewrite (parsePort_decimalOfN _ _ _ Hdigits). reflexivity.
  - rewrite app_nil_r, Hnoport. cbn [negb]. rewrite Hstable.
    replace (truthy_str h) with true
      by (symmetry; apply truthy_str_nonempty, Hh).
    reflexivity.
Qed.

(** A path in segments behind the opaque origin "null" is not a URL. *)
Lemma basicParse_null_segments (special : bool) (segments : list jsstring) :
  Forall (segmentOK special) segments ->
  basicParse hostParser (toUSV (js "null" ++ serializeSegments segments)) = None
  /\ basicParse hostParser (toUSV (serializeSegments segments)) = None.
Proof.
  intros Hok.
  pose proof (printable_segments special segments Hok) as Hp.
  assert (Hnull : printable (js "null")) by repeat constructor.
  rewrite !toUSV_printable by (try apply printable_app; assumption).
  unfold basicParse.
  rewrite !stripInput_printable by (try apply printable_app; assumption).
  destruct segments as [|seg segs]; split; reflexivity.
Qed.

End Reparse.


(** ** What follows the first "?" or "#" *)

Lemma beforeQuery_frontOK (x : jsstring) : beforeQuery x -> frontOK x.
Proof.
  unfold beforeQuery. intros H. rewrite forallb_forall in H.
  apply Forall_forall. intros c Hc. apply list_elem_of_In, H in Hc.
  apply andb_true_iff in Hc as [H1 H2]. apply negb_true_iff in H2.
  split; assumption.
Qed.

Lemma frontOK_printable (x : jsstring) : frontOK x -> printable x.
Proof. intros H. eapply Forall_impl; [exact H |]. intros c [Hc _]. exact Hc. Qed.

Lemma isPathEnd_facts (c : N) :
  isPathEnd c = true ->
  urlChar c = true /\ isSchemeChar c = false /\ N.eqb c c_colon = false
  /\ isAsciiAlpha c = false /\ isSlashOrBackslash c = false
  /\ N.eqb c c_slash = false
  /\ forall special, isAuthorityEnd special c = true
                     /\ isPathSeparator special c = false.
Proof.
  unfold isPathEnd. intros H. apply orb_true_iff in H.
  destruct H as [H | H]; apply N.eqb_eq in H; subst c;
    repeat split; try reflexivity; destruct special; reflexivity.
Qed.

Lemma toUSV_printable_app (x : jsstring) (s : jsstring) :
  printable x -> toUSV (x ++ s) = x ++ toUSV s.
Proof.
  induction 1 as [|c x Hc Hx IH]; [reflexivity |].
  cbn [app toUSV].
  assert (Hhi : isHighSurrogate c = false).
  { unfold isHighSurrogate, urlChar in *. code_tests Hc. code_goal. lia. }
  assert (Hlo : isLowSurrogate c = false).
  { unfold isLowSurrogate, urlChar in *. code_tests Hc. code_goal. lia. }
  rewrite Hhi, Hlo, IH. reflexivity.
Qed.

Lemma dropWhile_app_stop (p : N -> bool) (a : jsstring) (c : N) (b : jsstring) :
  p c = false -> dropWhile p (a ++ c :: b) = dropWhile p a ++ c :: b.
Proof.
  intros Hc. induction a as [|d a IH]; simpl.
  - rewrite Hc. reflexivity.
  - destruct (p d); [exact IH | reflexivity].
Qed.

Lemma filter_printable (x : jsstring) :
  printable x -> List.filter (fun c => negb (isTabOrNewline c)) x = x.
Proof.
  induction 1 as [|c x Hc Hx IH]; [reflexivity |].
  simpl. replace (isTabOrNewline c) with false.
  - simpl. f_equal. exact IH.
  - symmetry. unfold isTabOrNewline, urlChar in *.
    code_tests Hc. code_goal. lia.
Qed.

(** Stripping keeps a printable front and the printable code point after
    it. *)
Lemma stripInput_front (x : jsstring) (c : N) (s : list N) :
  printable x -> urlChar c = true ->
  exists s', stripInput (x ++ c :: s) = x ++ c :: s'.
Proof.
  intros Hx Hc.
  assert (Hcs : isC0OrSpace c = false).
  { unfold isC0OrSpace, urlChar in *. code_tests Hc. code_goal. lia. }
  assert (Hct : isTabOrNewline c = false).
  { unfold isTabOrNewline, urlChar in *. code_tests Hc. code_goal. lia. }
  unfold stripInput.
  assert (Hlead : dropWhile isC0OrSpace (x ++ c :: s) = x ++ c :: s).
  { destruct x as [|d x]; simpl.
    - rewrite Hcs. reflexivity.
    - inversion Hx as [|? ? Hd _]; subst.
      replace (isC0OrSpace d) with false; [reflexivity |].
      symmetry. unfold isC0OrSpace, urlChar in *.
      code_tests Hd. code_goal. lia. }
  rewrite Hlead, rev_app_distr. cbn [rev]. rewrite <- app_assoc. cbn [app].
  rewrite dropWhile_app_stop by exact Hcs.
  rewrite rev_app_distr. cbn [rev]. rewrite rev_involutive.
  rewrite !List.filter_app, (filter_printable x Hx). cbn [List.filter].
  rewrite Hct. cbn [negb]. rewrite <- app_assoc. cbn [app].
  eexists. reflexivity.
Qed.

Lemma span_app_stop (p : N -> bool) (a : jsstring) (c : N) (b : jsstring) :
  p c = false ->
  span p (a ++ c :: b) = ((span p a).1, (span p a).2 ++ c :: b).
Proof.
  intros Hc. induction a as [|d a IH]; simpl.
  - rewrite Hc. reflexivity.
  - destruct (p d); [| reflexivity].
    rewrite IH. destruct (span p a) as [taken rest]. reflexivity.
Qed.

Lemma span_decompose (p : N -> bool) (s : jsstring) :
  s = (span p s).1 ++ (span p s).2.
Proof.
  induction s as [|c s IH]; simpl; [reflexivity |].
  destruct (p c); [| reflexivity].
  destruct (span p s) as [taken rest]. simpl in *. f_equal. exact IH.
Qed.

Lemma frontOK_app (a b : jsstring) :
  frontOK (a ++ b) -> frontOK a /\ frontOK b.
Proof. apply Forall_app. Qed.

Lemma frontOK_span (p : N -> bool) (s : jsstring) :
  frontOK s -> frontOK (span p s).2.
Proof.
  intros H. rewrite (span_decompose p s) in H.
  apply frontOK_app in H as [_ H]. exact H.
Qed.

Section AfterPathEnd.

Variable hostParser : bool -> list N -> option jsstring.
Variable c : N.
Variable t : list N.
Hypothesis Hend : isPathEnd c = true.

Lemma parseScheme_front (x : jsstring) :
  parseScheme (x ++ c :: t)
  = match parseScheme x with
    | Some (scheme0, remaining) => Some (scheme0, remaining ++ c :: t)
    | None => None
    end.
Proof.
  destruct (isPathEnd_facts c Hend) as (_ & Hscheme & Hcolon & Halpha & _).
  unfold parseScheme. destruct x as [|d x]; cbn [app].
  - rewrite Halpha. reflexivity.
  - destruct (isAsciiAlpha d); [| reflexivity].
    change (d :: x ++ c :: t) with ((d :: x) ++ c :: t).
    rewrite span_app_stop by exact Hscheme.
    destruct (span isSchemeChar (d :: x)) as [buffer rest]. cbn [fst snd].
    destruct rest as [|e rest]; cbn [app].
    + rewrite Hcolon. reflexivity.
    + destruct (N.eqb e c_colon); reflexivity.
Qed.

Lemma parseScheme_remaining (x : jsstring) (scheme0 : jsstring)
    (remaining : list N) :
  frontOK x -> parseScheme x = Some (scheme0, remaining) ->
  frontOK remaining.
Proof.
  intros Hx. unfold parseScheme. destruct x as [|d x]; [discriminate |].
  destruct (isAsciiAlpha d); [| discriminate].
  pose proof (frontOK_span isSchemeChar (d :: x) Hx) as Hrest.
  destruct (span isSchemeChar (d :: x)) as [buffer rest]. cbn [snd] in Hrest.
  destruct rest as [|e rest]; [discriminate |].
  destruct (N.eqb e c_colon); [| discriminate].
  intros [= _ <-]. inversion Hrest; assumption.
Qed.

Lemma parsePath_front (special isFile : bool) (r : jsstring)
    (path0 : list jsstring) (buffer : jsstring) :
  frontOK r ->
  parsePath special isFile path0 buffer (r ++ c :: t)
  = parsePath special isFile path0 buffer r.
Proof.
  destruct (isPathEnd_facts c Hend) as (_ & _ & _ & _ & _ & _ & Hsp).
  intros Hr. revert path0 buffer.
  induction Hr as [|d r [_ Hd] Hr IH]; intros path0 buffer; cbn [app parsePath].
  - destruct (Hsp special) as [_ ->]. rewrite Hend. reflexivity.
  - rewrite Hd. destruct (isPathSeparator special d); apply IH.
Qed.

Lemma parsePathStart_front (special isFile : bool) (r : jsstring) :
  frontOK r ->
  parsePathStart special isFile (r ++ c :: t) = parsePathStart special isFile r.
Proof.
  destruct (isPathEnd_facts c Hend) as (_ & _ & _ & _ & Hslash & _).
  intros Hr. unfold parsePathStart. destruct Hr as [|d r [Hp Hd] Hr]; cbn [app].
  - destruct special.
    + rewrite Hslash. apply (parsePath_front true isFile [] [] []). constructor.
    + rewrite Hend. reflexivity.
  - destruct special.
    + destruct (isSlashOrBackslash d).
      * apply parsePath_front, Hr.
      * apply (parsePath_front true isFile (d :: r) [] []).
        constructor; [split; [assumption | exact Hd] | exact Hr].
    + rewrite Hd. destruct (N.eqb d c_slash).
      * apply parsePath_front, Hr.
      * apply (parsePath_front false isFile (d :: r) [] []).
        constructor; [split; [assumption | exact Hd] | exact Hr].
Qed.

Lemma parseOpaquePath_front (r : jsstring) :
  frontOK r -> parseOpaquePath (r ++ c :: t) = parseOpaquePath r.
Proof.
  induction 1 as [|d r [Hp Hd] Hr IH]; cbn [app parseOpaquePath].
  - rewrite Hend. reflexivity.
  - rewrite Hd.
    replace (N.eqb d 32) with false.
    + rewrite IH. reflexivity.
    + symmetry. unfold urlChar in Hp. code_tests Hp. code_goal. lia.
Qed.

Lemma parseAuthority_front (scheme0 : jsstring) (special : bool)
    (r : jsstring) :
  frontOK r ->
  parseAuthority hostParser scheme0 special (r ++ c :: t)
  = parseAuthority hostParser scheme0 special r.
Proof.
  destruct (isPathEnd_facts c Hend) as (_ & _ & _ & _ & _ & _ & Hsp).
  intros Hr. unfold parseAuthority.
  rewrite span_app_stop by (destruct (Hsp special) as [-> _]; reflexivity).
  pose proof (frontOK_span
                (fun c0 => negb (isAuthorityEnd special c0)) r Hr) as Hrest.
  destruct (span _ r) as [authority rest]. cbn [fst snd] in *.
  rewrite (parsePathStart_front special false rest Hrest). reflexivity.
Qed.

Lemma parseFileHost_front (r : jsstring) :
  frontOK r ->
  parseFileHost hostParser (r ++ c :: t) = parseFileHost hostParser r.
Proof.
  destruct (isPathEnd_facts c Hend) as (_ & _ & _ & _ & _ & _ & Hsp).
  intros Hr. unfold parseFileHost.
  rewrite span_app_stop by (destruct (Hsp true) as [-> _]; reflexivity).
  pose proof (frontOK_span
                (fun c0 => negb (isAuthorityEnd true c0)) r Hr) as Hrest.
  pose proof (span_decompose (fun c0 => negb (isAuthorityEnd true c0)) r)
    as Hsplit.
  destruct (span _ r) as [buffer rest]. cbn [fst snd] in *.
  rewrite (parsePathStart_front true true rest Hrest).
  rewrite app_assoc, <- Hsplit, (parsePath_front true true r [] [] Hr).
  reflexivity.
Qed.

Lemma parseFile_front (r : jsstring) :
  frontOK r ->
  parseFile hostParser (r ++ c :: t) = parseFile hostParser r.
Proof.
  destruct (isPathEnd_facts c Hend) as (_ & _ & _ & _ & Hslash & _).
  intros Hr. unfold parseFile.
  destruct Hr as [|d r1 Hd Hr1]; cbn [app].
  { rewrite Hslash.
    pose proof (parsePath_front true true [] [] [] ltac:(constructor)) as H0.
    cbn [app] in H0. rewrite H0. reflexivity. }
  destruct (isSlashOrBackslash d).
  2:{ change (d :: r1 ++ c :: t) with ((d :: r1) ++ c :: t).
      rewrite parsePath_front; [reflexivity |]. constructor; assumption. }
  destruct Hr1 as [|e r2 He Hr2]; cbn [app].
  { rewrite Hslash.
    pose proof (parsePath_front true true [] [] [] ltac:(constructor)) as H0.
    cbn [app] in H0. rewrite H0. reflexivity. }
  destruct (isSlashOrBackslash e).
  - apply parseFileHost_front, Hr2.
  - change (e :: r2 ++ c :: t) with ((e :: r2) ++ c :: t).
    rewrite parsePath_front; [reflexivity |]. constructor; assumption.
Qed.

End AfterPathEnd.

(** What follows the first "?" or "#" of a printable href does not reach
    the parsed scheme, host, port and path. *)
Lemma URL_ignores_query_fragment
    (hostParser : bool -> list N -> option jsstring)
    (x : jsstring) (c : N) (t : jsstring) :
  beforeQuery x -> isPathEnd c = true ->
  URL hostParser (x ++ c :: t) = URL hostParser x.
Proof.
  intros Hx Hend. apply beforeQuery_frontOK in Hx.
  pose proof (frontOK_printable x Hx) as Hp.
  destruct (isPathEnd_facts c Hend) as (Hc & _).
  unfold URL. rewrite (toUSV_printable x Hp), (toUSV_printable_app x _ Hp).
  assert (Htail : toUSV (c :: t) = c :: toUSV t).
  { apply orb_true_iff in Hend as [H | H]; apply N.eqb_eq in H; subst c;
      reflexivity. }
  rewrite Htail.
  destruct (stripInput_front x c (toUSV t) Hp Hc) as [t' Ht'].
  unfold basicParse. rewrite Ht', (stripInput_printable x Hp).
  rewrite (parseScheme_front c t' Hend).
  destruct (parseScheme x) as [[scheme0 remaining]|] eqn:Hscheme;
    [| reflexivity].
  pose proof (parseScheme_remaining x scheme0 remaining Hx Hscheme) as Hrem.
  destruct (jsstring_eqb scheme0 (js "file")).
  { apply parseFile_front; assumption. }
  destruct (isSpecialScheme scheme0).
  { assert (Hdrop : forall r, frontOK r ->
               dropWhile isSlashOrBackslash (r ++ c :: t')
               = dropWhile isSlashOrBackslash r ++ c :: t'
               /\ frontOK (dropWhile isSlashOrBackslash r)).
    { destruct (isPathEnd_facts c Hend) as (_ & _ & _ & _ & Hslash & _).
      induction 1 as [|d r Hd Hr [IH1 IH2]]; simpl.
      - rewrite Hslash. split; [reflexivity | constructor].
      - destruct (isSlashOrBackslash d).
        + split; assumption.
        + split; [reflexivity | constructor; assumption]. }
    destruct (Hdrop remaining Hrem) as [-> Hrem'].
    apply parseAuthority_front; assumption. }
  destruct Hrem as [|d r1 Hd Hr1]; cbn [app].
  { destruct (isPathEnd_facts c Hend) as (_ & _ & _ & _ & _ & -> & _).
    pose proof (parseOpaquePath_front c t' Hend [] ltac:(constructor)) as H0.
    cbn [app] in H0. rewrite H0. reflexivity. }
  destruct (N.eqb d c_slash).
  2:{ change (d :: r1 ++ c :: t') with ((d :: r1) ++ c :: t').
      rewrite (parseOpaquePath_front c t' Hend); [reflexivity |].
      constructor; assumption. }
  destruct Hr1 as [|e r2 He Hr2]; cbn [app].
  { destruct (isPathEnd_facts c Hend) as (_ & _ & _ & _ & _ & -> & _).
    pose proof (parsePath_front c t' Hend false false [] [] []
                  ltac:(constructor)) as H0.
    cbn [app] in H0. rewrite H0. reflexivity. }
  destruct (N.eqb e c_slash).
  - apply parseAuthority_front; assumption.
  - change (e :: r2 ++ c :: t') with ((e :: r2) ++ c :: t').
    rewrite (parsePath_front c t' Hend); [reflexivity |].
    constructor; assumption.
Qed.

(** ** C8: [normalizeHref] *)

(** C8.  [normalizeHref] is a total function, so it never throws.  When
    [new URL(href)] succeeds the result is the origin of the URL followed
    by its path name, and the path name holds neither the "?" that
    starts a query nor the "#" that starts a fragment; when it throws
    the result is [href] itself.  A query string and a fragment are
    stripped: appending "?" or "#" and anything after it to a printable
    href that is a URL and has neither does not change the result. *)
Theorem normalizeHref_spec :
  forall (hostParser : bool -> list N -> option jsstring),
    (forall href : jsstring,
        match URL hostParser href with
        | Some u =>
            normalizeHref hostParser href = origin hostParser u ++ pathname u
            /\ ~ In c_question (pathname u)
            /\ ~ In c_hash (pathname u)
        | None => normalizeHref hostParser href = href
        end)
    /\ (forall (x : jsstring) (c : N) (t : jsstring) (u : URLRecord),
          beforeQuery x -> isPathEnd c = true ->
          URL hostParser x = Some u ->
          normalizeHref hostParser (x ++ c :: t)
          = origin hostParser u ++ pathname u).
Proof.
  intros hostParser. split.
  - intros href. unfold normalizeHref.
    destruct (URL hostParser href) as [u|] eqn:Hurl.
    + split; [reflexivity |].
      pose proof (pathname_no_end _ _ _ Hurl) as Hend.
      rewrite Forall_forall in Hend.
      split; intros Hin; apply list_elem_of_In, Hend in Hin; discriminate.
    + apply text_or_empty.
  - intros x c t u Hx Hc Hurl. unfold normalizeHref.
    rewrite (URL_ignores_query_fragment hostParser x c t Hx Hc), Hurl.
    reflexivity.
Qed.

Lemma normalizeHref_spec_witness :
  normalizeHref letterHostParser (js "https://s.kz/p" ++ c_question :: js "x=1#y")
  = js "https://s.kz/p"
  /\ normalizeHref letterHostParser (js "no scheme") = js "no scheme".
Proof.
  destruct (normalizeHref_spec letterHostParser) as [Hshape Hstrip].
  split.
  - rewrite (Hstrip (js "https://s.kz/p") c_question (js "x=1#y")
               (mkURL (js "https") (Some (js "s.kz")) None (ListPath [js "p"])));
      vm_compute; reflexivity.
  - specialize (Hshape (js "no scheme")).
    replace (URL letterHostParser (js "no scheme")) with (@None URLRecord)
      in Hshape by (vm_compute; reflexivity).
    exact Hshape.
Defined.

(** ** C9: idempotence of [normalizeHref] *)

(** C9, as stated, fails: "a:b:c" is a URL with the opaque origin "null"
    and the opaque path "b:c", so it is normalized to "nullb:c"; that is
    again a URL, with the scheme "nullb" and the path "c", and it is
    normalized to "nullc". *)
Lemma normalizeHref_opaque_path_counterexample :
  normalizeHref letterHostParser (js "a:b:c") = js "nullb:c"
  /\ normalizeHref letterHostParser
       (normalizeHref letterHostParser (js "a:b:c")) = js "nullc"
  /\ normalizeHref letterHostParser
       (normalizeHref letterHostParser (js "a:b:c"))
     <> normalizeHref letterHostParser (js "a:b:c").
Proof.
  split; [vm_compute; reflexivity |].
  split; [vm_compute; reflexivity |].
  vm_compute. discriminate.
Qed.

Lemma normalizeHref_fixed (hostParser : bool -> list N -> option jsstring)
    (key : jsstring) :
  URL hostParser key = None -> normalizeHref hostParser key = key.
Proof.
  intros H. unfold normalizeHref. rewrite H. apply text_or_empty.
Qed.

(** C9, amended.  [normalizeHref] is idempotent on every href that is not
    a URL, and on every href that is a URL whose path is a list of
    segments (not an opaque path), given, when the origin is a tuple
    (ftp, http, https, ws, wss), that the host parser reads the
    serialized host back as itself.  Two printable hrefs that are URLs
    and differ only in the query string and the fragment are normalized
    to the same key: whatever follows the first "?" or "#" does not
    count.  So, when the host parser accepts "s.kz", the hrefs
    "https://s.kz/p?x=1#y" and "https://s.kz/p?x=2" are both normalized
    to "https://s.kz/p". *)
Theorem normalizeHref_idempotent :
  forall (hostParser : bool -> list N -> option jsstring),
    (forall href : jsstring,
        URL hostParser href = None ->
        normalizeHref hostParser (normalizeHref hostParser href)
        = normalizeHref hostParser href)
    /\ (forall (href : jsstring) (u : URLRecord) (segments : list jsstring),
          URL hostParser href = Some u ->
          path u = ListPath segments ->
          (hasTupleOrigin (scheme u) = true ->
           forall h, host u = Some h -> hostStable hostParser h) ->
          normalizeHref hostParser (normalizeHref hostParser href)
          = normalizeHref hostParser href)
    /\ (forall (x : jsstring) (c1 c2 : N) (t1 t2 : jsstring),
          beforeQuery x -> isPathEnd c1 = true -> isPathEnd c2 = true ->
          URL hostParser x <> None ->
          normalizeHref hostParser (x ++ c1 :: t1) = normalizeHref hostParser x
          /\ normalizeHref hostParser (x ++ c1 :: t1)
             = normalizeHref hostParser (x ++ c2 :: t2))
    /\ (hostParser false (js "s.kz") = Some (js "s.kz") ->
        normalizeHref hostParser (js "https://s.kz/p?x=1#y") = js "https://s.kz/p"
        /\ normalizeHref hostParser (js "https://s.kz/p?x=2") = js "https://s.kz/p").
Proof.
  intros hostParser. split; [| split; [| split]].
  - intros href Hurl. rewrite (normalizeHref_fixed _ _ Hurl).
    apply normalizeHref_fixed, Hurl.
  - intros href u segments Hurl Hpath Hhost.
    assert (Hn : normalizeHref hostParser href
                 = origin hostParser u ++ pathname u).
    { unfold normalizeHref. rewrite Hurl. reflexivity. }
    rewrite Hn.
    destruct (basicParse_inv _ _ _ Hurl)
      as [[Htuple [s Hs]] | [[Htuple [special Hp]] | [_ [s Hs]]]].
    + destruct (basicParse_tuple_serialized hostParser u s Htuple Hs
                  (Hhost Htuple)) as [Horigin Hparse].
      rewrite Horigin. unfold normalizeHref at 1. unfold URL.
      rewrite Hparse, Horigin. reflexivity.
    + destruct Hp as (segs & Hsegs & Hok & _).
      rewrite (pathname_listPath _ _ Hsegs).
      destruct (basicParse_null_segments hostParser special segs Hok)
        as [Hnull Hblob].
      assert (Horigin : origin hostParser u = js "null").
      { unfold origin. rewrite Htuple, (pathname_listPath _ _ Hsegs), Hblob.
        destruct (jsstring_eqb (scheme u) (js "blob")); reflexivity. }
      rewrite Horigin. apply normalizeHref_fixed. exact Hnull.
    + rewrite Hs in Hpath. discriminate.
  - intros x c1 c2 t1 t2 Hx Hc1 Hc2 Hurl.
    assert (Hsame : forall c t, isPathEnd c = true ->
               normalizeHref hostParser (x ++ c :: t)
               = normalizeHref hostParser x).
    { intros c t Hc. unfold normalizeHref.
      rewrite (URL_ignores_query_fragment hostParser x c t Hx Hc).
      destruct (URL hostParser x); [reflexivity | contradiction]. }
    split; [apply Hsame, Hc1 |].
    rewrite (Hsame c1 t1 Hc1), (Hsame c2 t2 Hc2). reflexivity.
  - intros Hhost. vm_compute in Hhost.
    unfold normalizeHref, URL, basicParse.
    split.
    + cbv -[origin pathname parseAuthority]. unfold parseAuthority.
      cbv -[origin pathname]. rewrite Hhost. vm_compute. reflexivity.
    + cbv -[origin pathname parseAuthority]. unfold parseAuthority.
      cbv -[origin pathname]. rewrite Hhost. vm_compute. reflexivity.
Qed.

Lemma normalizeHref_idempotent_witness :
  normalizeHref letterHostParser
    (normalizeHref letterHostParser (js "https://s.kz/p?x=1#y"))
  = normalizeHref letterHostParser (js "https://s.kz/p?x=1#y")
  /\ normalizeHref letterHostParser
       (normalizeHref letterHostParser (js "ticketon.kz/almaty/event/1"))
     = normalizeHref letterHostParser (js "ticketon.kz/almaty/event/1")
  /\ normalizeHref letterHostParser (js "https://s.kz/p?x=1#y")
     = normalizeHref letterHostParser (js "https://s.kz/p?x=2")
  /\ normalizeHref letterHostParser
       (js "https://ticketon.kz/almaty/event/1" ++ c_hash :: js "top")
     = normalizeHref letterHostParser
         (js "https://ticketon.kz/almaty/event/1" ++ c_question :: js "utm=1").
Proof.
  destruct (normalizeHref_idempotent letterHostParser)
    as (Hfail & Hlist & Hquery & Hexample).
  split; [| split; [| split]].
  - apply (Hlist (js "https://s.kz/p?x=1#y")
             (mkURL (js "https") (Some (js "s.kz")) None (ListPath [js "p"]))
             [js "p"]).
    + vm_compute. reflexivity.
    + reflexivity.
    + intros _ h [= <-]. split; vm_compute; reflexivity.
  - apply Hfail. vm_compute. reflexivity.
  - destruct (Hexample ltac:(vm_compute; reflexivity)) as [-> ->].
    reflexivity.
  - apply Hquery; try (vm_compute; reflexivity).
    vm_compute. discriminate.
Defined.


(** * Further properties of the code *)

(** ** The digest as a polynomial *)

Lemma toInt32_shift (x : Z) : exists k, toInt32 x = x + k * 2 ^ 32.
Proof.
  exists (- ((x + 2 ^ 31) / 2 ^ 32)). unfold toInt32.
  pose proof (Z.div_mod (x + 2 ^ 31) (2 ^ 32) ltac:(lia)). lia.
Qed.

Lemma toInt32_small (x : Z) : - 2 ^ 31 <= x < 2 ^ 31 -> toInt32 x = x.
Proof.
  intros H. unfold toInt32. rewrite Z.mod_small by lia. lia.
Qed.

Lemma hash_loop_polyValue (str : jsstring) (h : Z) :
  toInt32 (hash_loop (toInt32 h) str)
  = toInt32 (h * 31 ^ Z.of_nat (length str) + polyValue str).
Proof.
  revert h. induction str as [|chr rest IH]; intros h.
  - simpl. rewrite Z.mul_1_r, Z.add_0_r. apply toInt32_mod.
    apply toInt32_congruent.
  - cbn [hash_loop polyValue length]. rewrite hash_step_31, IH.
    apply toInt32_mod. destruct (toInt32_shift h) as [k ->].
    rewrite Nat2Z.inj_succ, Z.pow_succ_r by lia.
    set (p := 31 ^ Z.of_nat (length rest)).
    replace ((31 * (h + k * 2 ^ 32) + Z.of_N chr) * p + polyValue rest)
      with (h * (31 * p) + (Z.of_N chr * p + polyValue rest)
            + (31 * k * p) * 2 ^ 32) by ring.
    apply Z_mod_plus_full.
Qed.

(** X1.  Truncating to 32 bits after every code unit, as [hash] does,
    gives the same digest as truncating once at the end: the digest is
    the decimal numeral of the polynomial in 31 whose coefficients are
    the code units, the first one with the highest power, reduced to a
    signed 32-bit integer. *)
Theorem hash_polynomial :
  forall str : jsstring, hash str = String_of_Z (toInt32 (polyValue str)).
Proof.
  intros str. unfold hash. destruct str as [|chr rest]; [reflexivity |].
  cbn [truthy_str negb]. f_equal.
  assert (Hr : - 2 ^ 31 <= hash_loop 0 (chr :: rest) < 2 ^ 31).
  { apply hash_loop_range. lia. }
  rewrite <- (toInt32_small _ Hr).
  change (hash_loop 0 (chr :: rest)) with (hash_loop (toInt32 0) (chr :: rest)).
  rewrite hash_loop_polyValue. reflexivity.
Qed.

(** ** The characters of a digest and the key of a detail page *)

Lemma codes_string_of_uint (u : Decimal.uint) :
  forallb isNumeralChar (js (NilEmpty.string_of_uint u)) = true.
Proof. induction u; simpl; try reflexivity; assumption. Qed.

Lemma String_of_Z_isNumeral (h : Z) : isNumeral (String_of_Z h) = true.
Proof.
  unfold String_of_Z.
  assert (Hu : forall u, isNumeral (js (NilZero.string_of_uint u)) = true).
  { intros u. unfold isNumeral. apply andb_true_iff. split.
    - destruct u; reflexivity.
    - destruct u; try reflexivity;
        apply (codes_string_of_uint (_ u)). }
  destruct (Z.to_int h) as [u|u]; cbn [NilZero.string_of_int].
  - apply Hu.
  - specialize (Hu u). unfold isNumeral in *.
    apply andb_true_iff in Hu as [_ Hu].
    change (js (String "-" (NilZero.string_of_uint u)))
      with (45%N :: js (NilZero.string_of_uint u)).
    cbn [truthy_str forallb]. rewrite Hu. reflexivity.
Qed.

Lemma hash_isNumeral (str : jsstring) : isNumeral (hash str) = true.
Proof.
  unfold hash. destruct (negb (truthy_str str)); [reflexivity |].
  apply String_of_Z_isNumeral.
Qed.

Lemma isNumeral_chars (v : jsstring) (c : N) :
  isNumeral v = true -> In c v -> isNumeralChar c = true.
Proof.
  unfold isNumeral. intros H Hin. apply andb_true_iff in H as [_ H].
  rewrite forallb_forall in H. apply H. exact Hin.
Qed.

Lemma app_sep_unique {A} (x : A) (l1 l2 r1 r2 : list A) :
  ~ In x r1 -> ~ In x r2 ->
  l1 ++ x :: r1 = l2 ++ x :: r2 -> l1 = l2 /\ r1 = r2.
Proof.
  intros H1 H2. revert l2. induction l1 as [|a l1 IH]; intros [|b l2] H.
  - injection H as H. auto.
  - injection H as <- H. exfalso. apply H1. rewrite H.
    apply in_or_app. right. left. reflexivity.
  - injection H as -> H. exfalso. apply H2. rewrite <- H.
    apply in_or_app. right. left. reflexivity.
  - injection H as <- H. destruct (IH l2 H) as [-> ->]. auto.
Qed.

(** X2.  A digest is a non-empty string of decimal digits and minus
    signs, so the key [`${norm}|${contentHash}`] of a detail page can be
    read in one way only: two such keys are equal only if the normalized
    hrefs are equal and the digests are equal, also when a normalized
    href contains "|". *)
Theorem detail_key_unambiguous :
  forall (norm1 norm2 str1 str2 : jsstring),
    norm1 ++ js "|" ++ hash str1 = norm2 ++ js "|" ++ hash str2 ->
    isNumeral (hash str1) = true
    /\ norm1 = norm2 /\ hash str1 = hash str2.
Proof.
  intros norm1 norm2 str1 str2 H. split; [apply hash_isNumeral |].
  revert H. change (js "|") with [124%N]. cbn [app].
  apply app_sep_unique; intros Hin;
    apply (isNumeral_chars _ _ (hash_isNumeral _)) in Hin; discriminate.
Qed.

Lemma detail_key_unambiguous_witness :
  isNumeral (hash (js "Kairat - Real")) = true
  /\ js "https://ticketon.kz/a|b" = js "https://ticketon.kz/a|b"
  /\ hash (js "Kairat - Real") = hash (js "Kairat - Real").
Proof.
  apply (detail_key_unambiguous (js "https://ticketon.kz/a|b")
           (js "https://ticketon.kz/a|b") (js "Kairat - Real")
           (js "Kairat - Real")).
  reflexivity.
Defined.

(** ** Pruning and the notification memory *)

Lemma State_eq (a b : State) :
  notified a = notified b -> lastHash a = lastHash b -> a = b.
Proof. destruct a, b. simpl. intros -> ->. reflexivity. Qed.

Lemma prune_cutoff_max (ttl now1 now2 : Z) :
  prune_cutoff ttl (Z.max now1 now2)
  = Z.max (prune_cutoff ttl now1) (prune_cutoff ttl now2).
Proof. unfold prune_cutoff. lia. Qed.

(** X3.  Pruning a pruned state is pruning once at the later of the two
    times, whatever the order of the times; in particular pruning again
    at the same or an earlier time changes nothing. *)
Theorem prune_prune :
  forall (NOTIFY_TTL_HOURS now1 now2 : Z) (state : State),
    prune NOTIFY_TTL_HOURS now2 (prune NOTIFY_TTL_HOURS now1 state)
    = prune NOTIFY_TTL_HOURS (Z.max now1 now2) state.
Proof.
  intros ttl now1 now2 state. apply State_eq; [| reflexivity].
  apply map_eq. intros key. rewrite !prune_notified_lookup, prune_cutoff_max.
  destruct (notified state !! key) as [ts|]; [| reflexivity].
  destruct (Z.ltb_spec ts (prune_cutoff ttl now1));
    destruct (Z.ltb_spec ts (prune_cutoff ttl now2));
    destruct (Z.ltb_spec ts (Z.max (prune_cutoff ttl now1) (prune_cutoff ttl now2)));
    try reflexivity; lia.
Qed.

(** X4.  A key recorded at a time [t] other than 0 is suppressed while
    [FORCE_NOTIFY] is off.  A pruning at [now] removes it, and the key is
    announced again, exactly when [t] is more than the TTL before [now];
    otherwise the entry and the suppression stay. *)
Theorem notified_until_ttl :
  forall (NOTIFY_TTL_HOURS : Z) (state : State) (key : jsstring) (t now : Z),
    t <> 0 ->
    let recorded := recordNotified state key t in
    notifyDecision false recorded key = false
    /\ (t < now - NOTIFY_TTL_HOURS * 3600 * 1000 ->
        notified (prune NOTIFY_TTL_HOURS now recorded) !! key = None
        /\ notifyDecision false (prune NOTIFY_TTL_HOURS now recorded) key = true)
    /\ (now - NOTIFY_TTL_HOURS * 3600 * 1000 <= t ->
        notified (prune NOTIFY_TTL_HOURS now recorded) !! key = Some t
        /\ notifyDecision false (prune NOTIFY_TTL_HOURS now recorded) key = false).
Proof.
  intros ttl state key t now Ht recorded.
  assert (Hrec : notified recorded !! key = Some t) by apply lookup_insert_eq.
  assert (Hnz : (t =? 0) = false) by (apply Z.eqb_neq; exact Ht).
  unfold notifyDecision, skipCandidate, notified_truthy, truthy_num.
  rewrite !prune_notified_lookup, Hrec, Hnz. unfold prune_cutoff.
  split; [reflexivity |]. split; intros H.
  - apply Z.ltb_lt in H. rewrite H. split; reflexivity.
  - apply Z.ltb_ge in H. rewrite H, Hnz. split; reflexivity.
Qed.

Lemma notified_until_ttl_witness :
  let recorded := recordNotified emptyState (js "k") 1700000000000 in
  notifyDecision false recorded (js "k") = false
  /\ notifyDecision false (prune 48 1700172800001 recorded) (js "k") = true
  /\ notifyDecision false (prune 48 1700172800000 recorded) (js "k") = false.
Proof.
  destruct (notified_until_ttl 48 emptyState (js "k") 1700000000000
              1700172800001 ltac:(lia)) as (H1 & H2 & _).
  destruct (notified_until_ttl 48 emptyState (js "k") 1700000000000
              1700172800000 ltac:(lia)) as (_ & _ & H3).
  cbv zeta in *. split; [exact H1 |]. split.
  - apply H2. lia.
  - apply H3. lia.
Defined.

(** ** The event test *)

Lemma skipn_app_exact {A} (l1 l2 : list A) : skipn (length l1) (l1 ++ l2) = l2.
Proof. induction l1; simpl; auto. Qed.

Lemma eventAfterDomain_spec (s : jsstring) :
  eventAfterDomain s = true
  <-> exists middle after,
        s = middle ++ js "/event/" ++ after
        /\ middle <> []
        /\ Forall (fun c => isLineTerminator c = false) middle.
Proof.
  induction s as [|c s IH].
  - split; [discriminate |].
    intros (middle & after & H & Hne & _). destruct middle; [contradiction |].
    discriminate.
  - cbn [eventAfterDomain].
    rewrite andb_true_iff, negb_true_iff, orb_true_iff, startsWith_prefix, IH.
    split.
    + intros [Hc [[after ->] | (middle & after & -> & Hne & Hall)]].
      * exists [c], after. split; [reflexivity |]. split; [discriminate |].
        constructor; [exact Hc | constructor].
      * exists (c :: middle), after. split; [reflexivity |].
        split; [discriminate |]. constructor; assumption.
    + intros (middle & after & H & Hne & Hall).
      destruct middle as [|d middle]; [contradiction |].
      injection H as <- ->. inversion Hall as [|? ? Hd Hall']; subst.
      split; [exact Hd |].
      destruct middle as [|d' middle].
      * left. exists after. reflexivity.
      * right. exists (d' :: middle), after.
        split; [reflexivity |]. split; [discriminate | exact Hall'].
Qed.

(** X5.  The test [/ticketon\.kz\/.+\/event\//] accepts an href exactly
    when the href contains "ticketon.kz/", then at least one code unit
    and no line terminator, then "/event/". *)
Theorem isTicketonEvent_regex :
  forall href : jsstring, isTicketonEvent href = true <-> eventShaped href.
Proof.
  unfold eventShaped. induction href as [|c href IH].
  - cbn [isTicketonEvent]. rewrite orb_false_r, andb_true_iff. split.
    + intros [H _]. apply startsWith_prefix in H as [after H]. discriminate.
    + intros (before & middle & after & H & _).
      destruct before; discriminate.
  - cbn [isTicketonEvent].
    rewrite orb_true_iff, andb_true_iff, startsWith_prefix, IH. split.
    + intros [[[rest Hrest] Hafter] | (before & middle & after & -> & Hm)].
      * rewrite Hrest in Hafter.
        change 12%nat with (length (js "ticketon.kz/")) in Hafter.
        rewrite skipn_app_exact in Hafter.
        apply eventAfterDomain_spec in Hafter
          as (middle & after & -> & Hm).
        exists [], middle, after. split; [exact Hrest | exact Hm].
      * exists (c :: before), middle, after. split; [reflexivity | exact Hm].
    + intros (before & middle & after & H & Hm).
      destruct before as [|b before].
      * left. cbn [app] in H. split.
        -- eexists. exact H.
        -- rewrite H. change 12%nat with (length (js "ticketon.kz/")).
           rewrite skipn_app_exact. apply eventAfterDomain_spec.
           exists middle, after. split; [reflexivity | exact Hm].
      * right. injection H as -> H. exists before, middle, after.
        split; [exact H | exact Hm].
Qed.

(** ** The comma lists of the configuration *)

Lemma split_pieces (sep : N) (s : jsstring) :
  Forall (fun piece => Forall (fun c => c <> sep /\ In c s) piece)
    (split sep s).
Proof.
  induction s as [|c s IH]; [repeat constructor |].
  assert (IH' : Forall (fun piece =>
                          Forall (fun d => d <> sep /\ In d (c :: s)) piece)
                  (split sep s)).
  { eapply Forall_impl; [exact IH |]. intros piece Hp.
    eapply Forall_impl; [exact Hp |]. intros d [Hd Hin].
    split; [exact Hd | right; exact Hin]. }
  cbn [split]. destruct (N.eqb_spec c sep) as [Heq | Hne].
  - constructor; [constructor | exact IH'].
  - destruct (split sep s) as [|piece pieces].
    + repeat constructor. exact Hne.
    + inversion IH' as [|? ? Hpiece Hpieces]; subst.
      constructor; [| exact Hpieces].
      constructor; [| exact Hpiece]. split; [exact Hne | left; reflexivity].
Qed.

Lemma dropWhile_In (p : N -> bool) (s : jsstring) (c : N) :
  In c (dropWhile p s) -> In c s.
Proof.
  induction s as [|d s IH]; simpl; [tauto |].
  destruct (p d); [intros H; right; exact (IH H) | simpl; tauto].
Qed.

Lemma trim_In (s : jsstring) (c : N) : In c (trim s) -> In c s.
Proof.
  unfold trim, trimEnd, trimStart. intros H.
  rewrite <- in_rev in H. apply dropWhile_In in H.
  rewrite <- in_rev in H. apply dropWhile_In in H. exact H.
Qed.

Lemma comma_list_entries (s : jsstring) :
  Forall listEntry (List.filter truthy_str (map trim (split 44 s))).
Proof.
  apply List.Forall_forall. intros entry H.
  apply filter_In in H as [H Htruthy].
  apply in_map_iff in H as [piece [<- Hpiece]].
  split; [apply truthy_str_nonempty; exact Htruthy |].
  split; [apply trim_trim |].
  intros Hin. apply trim_In in Hin.
  pose proof (split_pieces 44 s) as Hall.
  rewrite List.Forall_forall in Hall. specialize (Hall _ Hpiece).
  rewrite List.Forall_forall in Hall. destruct (Hall _ Hin) as [Hne _].
  apply Hne. reflexivity.
Qed.

(** X6.  Whatever the environment holds, every entry of [URLS] and of
    [RAW_RULES] is not empty, is trimmed and contains no comma. *)
Theorem comma_lists_clean :
  forall value : option jsstring,
    Forall listEntry (envURLS value) /\ Forall listEntry (RAW_RULES value).
Proof.
  intros value. split; apply comma_list_entries.
Qed.

Lemma split_app_sep (sep : N) (a b : jsstring) :
  ~ In sep a -> split sep (a ++ sep :: b) = a :: split sep b.
Proof.
  induction a as [|c a IH]; intros Hnot.
  - cbn [app split]. rewrite N.eqb_refl. reflexivity.
  - cbn [app split]. destruct (N.eqb_spec c sep) as [-> | Hne].
    + exfalso. apply Hnot. left. reflexivity.
    + rewrite IH; [reflexivity |]. intros Hin. apply Hnot. right. exact Hin.
Qed.

Lemma split_join (sep : N) (entries : list jsstring) :
  entries <> [] -> Forall (fun entry => ~ In sep entry) entries ->
  split sep (join [sep] entries) = entries.
Proof.
  intros Hne Hall. induction Hall as [|entry entries Hentry Hall IH];
    [contradiction |].
  destruct entries as [|next entries].
  - cbn [join]. apply split_without_separator.
    apply List.Forall_forall. intros c Hc. apply N.eqb_neq.
    intros ->. exact (Hentry Hc).
  - change (join [sep] (entry :: next :: entries))
      with (entry ++ sep :: join [sep] (next :: entries)).
    rewrite split_app_sep by exact Hentry. rewrite IH; [reflexivity |].
    discriminate.
Qed.

Lemma join_nonempty (sep : jsstring) (entries : list jsstring) :
  entries <> [] -> Forall (fun entry => entry <> []) entries ->
  join sep entries <> [].
Proof.
  intros Hne Hall. destruct Hall as [|entry entries Hentry Hall];
    [contradiction |].
  destruct entry as [|c entry]; [contradiction |].
  destruct entries; discriminate.
Qed.

Lemma comma_list_join (entries : list jsstring) (fallback : jsstring) :
  entries <> [] -> Forall listEntry entries ->
  List.filter truthy_str
    (map trim (split 44 (envOr (Some (join [44%N] entries)) fallback)))
  = entries.
Proof.
  intros Hne Hall. unfold envOr.
  assert (Htruthy : truthy_str (join [44%N] entries) = true).
  { apply truthy_str_nonempty, join_nonempty; [exact Hne |].
    eapply Forall_impl; [exact Hall |]. intros entry [H _]. exact H. }
  rewrite Htruthy, split_join; [| exact Hne |].
  - clear Hne Htruthy. induction Hall as [|entry entries Hentry Hall IH];
      [reflexivity |].
    destruct Hentry as (Hnonempty & Htrim & _).
    cbn [map List.filter]. rewrite Htrim.
    apply truthy_str_nonempty in Hnonempty. rewrite Hnonempty, IH.
    reflexivity.
  - eapply Forall_impl; [exact Hall |]. intros entry (_ & _ & H). exact H.
Qed.

(** X7.  Writing a non-empty list of entries, each not empty, trimmed and
    without a comma, as a comma-separated value of [URLS] or [KEYWORDS]
    gives back exactly that list, in order and with its repetitions. *)
Theorem comma_list_round_trip :
  forall entries : list jsstring,
    entries <> [] -> Forall listEntry entries ->
    envURLS (Some (join [44%N] entries)) = entries
    /\ RAW_RULES (Some (join [44%N] entries)) = entries.
Proof.
  intros entries Hne Hall. split; apply comma_list_join; assumption.
Qed.

Lemma comma_list_round_trip_witness :
  let entries := [js "https://ticketon.kz/almaty"; js "https://ticketon.kz/sports"] in
  envURLS (Some (js "https://ticketon.kz/almaty,https://ticketon.kz/sports"))
  = entries
  /\ RAW_RULES (Some (js "https://ticketon.kz/almaty,https://ticketon.kz/sports"))
     = entries.
Proof.
  cbv zeta.
  apply (comma_list_round_trip
           [js "https://ticketon.kz/almaty"; js "https://ticketon.kz/sports"]).
  - discriminate.
  - repeat constructor; try discriminate;
      intros H; vm_compute in H; intuition discriminate.
Defined.

Lemma dropWhile_all (p : N -> bool) (s : jsstring) :
  Forall (fun c => p c = true) s -> dropWhile p s = [].
Proof.
  induction 1 as [|c s Hc Hs IH]; [reflexivity |].
  simpl. rewrite Hc. exact IH.
Qed.

Lemma trim_white (s : jsstring) :
  Forall (fun c => isWhiteSpace c = true) s -> trim s = [].
Proof.
  intros H. unfold trim, trimEnd, trimStart.
  rewrite (dropWhile_all _ _ H). reflexivity.
Qed.

Lemma RAW_RULES_blank (value : jsstring) :
  value <> [] -> blank value -> RAW_RULES (Some value) = [].
Proof.
  intros Hne Hblank. unfold RAW_RULES, envOr.
  apply truthy_str_nonempty in Hne. rewrite Hne.
  pose proof (split_pieces 44 value) as Hall.
  induction Hall as [|piece pieces Hpiece Hall IH]; [reflexivity |].
  cbn [map List.filter]. rewrite trim_white; [exact IH |].
  eapply Forall_impl; [exact Hpiece |]. intros c [Hc Hin].
  unfold blank in Hblank. rewrite List.Forall_forall in Hblank.
  destruct (Hblank _ Hin) as [Hw | ->]; [exact Hw | contradiction].
Qed.

(** X8.  A [KEYWORDS] value that is set and made only of commas and
    white space does not fall back to the default rules: it leaves no
    rule at all, so no anchor is a candidate and nothing is announced. *)
Theorem blank_KEYWORDS_match_nothing :
  forall (E : Engine) (C : Config) (value : jsstring),
    KEYWORDS C = Some value -> value <> [] -> blank value ->
    rules E C = []
    /\ forall anchors : list Anchor,
         List.filter (isCandidate E C) anchors = [].
Proof.
  intros E C value HC Hne Hblank.
  assert (Hrules : rules E C = []).
  { unfold rules, RULES. rewrite HC, RAW_RULES_blank by assumption.
    reflexivity. }
  split; [exact Hrules |].
  intros anchors. induction anchors as [|a anchors IH]; [reflexivity |].
  cbn [List.filter]. unfold isCandidate at 1. rewrite Hrules.
  unfold matchesKeywords. cbn [existsb orb]. rewrite !andb_false_r.
  exact IH.
Qed.

Lemma blank_KEYWORDS_match_nothing_witness :
  let C := mkConfig (js "42") [js "https://ticketon.kz/almaty"]
             (Some (js " , ")) false 48 true in
  rules exampleEngine C = []
  /\ List.filter (isCandidate exampleEngine C) testAnchors = [].
Proof.
  cbv zeta.
  destruct (blank_KEYWORDS_match_nothing exampleEngine
              (mkConfig (js "42") [js "https://ticketon.kz/almaty"]
                 (Some (js " , ")) false 48 true)
              (js " , ") eq_refl) as [Hrules Hnone].
  - discriminate.
  - repeat (constructor;
            [first [left; reflexivity | right; reflexivity] |]).
    constructor.
  - split; [exact Hrules | apply Hnone].
Defined.

(** ** Candidates and de-duplication *)

Lemma dedupe_seen (E : Engine) (pageUrl : jsstring) (found : list Anchor) :
  forall seen : gset jsstring,
    let unique := dedupe E pageUrl seen found in
    NoDup (map normHref unique)
    /\ Forall (fun item => normHref item ∉ seen) unique
    /\ unique `sublist_of` map (toItem E pageUrl) found
    /\ Forall (fun a => normHref (toItem E pageUrl a) ∈ seen
                        \/ normHref (toItem E pageUrl a)
                             ∈ map normHref unique) found.
Proof.
  induction found as [|a found IH]; intros seen; cbn zeta.
  - cbn [dedupe map]. repeat split; constructor.
  - cbn [dedupe map].
    set (norm := normalizeHref (parseHost E)
                   (if truthy_str (a_href a) then a_href a else pageUrl)).
    change (normHref (toItem E pageUrl a)) with norm.
    destruct (bool_decide_reflect (norm ∈ seen)) as [Hin | Hnot].
    + destruct (IH seen) as (Hnodup & Hfresh & Hsub & Hall).
      repeat split; try assumption.
      * apply sublist_cons. exact Hsub.
      * constructor; [left; exact Hin | exact Hall].
    + destruct (IH ({[norm]} ∪ seen)) as (Hnodup & Hfresh & Hsub & Hall).
      repeat split.
      * cbn [map normHref]. constructor; [| exact Hnodup].
        intros Hin. apply list_elem_of_fmap in Hin as (item & Heq & Hitem).
        rewrite Forall_forall in Hfresh.
        apply (Hfresh _ Hitem). rewrite <- Heq.
        apply elem_of_union_l, elem_of_singleton. reflexivity.
      * constructor; [exact Hnot |].
        eapply Forall_impl; [exact Hfresh |].
        intros item Hitem Hin. apply Hitem, elem_of_union_r, Hin.
      * apply sublist_skip. exact Hsub.
      * constructor; [right; cbn [map normHref]; left |].
        eapply Forall_impl; [exact Hall |].
        intros b [Hb | Hb].
        -- apply elem_of_union in Hb as [Hb | Hb].
           ++ apply elem_of_singleton in Hb. right. rewrite Hb.
              cbn [map normHref]. left.
           ++ left. exact Hb.
        -- right. cbn [map normHref]. right. exact Hb.
Qed.

(** X9.  The de-duplication of one page keeps the anchors in page order,
    each with its own href and text and its normalized href; no two kept
    items have the same normalized href, and the normalized href of every
    anchor found is that of a kept item. *)
Theorem dedupe_spec :
  forall (E : Engine) (pageUrl : jsstring) (found : list Anchor),
    let unique := dedupe E pageUrl ∅ found in
    NoDup (map normHref unique)
    /\ unique `sublist_of` map (toItem E pageUrl) found
    /\ Forall (fun a => normHref (toItem E pageUrl a) ∈ map normHref unique)
         found.
Proof.
  intros E pageUrl found unique.
  destruct (dedupe_seen E pageUrl found ∅) as (Hnodup & _ & Hsub & Hall).
  split; [exact Hnodup |]. split; [exact Hsub |].
  eapply Forall_impl; [exact Hall |].
  intros a [Hin | Hin]; [| exact Hin].
  exfalso. exact (not_elem_of_empty _ Hin).
Qed.

Lemma sublist_Forall_items {A} (Q : A -> Prop) (l1 l2 : list A) :
  l1 `sublist_of` l2 -> Forall Q l2 -> Forall Q l1.
Proof.
  intros Hsub H. rewrite Forall_forall in *. intros x Hx.
  apply H. eapply elem_of_sublist; eassumption.
Qed.

(** X10.  Every item that the scan of a page goes on to process comes
    from an anchor with a non-empty href that passes the event test, so
    the fallback to [page.url()] is never taken for it: its normalized
    href is that of its own href, and the link of its message is its own
    href. *)
Theorem unique_items_are_events :
  forall (E : Engine) (C : Config) (pageUrl : jsstring)
         (anchors : list Anchor),
    Forall (fun item =>
              isTicketonEvent (item_href item) = true
              /\ normHref item = normalizeHref (parseHost E) (item_href item)
              /\ forall url, itemLink item url = item_href item)
      (dedupe E pageUrl ∅ (List.filter (isCandidate E C) anchors)).
Proof.
  intros E C pageUrl anchors.
  destruct (dedupe_seen E pageUrl (List.filter (isCandidate E C) anchors) ∅)
    as (_ & _ & Hsub & _).
  eapply sublist_Forall_items; [exact Hsub |].
  apply Forall_fmap. apply Forall_forall. intros a Ha.
  apply list_elem_of_In, filter_In in Ha as [_ Ha].
  unfold isCandidate in Ha.
  apply andb_true_iff in Ha as [Htruthy Ha].
  apply andb_true_iff in Ha as [Hevent _].
  unfold compose, toItem, itemLink. cbn [item_href normHref].
  rewrite Htruthy.
  split; [exact Hevent |]. split; [reflexivity |].
  intros url. reflexivity.
Qed.

(** ** The text of a notification *)

Lemma composeMessage_lines (link text : jsstring) (changed : bool)
    (target : jsstring) :
  composeMessage link text changed target
  = join [10%N]
      ([MSG_HEADER; MSG_LINK ++ link]
       ++ (if truthy_str text then [MSG_TEXT ++ text] else [])
       ++ (if changed then [MSG_CHANGED] else [])
       ++ [MSG_SOURCE ++ target]).
Proof.
  unfold composeMessage, joinLines.
  destruct text as [|c text]; destruct changed; reflexivity.
Qed.

Lemma line_without_feed (prefix rest : jsstring) :
  forallb (fun c => negb (N.eqb c 10)) prefix = true ->
  ~ In 10%N rest -> ~ In 10%N (prefix ++ rest).
Proof.
  intros Hprefix Hrest Hin. apply in_app_or in Hin as [Hin | Hin].
  - rewrite forallb_forall in Hprefix. specialize (Hprefix _ Hin).
    discriminate.
  - exact (Hrest Hin).
Qed.

(** X11.  A notification is the header line, the link line, the text line
    when the anchor has a text, the change line when a change was seen,
    and the source line, joined by single line feeds: the empty string
    that the source puts before the source line is filtered out and
    leaves no empty line.  So when the link, the text and the target hold
    no line feed, the message splits at its line feeds into exactly these
    three to five lines, none of them empty; an empty line can only come
    from inside the link, the text or the target. *)
Theorem composeMessage_layout :
  forall (link text : jsstring) (changed : bool) (target : jsstring),
    composeMessage link text changed target
    = MSG_HEADER ++ [10%N] ++ MSG_LINK ++ link
      ++ (if truthy_str text then [10%N] ++ MSG_TEXT ++ text else [])
      ++ (if changed then [10%N] ++ MSG_CHANGED else [])
      ++ [10%N] ++ MSG_SOURCE ++ target
    /\ (~ In 10%N link -> ~ In 10%N text -> ~ In 10%N target ->
        let lines :=
          [MSG_HEADER; MSG_LINK ++ link]
          ++ (if truthy_str text then [MSG_TEXT ++ text] else [])
          ++ (if changed then [MSG_CHANGED] else [])
          ++ [MSG_SOURCE ++ target] in
        split 10 (composeMessage link text changed target) = lines
        /\ Forall (fun line => line <> []) lines).
Proof.
  intros link text changed target. split.
  - unfold composeMessage, joinLines.
    destruct text as [|c text]; destruct changed;
      cbn [truthy_str negb flat_map app List.filter MSG_LINK MSG_TEXT
           MSG_HEADER MSG_CHANGED MSG_SOURCE join];
      rewrite <- ?app_assoc; reflexivity.
  - intros Hlink Htext Htarget lines.
    assert (Hheader : ~ In 10%N MSG_HEADER).
    { rewrite <- (app_nil_r MSG_HEADER).
      apply line_without_feed; [reflexivity | intros []]. }
    assert (Hchanged : ~ In 10%N MSG_CHANGED).
    { rewrite <- (app_nil_r MSG_CHANGED).
      apply line_without_feed; [reflexivity | intros []]. }
    assert (Hfeeds : Forall (fun line => ~ In 10%N line) lines).
    { subst lines. repeat apply Forall_app_2;
        repeat first [apply Forall_cons_2 | apply Forall_nil_2];
        try (apply line_without_feed; [reflexivity | assumption]);
        try assumption.
      - destruct (truthy_str text);
          repeat first [apply Forall_cons_2 | apply Forall_nil_2].
        apply line_without_feed; [reflexivity | assumption].
      - destruct changed;
          repeat first [apply Forall_cons_2 | apply Forall_nil_2].
        assumption. }
    split.
    + rewrite composeMessage_lines. fold lines.
      apply split_join; [subst lines; discriminate | exact Hfeeds].
    + subst lines. repeat apply Forall_app_2;
        repeat first [apply Forall_cons_2 | apply Forall_nil_2];
        try discriminate.
      * destruct (truthy_str text);
          repeat first [apply Forall_cons_2 | apply Forall_nil_2].
        discriminate.
      * destruct changed;
          repeat first [apply Forall_cons_2 | apply Forall_nil_2].
        discriminate.
Qed.

Lemma composeMessage_layout_witness :
  split 10
    (composeMessage (js "https://ticketon.kz/almaty/event/kairat-real")
       (js "Kairat - Real") true (js "https://ticketon.kz/almaty"))
  = [MSG_HEADER;
     MSG_LINK ++ js "https://ticketon.kz/almaty/event/kairat-real";
     MSG_TEXT ++ js "Kairat - Real";
     MSG_CHANGED;
     MSG_SOURCE ++ js "https://ticketon.kz/almaty"].
Proof.
  destruct (composeMessage_layout
              (js "https://ticketon.kz/almaty/event/kairat-real")
              (js "Kairat - Real") true (js "https://ticketon.kz/almaty"))
    as [_ Hlines].
  destruct Hlines as [Hsplit _];
    [intros H; vm_compute in H; intuition discriminate ..|].
  exact Hsplit.
Defined.

(** ** Navigation and fingerprints *)

(** X12.  [gotoWithRetry] calls [page.goto] once when the first call
    succeeds and twice otherwise; it fails exactly when both calls fail,
    with the error of the second call, and it touches neither the state
    object nor the console. *)
Theorem gotoWithRetry_two_attempts :
  forall (P : Platform) (page : Page) (target : jsstring) (s : Store P),
    match page_goto P page target (world s) with
    | (Ok _, w1) =>
        gotoWithRetry P page target s = (Ok tt, mkStore w1 (st s) (console s))
    | (Throw e1, w1) =>
        match page_goto P page target w1 with
        | (Ok _, w2) =>
            gotoWithRetry P page target s
            = (Ok tt, mkStore w2 (st s) (console s))
        | (Throw e2, w2) =>
            gotoWithRetry P page target s
            = (Throw e2, mkStore w2 (st s) (console s))
        end
    end.
Proof.
  intros P page target s.
  unfold gotoWithRetry. cbn [gotoLoop]. unfold try_catch, call, throw.
  destruct (page_goto P page target (world s)) as [[[]|e1] w1]; [reflexivity |].
  cbn [world st console].
  destruct (page_goto P page target w1) as [[[]|e2] w2]; reflexivity.
Qed.

(** X13.  Once the detail page has loaded, the [try] block of
    [fingerprintEventPage] gives the digest of the page fields whether or
    not the page becomes idle in time, and the digest of the href when
    the fields cannot be read. *)
Theorem fingerprint_of_loaded_page :
  forall (P : Platform) (href : jsstring) (s s1 : Store P)
         (settled : result unit) (w2 : World P),
    gotoWithRetry P DetailPage href s = (Ok tt, s1) ->
    page_waitForLoadState P DetailPage (world s1) = (settled, w2) ->
    match page_fields P w2 with
    | (Ok fp, w3) =>
        fingerprintGuarded P href s
        = (Ok (hash (fpString fp)), mkStore w3 (st s1) (console s1))
    | (Throw _, w3) =>
        fingerprintGuarded P href s
        = (Ok (hash href), mkStore w3 (st s1) (console s1))
    end.
Proof.
  intros P href s s1 settled w2 Hgoto Hwait.
  unfold fingerprintGuarded, fingerprintTry, try_catch, bind, ignoreErrors.
  rewrite Hgoto. unfold try_catch, call, ret. rewrite Hwait.
  destruct settled as [[]|e]; cbn [world st console];
    destruct (page_fields P w2) as [[fp|e'] w3]; reflexivity.
Qed.

Lemma fingerprint_of_loaded_page_witness :
  let P := testPlatform false true true in
  let s := testStore P testWorld0 emptyState in
  fingerprintGuarded P (item_href testItem) s
  = (Ok (hash (fpString testFields)), s).
Proof.
  cbv zeta.
  set (P := testPlatform false true true).
  set (s := testStore P testWorld0 emptyState).
  exact (fingerprint_of_loaded_page P (item_href testItem) s s (Ok tt)
           testWorld0 eq_refl eq_refl).
Defined.

(** ** One item *)

(** X14.  An item whose key is already recorded, with [FORCE_NOTIFY]
    off, costs nothing after its key is computed: no message, no write
    of the state file, no pause. *)
Theorem processItem_known_key :
  forall (P : Platform) (C : Config) (target : jsstring) (item : Item)
         (s s1 : Store P) (key : jsstring) (changed : bool),
    resolveKey P C item s = (Ok (key, changed), s1) ->
    skipCandidate (FORCE_NOTIFY C) (st s1) key = true ->
    processItem P C target item s = (Ok tt, s1).
Proof.
  intros P C target item s s1 key changed Hkey Hskip.
  unfold processItem, bind, getState. rewrite Hkey. cbn [fst].
  rewrite Hskip. reflexivity.
Qed.

Lemma processItem_known_key_witness :
  let P := testPlatform false true true in
  let C := testConfig false in
  let state := recordNotified emptyState (normHref testItem) 1700000000000 in
  let s := testStore P testWorld0 state in
  processItem P C (js "https://ticketon.kz/almaty") testItem s = (Ok tt, s).
Proof.
  cbv zeta.
  apply (processItem_known_key _ _ _ _ _ _ (normHref testItem) false).
  - reflexivity.
  - vm_compute. reflexivity.
Defined.

(** X15.  An item that is not suppressed is sent first.  When the
    delivery is rejected the error is thrown with the key not recorded
    and the state file not written, so the item is tried again in the
    next cycle.  When it is accepted the key is recorded with the time
    read after the delivery and the state is written; if that write
    fails the error is thrown and the key stays recorded in memory only;
    otherwise the program pauses 900 ms. *)
Theorem processItem_new_key :
  forall (P : Platform) (C : Config) (target : jsstring) (item : Item)
         (s s1 : Store P) (key : jsstring) (changed : bool),
    resolveKey P C item s = (Ok (key, changed), s1) ->
    skipCandidate (FORCE_NOTIFY C) (st s1) key = false ->
    let msg :=
      composeMessage (itemLink item (page_url P (world s1)))
        (item_text item) changed target in
    match bot_sendMessage P (CHAT_ID C) msg (world s1) with
    | (Throw e, w2) =>
        processItem P C target item s
        = (Throw e, mkStore w2 (st s1) (console s1))
    | (Ok _, w2) =>
        let t := (Date_now P w2).1 in
        let recorded := recordNotified (st s1) key t in
        match writeStateFile P recorded (Date_now P w2).2 with
        | (Throw e, w4) =>
            processItem P C target item s
            = (Throw e, mkStore w4 recorded (console s1))
        | (Ok _, w4) =>
            processItem P C target item s
            = (Ok tt, mkStore (sleep P 900 w4) recorded (console s1))
        end
    end.
Proof.
  intros P C target item s s1 key changed Hkey Hskip msg.
  unfold processItem, bind, getState. rewrite Hkey. cbn [fst snd].
  rewrite Hskip.
  unfold notify, bind, currentUrl, call, now, getState, setState, saveState,
    delay, call.
  fold (itemLink item (page_url P (world s1))). fold msg.
  destruct (bot_sendMessage P (CHAT_ID C) msg (world s1)) as [[[]|e] w2];
    [| reflexivity].
  cbn [world st console].
  destruct (Date_now P w2) as [t w3]. cbn [fst snd world st console].
  destruct (writeStateFile P (recordNotified (st s1) key t) w3)
    as [[[]|e] w4]; reflexivity.
Qed.

Lemma processItem_new_key_witness :
  let P := testPlatform true true true in
  let C := testConfig false in
  let s := testStore P testWorld0 emptyState in
  exists e w, processItem P C (js "https://ticketon.kz/almaty") testItem s
              = (Throw e, mkStore w emptyState []).
Proof.
  cbv zeta.
  set (P := testPlatform true true true).
  set (C := testConfig false).
  set (s := testStore P testWorld0 emptyState).
  pose proof (processItem_new_key P C (js "https://ticketon.kz/almaty")
                testItem s s (normHref testItem) false eq_refl eq_refl) as H.
  cbv zeta in H.
  destruct (bot_sendMessage P (CHAT_ID C) _ (world s)) as [[[]|e] w2] eqn:Hsend.
  - vm_compute in Hsend. discriminate.
  - exists e, w2. exact H.
Defined.

(** ** One target *)

(** X16.  A target whose listing page fails to load twice is given up
    for this cycle: the error of the second attempt is logged after the
    [[watch]] line, nothing else is called, the state object is left as
    it was, and the loop goes on. *)
Theorem unreachable_target_is_skipped :
  forall (E : Engine) (P : Platform) (C : Config) (target : jsstring)
         (s : Store P) (e1 e2 : jsstring) (w1 w2 : World P),
    page_goto P ListingPage target (world s) = (Throw e1, w1) ->
    page_goto P ListingPage target w1 = (Throw e2, w2) ->
    guardedTarget E P C target s
    = (Ok tt, mkStore w2 (st s)
                (console s ++ [LogWatch target; LogError target e2])).
Proof.
  intros E P C target s e1 e2 w1 w2 H1 H2.
  unfold guardedTarget, try_catch, scanTarget.
  unfold bind at 1. unfold log at 1. unfold bind at 1.
  unfold gotoWithRetry. cbn [gotoLoop]. unfold try_catch, call, throw.
  cbn [world st console]. rewrite H1. cbn [world st console]. rewrite H2.
  unfold log. cbn [world st console]. rewrite <- app_assoc. reflexivity.
Qed.

Lemma unreachable_target_is_skipped_witness :
  let target := js "https://ticketon.kz/almaty" in
  guardedTarget exampleEngine offlinePlatform (testConfig true) target
    (mkStore (P := offlinePlatform) testWorld0 emptyState [])
  = (Ok tt, mkStore (P := offlinePlatform) testWorld0 emptyState
              [LogWatch target;
               LogError target (js "net::ERR_NAME_NOT_RESOLVED")]).
Proof.
  exact (unreachable_target_is_skipped exampleEngine offlinePlatform
           (testConfig true) (js "https://ticketon.kz/almaty")
           (mkStore (P := offlinePlatform) testWorld0 emptyState [])
           (js "net::ERR_NAME_NOT_RESOLVED") (js "net::ERR_NAME_NOT_RESOLVED")
           testWorld0 testWorld0 eq_refl eq_refl).
Defined.

(** ** What a scan cycle does to the state object *)

Lemma fingerprintEventPage_digest {P} (href : jsstring) (s s' : Store P)
    (v : jsstring) :
  fingerprintEventPage P href s = (Ok v, s') -> exists str, v = hash str.
Proof.
  unfold fingerprintEventPage, bind, finally.
  destruct (call P (context_newPage P DetailPage) s) as [[[]|e] s0];
    [| discriminate].
  destruct (fingerprintGuarded P href s0) as [r s1] eqn:Hg.
  destruct (call P (page_close P) s1) as [[[]|e] s2]; [| discriminate].
  intros [= -> <-].
  unfold fingerprintGuarded, try_catch in Hg.
  destruct (fingerprintTry P href s0) as [[v'|e] s3] eqn:Ht.
  - injection Hg as <- <-. unfold fingerprintTry, bind in Ht.
    destruct (gotoWithRetry P DetailPage href s0) as [[[]|e] s4];
      [| discriminate].
    destruct (ignoreErrors P (call P (page_waitForLoadState P DetailPage)) s4)
      as [[[]|e] s5]; [| discriminate].
    destruct (call P (page_fields P) s5) as [[fp|e] s6]; [| discriminate].
    injection Ht as <- _. eexists. reflexivity.
  - injection Hg as <- _. eexists. reflexivity.
Qed.

Section Transitions.

(** A relation on states that is kept by the two updates of the state
    object. *)
Variable R : State -> State -> Prop.
Hypothesis R_refl : forall state, R state state.
Hypothesis R_trans : forall a b c, R a b -> R b c -> R a c.
Hypothesis R_recordHash :
  forall state norm str, R state (recordHash state norm (hash str)).
Hypothesis R_recordNotified :
  forall state key t, R state (recordNotified state key t).

Lemma follows_same {P A} (m : M P A) :
  (forall s r s', m s = (r, s') -> st s' = st s) -> follows R m.
Proof. intros H s r s' Hm. rewrite (H _ _ _ Hm). apply R_refl. Qed.

Lemma follows_keepsState {P A} (m : M P A) : keepsState m -> follows R m.
Proof.
  intros H. apply follows_same. intros s r s' Hm.
  destruct (H _ _ _ Hm) as [Hst _]. exact Hst.
Qed.

Lemma follows_bind {P A B} (m : M P A) (k : A -> M P B) :
  follows R m -> (forall a, follows R (k a)) -> follows R (bind P m k).
Proof.
  intros Hm Hk s r s'. unfold bind.
  destruct (m s) as [[a|e] s1] eqn:Hms.
  - intros Hks. eapply R_trans; [eapply Hm, Hms | eapply Hk, Hks].
  - intros [= <- <-]. eapply Hm, Hms.
Qed.

Lemma follows_try_catch {P A} (m : M P A) (h : jsstring -> M P A) :
  follows R m -> (forall e, follows R (h e)) -> follows R (try_catch P m h).
Proof.
  intros Hm Hh s r s'. unfold try_catch.
  destruct (m s) as [[a|e] s1] eqn:Hms.
  - intros [= <- <-]. eapply Hm, Hms.
  - intros Hhs. eapply R_trans; [eapply Hm, Hms | eapply Hh, Hhs].
Qed.

Lemma follows_log {P} (line : LogLine) : follows R (log P line).
Proof. apply follows_same. intros s r s' [= <- <-]. reflexivity. Qed.

Lemma follows_delay {P} (ms : Z) : follows R (delay P ms).
Proof. apply follows_same. intros s r s' [= <- <-]. reflexivity. Qed.

Lemma follows_currentUrl {P} : follows R (currentUrl P).
Proof. apply follows_same. intros s r s' [= <- <-]. reflexivity. Qed.

Lemma follows_getState {P} : follows R (getState P).
Proof. apply follows_same. intros s r s' [= <- <-]. reflexivity. Qed.

Lemma follows_ret {P A} (a : A) : follows R (ret P a).
Proof. apply follows_keepsState, keepsState_ret. Qed.

Lemma follows_call {P A} (f : World P -> result A * World P) :
  follows R (call P f).
Proof. apply follows_keepsState, keepsState_call. Qed.

Lemma follows_resolveKey {P} (C : Config) (item : Item) :
  follows R (resolveKey P C item).
Proof.
  intros s r s'. unfold resolveKey.
  destruct (isTicketonEvent (item_href item) && DEEP_CHECK C).
  - unfold bind, getState, setState, ret.
    destruct (fingerprintEventPage P (item_href item) s) as [[fp|e] s1] eqn:Hfp;
      destruct (keepsState_fingerprintEventPage _ _ _ _ Hfp) as [Hst _];
      intros [= <- <-]; cbn [st].
    + rewrite Hst. destruct (fingerprintEventPage_digest _ _ _ _ Hfp) as [str ->].
      apply R_recordHash.
    + rewrite Hst. apply R_refl.
  - intros [= <- <-]. apply R_refl.
Qed.

Lemma follows_notify {P} (C : Config) (target : jsstring) (item : Item)
    (key : jsstring) (changed : bool) :
  follows R (notify P C target item key changed).
Proof.
  intros s r s'.
  unfold notify, bind, currentUrl, call, now, getState, setState, saveState,
    delay, call.
  destruct (bot_sendMessage P (CHAT_ID C) _ (world s)) as [[[]|e] w2];
    [| intros [= <- <-]; apply R_refl].
  cbn [world st console].
  destruct (Date_now P w2) as [t w3]. cbn [world st console].
  destruct (writeStateFile P _ w3) as [[[]|e] w4];
    intros [= <- <-]; apply R_recordNotified.
Qed.

Lemma follows_processItem {P} (C : Config) (target : jsstring) (item : Item) :
  follows R (processItem P C target item).
Proof.
  unfold processItem. apply follows_bind; [apply follows_resolveKey |].
  intros keyed. apply follows_bind; [apply follows_getState |].
  intros state. destruct (skipCandidate (FORCE_NOTIFY C) state keyed.1);
    [apply follows_ret | apply follows_notify].
Qed.

Lemma follows_processItems {P} (C : Config) (target : jsstring)
    (unique : list Item) :
  follows R (processItems P C target unique).
Proof.
  induction unique as [|item unique IH]; simpl.
  - apply follows_ret.
  - apply follows_bind; [apply follows_processItem | intros _; exact IH].
Qed.

Lemma follows_scanTarget (E : Engine) {P} (C : Config) (target : jsstring) :
  follows R (scanTarget E P C target).
Proof.
  unfold scanTarget, gotoWithRetry, ignoreErrors, extractCandidates.
  apply follows_bind; [apply follows_log | intros ?].
  apply follows_bind;
    [apply follows_keepsState, keepsState_gotoLoop | intros ?].
  apply follows_bind;
    [apply follows_try_catch; [apply follows_call | intros ?; apply follows_ret]
    | intros ?].
  apply follows_bind; [apply follows_delay | intros ?].
  apply follows_bind; [apply follows_call | intros bodyText].
  apply follows_bind;
    [destruct (waitingRoom E bodyText); [apply follows_log | apply follows_ret]
    | intros ?].
  apply follows_bind;
    [apply follows_bind; [apply follows_call | intros ?; apply follows_ret]
    | intros found].
  apply follows_bind; [apply follows_log | intros ?].
  apply follows_bind; [apply follows_currentUrl | intros url].
  apply follows_bind; [apply follows_log | intros ?].
  apply follows_processItems.
Qed.

Lemma follows_forEachTarget (E : Engine) {P} (C : Config)
    (targets : list jsstring) :
  follows R (forEachTarget E P C targets).
Proof.
  induction targets as [|target targets IH]; simpl.
  - apply follows_ret.
  - apply follows_bind; [| intros _; exact IH].
    unfold guardedTarget. apply follows_try_catch;
      [apply follows_scanTarget | intros e; apply follows_log].
Qed.

(** The state object at the end of [checkOnce] is related to the pruned
    state it started from. *)
Lemma checkOnce_after_prune (E : Engine) (P : Platform) (C : Config)
    (s : Store P) (loaded : State) :
  loadedState (readStateFile P (world s)).1 = Some loaded ->
  let t := (Date_now P (readStateFile P (world s)).2).1 in
  R (prune (NOTIFY_TTL_HOURS C) t loaded) (st (checkOnce E P C s).2).
Proof.
  intros Hfile t. subst t.
  assert (Hload : loadState P s
                  = (Ok (StateObject loaded),
                     mkStore (readStateFile P (world s)).2 (st s) (console s))).
  { unfold loadState.
    destruct (readStateFile P (world s)) as [[[state|e]|] w0];
      cbn [fst snd loadedState] in *; congruence. }
  unfold checkOnce. unfold bind at 1. rewrite Hload.
  set (w0 := (readStateFile P (world s)).2).
  unfold bind at 1. unfold pruneLoaded at 1. unfold bind at 1.
  unfold now at 1. cbn [world st console].
  destruct (Date_now P w0) as [t w1]. cbn [fst]. unfold ret at 1.
  unfold bind at 1. unfold setState at 1. cbn [world st console].
  unfold bind at 1. unfold getState at 1. cbn [world st console].
  match goal with
  | |- R ?pruned (st (bind P ?m ?k ?s1).2) =>
      assert (Hg : follows R (bind P m k));
      [| destruct (bind P m k s1) as [r s'] eqn:Hrun;
         exact (Hg _ _ _ Hrun)]
  end.
  unfold saveState.
  apply follows_bind; [apply follows_call | intros ?].
  apply follows_bind; [apply follows_call | intros ?].
  apply follows_bind; [apply follows_call | intros ?].
  apply follows_bind; [apply follows_forEachTarget | intros ?].
  apply follows_call.
Qed.

End Transitions.

Lemma stateGrows_refl (state : State) : stateGrows state state.
Proof. split; reflexivity. Qed.

Lemma stateGrows_trans (a b c : State) :
  stateGrows a b -> stateGrows b c -> stateGrows a c.
Proof. intros [H1 H2] [H3 H4]. split; etrans; eassumption. Qed.

Lemma stateGrows_recordHash (state : State) (norm contentHash : jsstring) :
  stateGrows state (recordHash state norm contentHash).
Proof.
  split; cbn [recordHash notified lastHash]; [reflexivity |].
  rewrite dom_insert. apply union_subseteq_r.
Qed.

Lemma stateGrows_recordNotified (state : State) (key : jsstring) (t : Z) :
  stateGrows state (recordNotified state key t).
Proof.
  split; cbn [recordNotified notified lastHash]; [| reflexivity].
  rewrite dom_insert. apply union_subseteq_r.
Qed.

(** A state file on which [prune] throws ends the cycle before anything
    is written or opened. *)
Lemma checkOnce_unprunable (E : Engine) (P : Platform) (C : Config)
    (s : Store P) (e : jsstring) :
  (readStateFile P (world s)).1 = Some (Unprunable e) ->
  checkOnce E P C s
  = (Throw e,
     mkStore (Date_now P (readStateFile P (world s)).2).2 (st s) (console s)).
Proof.
  intros Hfile. unfold checkOnce, bind, loadState, pruneLoaded, bind, now, throw.
  destruct (readStateFile P (world s)) as [file w0]. cbn [fst snd] in *.
  subst file. cbn [world st console].
  destruct (Date_now P w0) as [t w1]. reflexivity.
Qed.

(** X17.  Within a scan cycle only [prune] forgets: every key that the
    pruned state has, in [notified] and in [lastHash], is still a key of
    the state object when [checkOnce] ends, whether it returns or
    throws.  The pruned state comes from the state object in the file, or
    from the empty state when the file cannot be read or parsed; a file
    that holds a value on which [prune] throws makes [checkOnce] throw
    that error. *)
Theorem checkOnce_only_prune_forgets :
  forall (E : Engine) (P : Platform) (C : Config) (s : Store P),
    let t := (Date_now P (readStateFile P (world s)).2).1 in
    match (readStateFile P (world s)).1 with
    | Some (StateObject state) =>
        stateGrows (prune (NOTIFY_TTL_HOURS C) t state)
          (st (checkOnce E P C s).2)
    | Some (Unprunable e) => (checkOnce E P C s).1 = Throw e
    | None =>
        stateGrows (prune (NOTIFY_TTL_HOURS C) t emptyState)
          (st (checkOnce E P C s).2)
    end.
Proof.
  intros E P C s t.
  pose proof (checkOnce_after_prune stateGrows stateGrows_refl
                stateGrows_trans
                (fun state norm str => stateGrows_recordHash state norm (hash str))
                stateGrows_recordNotified E P C s) as Hgrows.
  pose proof (checkOnce_unprunable E P C s) as Hthrows.
  fold t in Hgrows.
  destruct ((readStateFile P (world s)).1) as [[state|e]|];
    cbn [loadedState] in Hgrows.
  - apply Hgrows. reflexivity.
  - rewrite (Hthrows e eq_refl). reflexivity.
  - apply Hgrows. reflexivity.
Qed.

(** X18.  When the state file cannot be read or parsed, or holds a state
    object in which every fingerprint is a non-empty numeral, as every
    digest is, every fingerprint of the state object is a non-empty
    numeral when [checkOnce] ends.  On such states a remembered
    fingerprint is never falsy, so [changed] is set exactly when a
    different fingerprint was remembered. *)
Theorem checkOnce_keeps_numeral_hashes :
  forall (E : Engine) (P : Platform) (C : Config) (s : Store P),
    match (readStateFile P (world s)).1 with
    | Some (StateObject state) => numeralHashes state
    | Some (Unprunable _) => False
    | None => True
    end ->
    numeralHashes (st (checkOnce E P C s).2)
    /\ forall norm contentHash,
         contentChanged (lastHash (st (checkOnce E P C s).2) !! norm)
           contentHash = true
         <-> exists previous,
               lastHash (st (checkOnce E P C s).2) !! norm = Some previous
               /\ previous <> contentHash.
Proof.
  intros E P C s Hfile.
  assert (Hend : numeralHashes (st (checkOnce E P C s).2)).
  { assert (HrecordHash : forall state norm str,
              numeralHashes state ->
              numeralHashes (recordHash state norm (hash str))).
    { intros state norm str Hstate. unfold numeralHashes.
      cbn [recordHash lastHash]. apply map_Forall_insert_2;
        [apply hash_isNumeral | exact Hstate]. }
    pose proof (checkOnce_after_prune
                  (fun before after =>
                     numeralHashes before -> numeralHashes after)
                  (fun _ H => H)
                  (fun a b c Hab Hbc Ha => Hbc (Hab Ha))
                  HrecordHash
                  (fun state key t H => H) E P C s) as Hrun.
    cbv beta zeta in Hrun.
    destruct ((readStateFile P (world s)).1) as [[state|e]|];
      cbn [loadedState] in Hrun; [| contradiction |].
    - apply (Hrun state eq_refl). exact Hfile.
    - apply (Hrun emptyState eq_refl). apply map_Forall_empty. }
  split; [exact Hend |].
  intros norm contentHash. unfold contentChanged.
  destruct (lastHash (st (checkOnce E P C s).2) !! norm) as [previous|] eqn:Hl.
  - assert (Htruthy : truthy_str previous = true).
    { specialize (Hend _ _ Hl). cbn beta in Hend. unfold isNumeral in Hend.
      apply andb_true_iff in Hend as [Hend _]. exact Hend. }
    rewrite Htruthy. cbn [andb]. rewrite negb_true_iff, jsstring_eqb_neq.
    split.
    + intros Hne. exists previous. split; [reflexivity | exact Hne].
    + intros (p & [= <-] & Hne). exact Hne.
  - split; [discriminate |]. intros (p & Hp & _). discriminate.
Qed.

Lemma checkOnce_keeps_numeral_hashes_witness :
  let P := testPlatform false true true in
  let remembered :=
    recordHash emptyState (js "https://ticketon.kz/almaty/event/kairat-real")
      (js "-42") in
  numeralHashes
    (st (checkOnce exampleEngine P (testConfig true)
           (mkStore (P := P) (mkTestWorld [] 1700000000000 (Some remembered))
              emptyState [])).2).
Proof.
  cbv zeta.
  apply (checkOnce_keeps_numeral_hashes exampleEngine
           (testPlatform false true true) (testConfig true)
           (mkStore (P := testPlatform false true true)
              (mkTestWorld [] 1700000000000
                 (Some (recordHash emptyState
                          (js "https://ticketon.kz/almaty/event/kairat-real")
                          (js "-42"))))
              emptyState [])).
  simpl. apply map_Forall_insert_2; [reflexivity | apply map_Forall_empty].
Defined.

(** ** Completion of a scan cycle *)

Lemma forEachTarget_returns (E : Engine) (P : Platform) (C : Config)
    (targets : list jsstring) (s : Store P) :
  (forEachTarget E P C targets s).1 = Ok tt.
Proof.
  revert s. induction targets as [|target targets IH]; intros s; simpl.
  - reflexivity.
  - unfold bind, guardedTarget, try_catch.
    destruct (scanTarget E P C target s) as [[[]|e] s1]; [apply IH |].
    unfold log. apply IH.
Qed.

(** X19.  A state file that parses to a value on which [prune] throws,
    such as [{}] or [null], makes [checkOnce] throw that error after the
    clock is read and before anything is written or opened.  In every
    other case (a state object, or a file that cannot be read or parsed)
    [checkOnce] returns whenever the pruned state can be written at its
    start and the browser context and the listing page can be opened and
    closed: no failure while the targets are scanned (navigation, reading
    the page, fingerprinting, delivery, a later write of the state file)
    makes it throw. *)
Theorem checkOnce_completes :
  forall (E : Engine) (P : Platform) (C : Config) (s : Store P),
    let file := (readStateFile P (world s)).1 in
    let w0 := (readStateFile P (world s)).2 in
    (forall e,
        file = Some (Unprunable e) ->
        checkOnce E P C s
        = (Throw e, mkStore (Date_now P w0).2 (st s) (console s)))
    /\ (forall loaded,
          loadedState file = Some loaded ->
          let pruned := prune (NOTIFY_TTL_HOURS C) (Date_now P w0).1 loaded in
          (writeStateFile P pruned (Date_now P w0).2).1 = Ok tt ->
          (forall w, (browser_newContext P w).1 = Ok tt) ->
          (forall w, (context_newPage P ListingPage w).1 = Ok tt) ->
          (forall w, (context_close P w).1 = Ok tt) ->
          (checkOnce E P C s).1 = Ok tt).
Proof.
  intros E P C s file w0. subst file w0. split.
  - intros e Hfile. apply checkOnce_unprunable. exact Hfile.
  - intros loaded Hfile pruned Hwrite Hcontext Hpage Hclose. subst pruned.
    assert (Hload : loadState P s
                    = (Ok (StateObject loaded),
                       mkStore (readStateFile P (world s)).2 (st s)
                         (console s))).
    { unfold loadState.
      destruct (readStateFile P (world s)) as [[[state|e]|] w0];
        cbn [fst snd loadedState] in *; congruence. }
    unfold checkOnce. unfold bind at 1. rewrite Hload.
    set (w0 := (readStateFile P (world s)).2) in *.
    unfold bind, pruneLoaded, bind, now, ret, setState, getState, saveState,
      call.
    cbn [world st console].
    destruct (Date_now P w0) as [t w1]. cbn [fst snd] in Hwrite.
    cbn [world st console].
    destruct (writeStateFile P (prune (NOTIFY_TTL_HOURS C) t loaded) w1)
      as [[[]|e] w2]; [| discriminate].
    cbn [world st console].
    specialize (Hcontext w2).
    destruct (browser_newContext P w2) as [[[]|e] w3]; [| discriminate].
    cbn [world st console].
    specialize (Hpage w3).
    destruct (context_newPage P ListingPage w3) as [[[]|e] w4];
      [| discriminate].
    match goal with
    | |- context [forEachTarget _ _ _ _ ?s4] =>
        pose proof (forEachTarget_returns E P C (URLS C) s4) as Hloop;
        destruct (forEachTarget E P C (URLS C) s4) as [[[]|e] s5];
        [| discriminate]
    end.
    specialize (Hclose (world s5)).
    destruct (context_close P (world s5)) as [[[]|e] w6]; [| discriminate].
    reflexivity.
Qed.

Lemma checkOnce_completes_witness :
  (checkOnce exampleEngine emptyObjectPlatform (testConfig true)
     (mkStore (P := emptyObjectPlatform) testWorld0 emptyState [])).1
  = Throw (js "Cannot convert undefined or null to object")
  /\ (checkOnce exampleEngine (testPlatform true false false)
        (testConfig true)
        (mkStore (P := testPlatform true false false) testWorld0
           emptyState [])).1
     = Ok tt.
Proof.
  split.
  - destruct (checkOnce_completes exampleEngine emptyObjectPlatform
                (testConfig true)
                (mkStore (P := emptyObjectPlatform) testWorld0 emptyState []))
      as [Hthrows _].
    rewrite (Hthrows (js "Cannot convert undefined or null to object")
               eq_refl).
    reflexivity.
  - destruct (checkOnce_completes exampleEngine
                (testPlatform true false false) (testConfig true)
                (mkStore (P := testPlatform true false false) testWorld0
                   emptyState []))
      as [_ Hreturns].
    apply (Hreturns emptyState); intros; reflexivity.
Defined.

(** ** Links that differ in the query or the fragment *)

Lemma URL_empty (hostParser : bool -> list N -> option jsstring) :
  URL hostParser [] = None.
Proof. reflexivity. Qed.

Lemma normalizeHref_variant (hostParser : bool -> list N -> option jsstring)
    (pageUrl x href : jsstring) (u : URLRecord) :
  beforeQuery x -> URL hostParser x = Some u -> variantOf x href ->
  normalizeHref hostParser (if truthy_str href then href else pageUrl)
  = origin hostParser u ++ pathname u.
Proof.
  intros Hx Hurl Hvariant.
  assert (Hne : x <> []).
  { intros ->. rewrite URL_empty in Hurl. discriminate. }
  destruct Hvariant as [-> | (c & t & Hc & ->)].
  - apply truthy_str_nonempty in Hne. rewrite Hne.
    unfold normalizeHref. rewrite Hurl. reflexivity.
  - replace (truthy_str (x ++ c :: t)) with true
      by (destruct x; [contradiction | reflexivity]).
    unfold normalizeHref.
    rewrite (URL_ignores_query_fragment hostParser x c t Hx Hc), Hurl.
    reflexivity.
Qed.

Lemma dedupe_all_seen (E : Engine) (pageUrl : jsstring)
    (seen : gset jsstring) (found : list Anchor) :
  Forall (fun b => normHref (toItem E pageUrl b) ∈ seen) found ->
  dedupe E pageUrl seen found = [].
Proof.
  induction 1 as [|b found Hb Hfound IH]; [reflexivity |].
  cbn [dedupe]. unfold toItem in Hb. cbn [normHref] in Hb.
  rewrite (bool_decide_eq_true_2 _ Hb). exact IH.
Qed.

(** X20.  Anchors of one page whose hrefs are the same printable URL,
    bare or followed by any query or fragment, are one item: only the
    first of them is kept, under the origin and path name of the URL, so
    tracking parameters do not multiply the notifications of a page. *)
Theorem query_variants_are_one_item :
  forall (E : Engine) (pageUrl x : jsstring) (u : URLRecord) (a : Anchor)
         (others : list Anchor),
    beforeQuery x -> URL (parseHost E) x = Some u ->
    Forall (fun b => variantOf x (a_href b)) (a :: others) ->
    dedupe E pageUrl ∅ (a :: others)
    = [mkItem (a_href a) (a_text a) (origin (parseHost E) u ++ pathname u)].
Proof.
  intros E pageUrl x u a others Hx Hurl Hall.
  inversion Hall as [|? ? Ha Hothers]; subst.
  cbn [dedupe].
  rewrite (normalizeHref_variant _ pageUrl x (a_href a) u Hx Hurl Ha).
  rewrite bool_decide_eq_false_2 by apply not_elem_of_empty.
  f_equal. apply dedupe_all_seen.
  eapply Forall_impl; [exact Hothers |]. intros b Hb.
  unfold toItem. cbn [normHref].
  rewrite (normalizeHref_variant _ pageUrl x (a_href b) u Hx Hurl Hb).
  apply elem_of_union_l, elem_of_singleton. reflexivity.
Qed.

Lemma query_variants_are_one_item_witness :
  dedupe exampleEngine (js "https://s.kz/")  ∅
    [ mkAnchor (js "https://s.kz/p") (js "first");
      mkAnchor (js "https://s.kz/p" ++ c_question :: js "utm=1") (js "second");
      mkAnchor (js "https://s.kz/p" ++ c_hash :: js "top") (js "third") ]
  = [mkItem (js "https://s.kz/p") (js "first") (js "https://s.kz/p")].
Proof.
  apply (query_variants_are_one_item exampleEngine (js "https://s.kz/")
           (js "https://s.kz/p")
           (mkURL (js "https") (Some (js "s.kz")) None (ListPath [js "p"]))).
  - vm_compute. reflexivity.
  - vm_compute. reflexivity.
  - constructor; [left; reflexivity |].
    constructor;
      [right; exists c_question, (js "utm=1"); split; reflexivity |].
    constructor; [right; exists c_hash, (js "top"); split; reflexivity |].
    constructor.
Defined.

(** ** An item that was processed *)

(** X21.  With [FORCE_NOTIFY] off, an item that [processItem] handles
    without an error is suppressed from then on while its key stays in
    [notified]: either the key was recorded before, or it is recorded now
    with the time of the clock, and only a clock that reads 0 leaves it
    unsuppressed. *)
Theorem processed_item_is_suppressed :
  forall (P : Platform) (C : Config) (target : jsstring) (item : Item)
         (s s1 s2 : Store P) (key : jsstring) (changed : bool),
    FORCE_NOTIFY C = false ->
    resolveKey P C item s = (Ok (key, changed), s1) ->
    processItem P C target item s = (Ok tt, s2) ->
    skipCandidate false (st s2) key = true
    \/ notified (st s2) !! key = Some 0.
Proof.
  intros P C target item s s1 s2 key changed Hforce Hkey.
  unfold processItem, bind, getState. rewrite Hkey, Hforce. cbn [fst snd].
  destruct (skipCandidate false (st s1) key) eqn:Hskip.
  - intros [= <-]. left. exact Hskip.
  - unfold notify, bind, currentUrl, call, now, getState, setState,
      saveState, delay, call.
    destruct (bot_sendMessage P (CHAT_ID C) _ (world s1)) as [[[]|e] w2];
      [| discriminate].
    cbn [world st console].
    destruct (Date_now P w2) as [t w3]. cbn [world st console].
    destruct (writeStateFile P _ w3) as [[[]|e] w4]; [| discriminate].
    intros [= <-]. cbn [st].
    unfold skipCandidate, notified_truthy, truthy_num.
    cbn [recordNotified notified]. rewrite lookup_insert_eq.
    destruct (Z.eqb_spec t 0) as [-> | Hne]; [right | left]; reflexivity.
Qed.

Lemma processed_item_is_suppressed_witness :
  let P := testPlatform false true true in
  let C := testConfig false in
  let s := testStore P testWorld0 emptyState in
  skipCandidate false
    (st (processItem P C (js "https://ticketon.kz/almaty") testItem s).2)
    (normHref testItem) = true
  \/ notified
       (st (processItem P C (js "https://ticketon.kz/almaty") testItem s).2)
     !! normHref testItem = Some 0.
Proof.
  cbv zeta.
  apply (processed_item_is_suppressed (testPlatform false true true)
           (testConfig false) (js "https://ticketon.kz/almaty") testItem
           (testStore (testPlatform false true true) testWorld0 emptyState)
           (testStore (testPlatform false true true) testWorld0 emptyState)
           _ (normHref testItem) false).
  - reflexivity.
  - reflexivity.
  - vm_compute. reflexivity.
Defined.
